(** * video_clipper: a shallow embedding of [app.py]

    The pipeline of [app.py] has three functions of interest:
    [sanitize_filename], [download_youtube_video] and [trim_video], plus the
    top-level "Process Video" flow that chains them.

    Modelling choices.
    - Python [str] is [string]; the regular expression of
      [sanitize_filename] is a single character class, so [re.sub] with an
      empty replacement is a left-to-right scan dropping the members of the
      class.
    - Durations are exact rationals [Q]: [video.duration] is a Python float
      and [segment_duration] the int of the number input of the form; floor
      division, modulo, [min] and the products [i * segment_duration] are
      taken in exact arithmetic, which is what Python computes for an int
      length.  What the same lines compute when [segment_duration] is a
      float is in [Double], over binary64.
    - Effects (Streamlit calls, the file system, pytubefix, moviepy) are
      explicit: a [world] record holds what the outside answers, a [state]
      record holds what the program did (the trace of [event]s, call
      counters, the clips held open and the local variable [video]), and a
      small state-and-exception monad threads both. *)

From Stdlib Require Import List String Ascii Bool Arith ZArith QArith Qround
  Qminmax Lia Lqa DecimalString Sorted Permutation.
From Stdlib Require DecimalNat DecimalFacts Nnat.
From Stdlib Require PrimFloat SpecFloat FloatOps.
Import ListNotations.

Local Open Scope string_scope.

(** ** Strings *)

Module Filename.

(** The double quote character, code point 34. *)
Definition dquote : ascii := ascii_of_nat 34.

(** The members of the character class of the pattern in
    [sanitize_filename]: less-than, greater-than, colon, double quote,
    slash, backslash (written doubled in the raw pattern), vertical bar,
    question mark and asterisk. *)
Definition forbidden_chars : list ascii :=
  ["<"; ">"; ":"; dquote; "/"; "\"; "|"; "?"; "*"]%char.

Definition is_forbidden (c : ascii) : bool :=
  existsb (Ascii.eqb c) forbidden_chars.

(** [re.sub(pattern, empty, filename)]: every match of the class is one
    character and is replaced by the empty string; the characters between
    matches are copied. *)
Fixpoint sanitize_filename (filename : string) : string :=
  match filename with
  | EmptyString => EmptyString
  | String c rest =>
      if is_forbidden c then sanitize_filename rest
      else String c (sanitize_filename rest)
  end.

(** The characters of a string, in order. *)
Definition chars (s : string) : list ascii := list_ascii_of_string s.

(** [s.startswith(c)] and [s.endswith(c)] for a one-character [c]. *)
Definition startswith_char (s : string) (c : ascii) : bool :=
  match s with
  | String d _ => Ascii.eqb d c
  | EmptyString => false
  end.

Fixpoint endswith_char (s : string) (c : ascii) : bool :=
  match s with
  | EmptyString => false
  | String d EmptyString => Ascii.eqb d c
  | String _ rest => endswith_char rest c
  end.

(** [os.path.join(a, b)] of [posixpath], two arguments: an absolute [b]
    replaces [a]; otherwise the separator is inserted unless [a] is empty
    or already ends with it. *)
Definition os_path_join (a b : string) : string :=
  if startswith_char b "/" then b
  else if (String.eqb a EmptyString || endswith_char a "/")%bool then a ++ b
  else a ++ "/" ++ b.

(** [str(n)] for a non-negative int. *)
Definition str_of_nat (n : nat) : string :=
  NilZero.string_of_uint (Nat.to_uint n).

End Filename.
Import Filename.

(** ** The outside world, the program state and the monad *)

(** A Python exception, identified by its message [str(e)]. *)
Definition exn := string.

Inductive result (A : Type) : Type :=
| Ok (a : A)
| Raise (e : exn).
Arguments Ok {A} a.
Arguments Raise {A} e.

(** A pytubefix stream descriptor: the attributes the query of
    [download_youtube_video] reads.  [resolution] is the number pytubefix
    reads off the resolution label when ordering (720 for 720p), [None] for
    a stream without a resolution. *)
Record Stream : Type := mkStream {
  itag : nat;
  is_progressive : bool;
  subtype : string;
  resolution : option N
}.

(** The object [YouTube(url)]: reading [streams] or [title] performs the
    lookup and may raise. *)
Record YouTube : Type := mkYouTube {
  streams : result (list Stream);
  title : result string
}.

(** What the outside answers.  Calls whose answer may change between two
    calls are indexed by the number of earlier calls. *)
Record world : Type := mkWorld {
  (** [YouTube(url)] *)
  youtube : string -> result YouTube;
  (** [video.download(output_path=.., filename=..)]: [None] when it returns *)
  stream_download : Stream -> string -> string -> option exn;
  (** the answer of the [n]-th call of [os.path.exists] *)
  path_exists : nat -> string -> bool;
  (** [VideoFileClip(path)]: the duration of the opened clip, or raises *)
  video_file_clip : string -> result Q;
  (** [os.makedirs(path)] *)
  makedirs : string -> option exn;
  (** [video.subclipped(start, end)] *)
  subclipped : Q -> Q -> option exn;
  (** the [n]-th call of [write_videofile], to the given path *)
  write_videofile : nat -> string -> option exn
}.

(** A moviepy clip opened on a source file. *)
Record Clip : Type := mkClip {
  clip_filename : string;
  duration : Q
}.

(** What the program did, in order. *)
Inductive event : Type :=
| st_error (msg : string)
| st_success (msg : string)
| st_warning (msg : string)
| st_progress (value : Q)          (* [st.progress(0)]: the bar is created *)
| progress_bar_progress (value : Q) (* [progress_bar.progress(p)] *)
| time_sleep (seconds : nat)
| downloaded (output_path filename : string)
| made_dirs (path : string)
| wrote_videofile (path : string) (start_time end_time : Q)
| clip_opened (path : string)
| clip_closed (path : string).

Record state : Type := mkState {
  events : list event;        (* the trace, oldest first *)
  exists_calls : nat;         (* calls of [os.path.exists] so far *)
  write_calls : nat;          (* calls of [write_videofile] so far *)
  open_clips : list string;   (* source files held open by a clip *)
  video : option Clip         (* the local variable [video] of [trim_video] *)
}.

Definition initial_state : state := mkState [] 0 0 [] None.

Definition M (A : Type) : Type := state -> result A * state.

Definition ret {A} (a : A) : M A := fun s => (Ok a, s).

Definition bind {A B} (m : M A) (k : A -> M B) : M B :=
  fun s =>
    match m s with
    | (Ok a, s') => k a s'
    | (Raise e, s') => (Raise e, s')
    end.

Definition raise {A} (e : exn) : M A := fun s => (Raise e, s).

Declare Scope monad_scope.
Delimit Scope monad_scope with monad.
Notation "x <- m ;; k" := (bind m (fun x => k))
  (at level 61, m at next level, right associativity) : monad_scope.
Notation "m ;; k" := (bind m (fun _ => k))
  (at level 61, right associativity) : monad_scope.
Local Open Scope monad_scope.

(** [try: body except Exception as e: handler(e)] *)
Definition try_except {A} (body : M A) (handler : exn -> M A) : M A :=
  fun s =>
    match body s with
    | (Ok a, s') => (Ok a, s')
    | (Raise e, s') => handler e s'
    end.

(** [try: body finally: final]: [final] runs on both exits; the outcome of
    [body] is kept unless [final] itself raises. *)
Definition try_finally {A} (body : M A) (final : M unit) : M A :=
  fun s =>
    match body s with
    | (r, s') =>
        match final s' with
        | (Ok _, s'') => (r, s'')
        | (Raise e, s'') => (Raise e, s'')
        end
    end.

(** An outside call that returns nothing and may raise. *)
Definition lift_call (o : option exn) : M unit :=
  match o with
  | None => ret tt
  | Some e => raise e
  end.

Definition lift_result {A} (r : result A) : M A :=
  match r with
  | Ok a => ret a
  | Raise e => raise e
  end.

Definition emit (e : event) : M unit :=
  fun s => (Ok tt, mkState (events s ++ [e]) (exists_calls s) (write_calls s)
                           (open_clips s) (video s)).

(** ** Python arithmetic on durations *)

Module PyNum.

(** [a // b] on floats, in exact arithmetic. *)
Definition floordiv (a b : Q) : result Q :=
  if Qeq_bool b 0 then Raise "float floor division by zero"
  else Ok (inject_Z (Qfloor (a / b))).

(** [a % b]: the remainder has the sign of the divisor. *)
Definition mod_ (a b : Q) : result Q :=
  if Qeq_bool b 0 then Raise "float modulo by zero"
  else Ok (a - b * inject_Z (Qfloor (a / b))).

(** [int(x)]: truncation towards zero. *)
Definition int (x : Q) : Z := Z.quot (Qnum x) (Zpos (Qden x)).

(** [x > 0] *)
Definition gt0 (x : Q) : bool := negb (Qle_bool x 0).

(** [range(n)] *)
Definition range (n : Z) : list nat := seq 0 (Z.to_nat n).

(** A string is truthy when it is not empty. *)
Definition truthy (s : string) : bool :=
  match s with
  | EmptyString => false
  | String _ _ => true
  end.

End PyNum.

(** ** The segment plan of [trim_video]

    The form passes [segment_duration] as an int ([st.number_input] with an
    int [min_value] and an int [value]).  The products
    [i * segment_duration] are then products of ints, [min] compares an
    int with a double exactly, and [//] and [%] of a double by an int are
    exact for a quotient below 2^53: with a double read as the rational it
    is, the plan is computed over [Q] without rounding. *)

Module Plan.

(** [int(total_duration // segment_duration)
     + (1 if total_duration % segment_duration > 0 else 0)] *)
Definition num_segments (total_duration segment_duration : Q) : result Z :=
  match PyNum.floordiv total_duration segment_duration with
  | Raise e => Raise e
  | Ok q =>
      match PyNum.mod_ total_duration segment_duration with
      | Raise e => Raise e
      | Ok r => Ok (PyNum.int q + (if PyNum.gt0 r then 1 else 0))%Z
      end
  end.

(** [i * segment_duration] *)
Definition start_time (i : nat) (segment_duration : Q) : Q :=
  inject_Z (Z.of_nat i) * segment_duration.

(** [min((i + 1) * segment_duration, total_duration)] *)
Definition end_time (i : nat) (segment_duration total_duration : Q) : Q :=
  Qmin (inject_Z (Z.of_nat i + 1) * segment_duration) total_duration.

(** [(i + 1) / num_segments] *)
Definition progress (i : nat) (num_segments : Z) : Q :=
  inject_Z (Z.of_nat i + 1) / inject_Z num_segments.

(** The windows the loop of [trim_video] walks through, in order: one pair
    [(start_time, end_time)] per index of [range(num_segments)]; [None]
    when computing [num_segments] raises. *)
Definition windows (total_duration segment_duration : Q) : option (list (Q * Q)) :=
  match num_segments total_duration segment_duration with
  | Raise _ => None
  | Ok n =>
      Some (map (fun i => (start_time i segment_duration,
                           end_time i segment_duration total_duration))
                (PyNum.range n))
  end.

End Plan.

(** ** The segment plan for a float segment length

    [trim_video] does not check the type of [segment_duration].  For a
    float the same lines compute in binary64: the products and [min] round
    or compare doubles, and [//] and [%] are those of CPython's
    [floatobject.c].  [total_duration] and [segment_duration] are doubles
    here. *)

Module Double.

Import PrimFloat SpecFloat FloatOps.

Local Open Scope float_scope.

(** [float(n)] for an int [n]: the nearest double. *)
Definition of_int (n : Z) : float :=
  SF2Prim (binary_normalize prec emax n 0 false).

(** C's [fmod]: the remainder of the truncated division, with the sign of
    [x]; it is exact. *)
Definition fmod (x y : float) : float :=
  match Prim2SF x, Prim2SF y with
  | S754_finite sx mx ex, S754_finite _ my ey =>
      let e := Z.min ex ey in
      let X := (Z.pos mx * 2 ^ (ex - e))%Z in
      let Y := (Z.pos my * 2 ^ (ey - e))%Z in
      SF2Prim (binary_normalize prec emax (cond_Zopp sx (Z.rem X Y)) e sx)
  | S754_zero _, S754_finite _ _ _ => x
  | S754_zero _, S754_infinity _ => x
  | S754_finite _ _ _, S754_infinity _ => x
  | _, _ => nan
  end.

(** C's [floor]. *)
Definition floor (x : float) : float :=
  match Prim2SF x with
  | S754_finite s m e =>
      if (0 <=? e)%Z then x
      else
        let q := (cond_Zopp s (Z.pos m) / 2 ^ (- e))%Z in
        SF2Prim (binary_normalize prec emax q 0 s)
  | _ => x
  end.

(** [copysign(0.0, y)] *)
Definition copysign_zero (y : float) : float :=
  if get_sign y then neg_zero else zero.

(** The test [if (x)] of C on a double. *)
Definition nonzero (x : float) : bool := negb (x =? 0).

(** [vx % wx], as [float_rem] computes it. *)
Definition float_rem (vx wx : float) : result float :=
  if wx =? 0 then Raise "float modulo by zero"
  else
    let m := fmod vx wx in
    Ok (if nonzero m then
          if negb (Bool.eqb (wx <? 0) (m <? 0)) then m + wx else m
        else copysign_zero wx).

(** [vx // wx], as [float_floor_div] computes it: the quotient of
    [vx - fmod(vx, wx)] by [wx], lowered by one when the remainder changes
    sign, then snapped to the nearest integral value. *)
Definition float_floor_div (vx wx : float) : result float :=
  if wx =? 0 then Raise "float floor division by zero"
  else
    let m := fmod vx wx in
    let div := (vx - m) / wx in
    let div :=
      if nonzero m && negb (Bool.eqb (wx <? 0) (m <? 0)) then div - 1
      else div in
    Ok (if nonzero div then
          let floordiv := floor div in
          if 0.5 <? div - floordiv then floordiv + 1 else floordiv
        else copysign_zero (vx / wx)).

(** [int(x)]: truncation towards zero. *)
Definition int (x : float) : result Z :=
  match Prim2SF x with
  | S754_zero _ => Ok 0%Z
  | S754_finite s m e =>
      Ok (cond_Zopp s (if (0 <=? e)%Z then Z.pos m * 2 ^ e
                       else Z.pos m / 2 ^ (- e)))%Z
  | S754_infinity _ => Raise "cannot convert float infinity to integer"
  | S754_nan => Raise "cannot convert float NaN to integer"
  end.

(** [int(total_duration // segment_duration)
     + (1 if total_duration % segment_duration > 0 else 0)] *)
Definition num_segments (total_duration segment_duration : float)
  : result Z :=
  match float_floor_div total_duration segment_duration with
  | Raise e => Raise e
  | Ok q =>
      match int q with
      | Raise e => Raise e
      | Ok n =>
          match float_rem total_duration segment_duration with
          | Raise e => Raise e
          | Ok r => Ok (n + (if (0 <? r)%float then 1 else 0))%Z
          end
      end
  end.

(** [i * segment_duration] *)
Definition start_time (i : nat) (segment_duration : float) : float :=
  of_int (Z.of_nat i) * segment_duration.

(** [min(a, b)]: the first argument unless the second is smaller. *)
Definition min (a b : float) : float := if b <? a then b else a.

(** [min((i + 1) * segment_duration, total_duration)] *)
Definition end_time (i : nat) (segment_duration total_duration : float)
  : float :=
  min (of_int (Z.of_nat i + 1) * segment_duration) total_duration.

(** The windows the loop walks through, as [Plan.windows]. *)
Definition windows (total_duration segment_duration : float)
  : option (list (float * float)) :=
  match num_segments total_duration segment_duration with
  | Raise _ => None
  | Ok n =>
      Some (map (fun i => (start_time i segment_duration,
                           end_time i segment_duration total_duration))
                (PyNum.range n))
  end.

(** 1.1 and 0.1, as the doubles Python reads them. *)
Definition d1_1 : float := 0x1.199999999999ap+0.
Definition d0_1 : float := 0x1.999999999999ap-4.

End Double.

(** ** The pytubefix stream query

    pytubefix is an outside library.  Its [StreamQuery] is modelled as the
    library documents it: [filter] keeps the streams that match every
    criterion, [order_by] drops the streams whose attribute is [None] and
    sorts the others with Python's [sorted] (ascending, stable), [desc]
    reverses the list, and [first] is its head, or [None]. *)

Module StreamQuery.

(** [filter(progressive=True, file_extension=mp4)]: keeps the streams with
    [is_progressive] and [subtype == mp4]. *)
Definition filter_progressive_mp4 (fmt_streams : list Stream) : list Stream :=
  filter (fun s => is_progressive s && String.eqb (subtype s) "mp4") fmt_streams.

(** The key [order_by] sorts on, for a stream that has the attribute. *)
Definition key (s : Stream) : N :=
  match resolution s with
  | Some r => r
  | None => 0%N
  end.

(** Python's [sorted] is stable: insertion from the right, an element going
    in front of the elements with an equal key that followed it. *)
Fixpoint insert (x : Stream) (l : list Stream) : list Stream :=
  match l with
  | [] => [x]
  | y :: l' => if (key x <=? key y)%N then x :: l else y :: insert x l'
  end.

Definition sorted (l : list Stream) : list Stream :=
  fold_right insert [] l.

(** [order_by(resolution)]: drops the streams whose resolution is [None]
    and sorts the others by ascending resolution. *)
Definition order_by_resolution (fmt_streams : list Stream) : list Stream :=
  sorted (filter (fun s => match resolution s with
                           | Some _ => true
                           | None => false
                           end) fmt_streams).

(** [desc()]: the reversed list. *)
Definition desc (fmt_streams : list Stream) : list Stream := rev fmt_streams.

(** [first()]: the first stream, or [None]. *)
Definition first (fmt_streams : list Stream) : option Stream :=
  hd_error fmt_streams.

(** The whole query of [download_youtube_video]. *)
Definition select_stream (fmt_streams : list Stream) : option Stream :=
  first (desc (order_by_resolution (filter_progressive_mp4 fmt_streams))).

End StreamQuery.

(** ** The program *)

Section Program.

Variable w : world.

(** *** Primitive effects *)

Definition os_path_exists (path : string) : M bool :=
  fun s => (Ok (path_exists w (exists_calls s) path),
            mkState (events s) (S (exists_calls s)) (write_calls s)
                    (open_clips s) (video s)).

Definition os_makedirs (path : string) : M unit :=
  lift_call (makedirs w path) ;; emit (made_dirs path).

Definition set_video (v : option Clip) : M unit :=
  fun s => (Ok tt, mkState (events s) (exists_calls s) (write_calls s)
                           (open_clips s) v).

Definition get_video : M (option Clip) := fun s => (Ok (video s), s).

(** [VideoFileClip(path)]: on success the source file is held open. *)
Definition VideoFileClip (path : string) : M Clip :=
  d <- lift_result (video_file_clip w path) ;;
  fun s => (Ok (mkClip path d),
            mkState (events s ++ [clip_opened path]) (exists_calls s)
                    (write_calls s) (path :: open_clips s) (video s)).

(** Removes the first occurrence of [path]. *)
Fixpoint release (path : string) (l : list string) : list string :=
  match l with
  | [] => []
  | p :: l' => if String.eqb p path then l' else p :: release path l'
  end.

(** [clip.close()] *)
Definition close (c : Clip) : M unit :=
  fun s => (Ok tt,
            mkState (events s ++ [clip_closed (clip_filename c)])
                    (exists_calls s) (write_calls s)
                    (release (clip_filename c) (open_clips s)) (video s)).

(** [segment.write_videofile(output_path, ...)] *)
Definition write (output_path : string) (start_time end_time : Q) : M unit :=
  fun s =>
    match write_videofile w (write_calls s) output_path with
    | None =>
        (Ok tt,
         mkState (events s ++ [wrote_videofile output_path start_time end_time])
                 (exists_calls s) (S (write_calls s)) (open_clips s) (video s))
    | Some e =>
        (Raise e,
         mkState (events s) (exists_calls s) (S (write_calls s))
                 (open_clips s) (video s))
    end.

(** *** [download_youtube_video] *)

(** The loop [while not os.path.exists(output_path) and attempts <
    max_attempts]: [budget] is [max_attempts - attempts]; returns the final
    value of [attempts]. *)
Fixpoint wait_for_file (output_path : string) (budget attempts : nat) : M nat :=
  found <- os_path_exists output_path ;;
  if negb found then
    match budget with
    | O => ret attempts
    | S budget' =>
        emit (time_sleep 1) ;;
        wait_for_file output_path budget' (attempts + 1)
    end
  else ret attempts.

Definition max_attempts : nat := 10.

Definition download_youtube_video (url : string)
  : M (option string * option string) :=
  try_except
    (yt <- lift_result (youtube w url) ;;
     fmt_streams <- lift_result (streams yt) ;;
     match StreamQuery.select_stream fmt_streams with
     | None =>
         emit (st_error "No suitable video stream found") ;;
         ret (None, None)
     | Some stream =>
         yt_title <- lift_result (title yt) ;;
         let filename := sanitize_filename yt_title in
         lift_call (stream_download w stream "youtube_videos"
                                    (filename ++ ".mp4")) ;;
         emit (downloaded "youtube_videos" (filename ++ ".mp4")) ;;
         let output_path :=
           os_path_join "youtube_videos" (filename ++ ".mp4") in
         _ <- wait_for_file output_path max_attempts 0 ;;
         found <- os_path_exists output_path ;;
         if negb found then
           emit (st_error "Download failed - file not created") ;;
           ret (None, None)
         else ret (Some output_path, Some filename)
     end)
    (fun e =>
       emit (st_error ("Error downloading video: " ++ e)) ;;
       ret (None, None)).

(** *** [trim_video] *)

Section Loop.

Variables (output_dir : string) (segment_duration total_duration : Q)
          (num_segments : Z).

(** The body of [for i in range(num_segments)], over the indices left. *)
Fixpoint segment_loop (indices : list nat) (trimmed_paths : list string)
  : M (list string) :=
  match indices with
  | [] => ret trimmed_paths
  | i :: rest =>
      let start_time := Plan.start_time i segment_duration in
      let end_time := Plan.end_time i segment_duration total_duration in
      lift_call (subclipped w start_time end_time) ;;
      let output_path :=
        os_path_join output_dir ("part_" ++ str_of_nat (i + 1) ++ ".mp4") in
      write output_path start_time end_time ;;
      let trimmed_paths := (trimmed_paths ++ [output_path])%list in
      emit (progress_bar_progress (Plan.progress i num_segments)) ;;
      segment_loop rest trimmed_paths
  end.

End Loop.

Definition trim_video (video_path filename : string) (segment_duration : Q)
  : M (list string) :=
  found <- os_path_exists video_path ;;
  if negb found then
    emit (st_error ("Video file not found: " ++ video_path)) ;;
    ret []
  else
    set_video None ;;
    try_finally
      (try_except
         (clip <- VideoFileClip video_path ;;
          set_video (Some clip) ;;
          let total_duration := duration clip in
          num_segments <-
            lift_result (Plan.num_segments total_duration segment_duration) ;;
          let output_dir :=
            os_path_join "trimmed_videos" (sanitize_filename filename) in
          dir_found <- os_path_exists output_dir ;;
          (if negb dir_found then os_makedirs output_dir else ret tt) ;;
          emit (st_progress 0) ;;
          segment_loop output_dir segment_duration total_duration
                       num_segments (PyNum.range num_segments) [])
         (fun e =>
            emit (st_error ("Error trimming video: " ++ e)) ;;
            ret []))
      (v <- get_video ;;
       match v with
       | Some clip => close clip
       | None => ret tt
       end).

(** *** The flow behind the Process Video button

    Download, then trim when both components of the pair are truthy, then
    the success message when the list is not empty.  The gallery that
    follows only displays the returned paths; the flow returns them. *)
Definition process_video (youtube_url : string) (segment_duration : Q)
  : M (list string) :=
  if PyNum.truthy youtube_url then
    r <- download_youtube_video youtube_url ;;
    match r with
    | (Some video_path, Some video_filename) =>
        if PyNum.truthy video_path && PyNum.truthy video_filename then
          emit (st_success "Video downloaded successfully!") ;;
          trimmed_paths <-
            trim_video video_path video_filename segment_duration ;;
          match trimmed_paths with
          | [] => ret []
          | _ :: _ =>
              emit (st_success ("Video trimmed successfully into "
                                  ++ str_of_nat (List.length trimmed_paths)
                                  ++ " segments!")) ;;
              ret trimmed_paths
          end
        else ret []
    | _ => ret []
    end
  else
    emit (st_warning "Please enter a YouTube video URL") ;;
    ret [].

End Program.

Local Close Scope Q_scope.
Local Open Scope list_scope.

(** * Vocabulary of the properties *)

(** ** Reading a trace *)

(** The [time.sleep] calls of a trace, and the other kinds of event the
    properties single out. *)
Definition is_sleep (e : event) : bool :=
  match e with
  | time_sleep _ => true
  | _ => false
  end.

Definition sleeps (tr : list event) : list event := filter is_sleep tr.

Definition is_write (e : event) : bool :=
  match e with
  | wrote_videofile _ _ _ => true
  | _ => false
  end.

Definition is_error (e : event) : bool :=
  match e with
  | st_error _ => true
  | _ => false
  end.

Definition is_success (e : event) : bool :=
  match e with
  | st_success _ => true
  | _ => false
  end.

Definition is_clip_event (e : event) : bool :=
  match e with
  | clip_opened _ | clip_closed _ => true
  | _ => false
  end.

(** The values passed to [progress_bar.progress], in order. *)
Fixpoint progress_values (tr : list event) : list Q :=
  match tr with
  | [] => []
  | progress_bar_progress p :: tr' => p :: progress_values tr'
  | _ :: tr' => progress_values tr'
  end.

(** The windows handed to [write_videofile], in order. *)
Fixpoint written_windows (tr : list event) : list (Q * Q) :=
  match tr with
  | [] => []
  | wrote_videofile _ a b :: tr' => (a, b) :: written_windows tr'
  | _ :: tr' => written_windows tr'
  end.

(** ** The runs of [download_youtube_video] *)

(** The state after [n] more existence checks and the events [evs]. *)
Definition touched (s : state) (n : nat) (evs : list event) : state :=
  mkState (events s ++ evs) (exists_calls s + n) (write_calls s)
          (open_clips s) (video s).

Definition download_name (ttl : string) : string :=
  (sanitize_filename ttl ++ ".mp4")%string.

Definition download_path (ttl : string) : string :=
  os_path_join "youtube_videos" (download_name ttl).

(** The places where the body of the [try] raises. *)
Inductive download_raises (w : world) (url : string) : exn -> Prop :=
| raises_lookup e :
    youtube w url = Raise e -> download_raises w url e
| raises_streams yt e :
    youtube w url = Ok yt -> streams yt = Raise e -> download_raises w url e
| raises_title yt l v e :
    youtube w url = Ok yt -> streams yt = Ok l ->
    StreamQuery.select_stream l = Some v ->
    title yt = Raise e -> download_raises w url e
| raises_transfer yt l v ttl e :
    youtube w url = Ok yt -> streams yt = Ok l ->
    StreamQuery.select_stream l = Some v ->
    title yt = Ok ttl ->
    stream_download w v "youtube_videos" (download_name ttl) = Some e ->
    download_raises w url e.

(** A stream was selected, the title read and the transfer call returned. *)
Inductive transfer_returns (w : world) (url : string) : string -> Prop :=
| transfer_ok yt l v ttl :
    youtube w url = Ok yt -> streams yt = Ok l ->
    StreamQuery.select_stream l = Some v ->
    title yt = Ok ttl ->
    stream_download w v "youtube_videos" (download_name ttl) = None ->
    transfer_returns w url ttl.

(** The loop of the run slept [k] times: [k] negative answers, then a
    positive one unless the budget was spent. *)
Definition polled (w : world) (s : state) (path : string) (k : nat) : Prop :=
  k <= max_attempts /\
  (forall j, j < k -> path_exists w (exists_calls s + j) path = false) /\
  (k < max_attempts -> path_exists w (exists_calls s + k) path = true).

Inductive download_outcome (w : world) (url : string) (s : state)
  : result (option string * option string) * state -> Prop :=
| outcome_exception e :
    download_raises w url e ->
    download_outcome w url s
      (Ok (None, None),
       touched s 0 [st_error ("Error downloading video: " ++ e)])
| outcome_no_stream yt l :
    youtube w url = Ok yt -> streams yt = Ok l ->
    StreamQuery.select_stream l = None ->
    download_outcome w url s
      (Ok (None, None),
       touched s 0 [st_error "No suitable video stream found"])
| outcome_incomplete ttl k :
    transfer_returns w url ttl ->
    polled w s (download_path ttl) k ->
    path_exists w (exists_calls s + k + 1) (download_path ttl) = false ->
    download_outcome w url s
      (Ok (None, None),
       touched s (k + 2)
         (downloaded "youtube_videos" (download_name ttl)
            :: repeat (time_sleep 1) k
            ++ [st_error "Download failed - file not created"]))
| outcome_success ttl k :
    transfer_returns w url ttl ->
    polled w s (download_path ttl) k ->
    path_exists w (exists_calls s + k + 1) (download_path ttl) = true ->
    download_outcome w url s
      (Ok (Some (download_path ttl), Some (sanitize_filename ttl)),
       touched s (k + 2)
         (downloaded "youtube_videos" (download_name ttl)
            :: repeat (time_sleep 1) k)).

(** ** The runs of [trim_video] *)

(** The output path of segment [i] (counted from 0). *)
Definition segment_path (output_dir : string) (i : nat) : string :=
  os_path_join output_dir ("part_" ++ str_of_nat (i + 1) ++ ".mp4")%string.

Definition output_dir_of (filename : string) : string :=
  os_path_join "trimmed_videos" (sanitize_filename filename).

Section LoopSteps.

Variable w : world.
Variables (output_dir : string) (segment_duration total_duration : Q)
          (num_segments : Z).

(** What a completed iteration [i] adds to the trace. *)
Definition segment_events (i : nat) : list event :=
  [wrote_videofile (segment_path output_dir i)
                   (Plan.start_time i segment_duration)
                   (Plan.end_time i segment_duration total_duration);
   progress_bar_progress (Plan.progress i num_segments)].

(** The transcode step of iteration [i], when [c] calls of
    [write_videofile] preceded the loop: cutting the window, then writing
    it; [Some e] when one of the two raises [e]. *)
Definition transcode (c i : nat) : option exn :=
  match subclipped w (Plan.start_time i segment_duration)
                   (Plan.end_time i segment_duration total_duration) with
  | Some e => Some e
  | None => write_videofile w (c + i) (segment_path output_dir i)
  end.

End LoopSteps.

(** The directory check of [trim_video], made after one earlier existence
    check: the directory is there, or it is created. *)
Definition dir_prepared (w : world) (s : state) (output_dir : string)
  (evs : list event) : Prop :=
  (path_exists w (S (exists_calls s)) output_dir = true /\ evs = []) \/
  (path_exists w (S (exists_calls s)) output_dir = false /\
   makedirs w output_dir = None /\ evs = [made_dirs output_dir]).

Definition trim_error (e : exn) : event :=
  st_error ("Error trimming video: " ++ e).

Inductive trim_outcome (w : world) (video_path filename : string)
  (segment_duration : Q) (s : state)
  : result (list string) * state -> Prop :=
| trim_not_found s' :
    path_exists w (exists_calls s) video_path = false ->
    events s' = events s ++ [st_error ("Video file not found: " ++ video_path)] ->
    open_clips s' = open_clips s ->
    write_calls s' = write_calls s ->
    trim_outcome w video_path filename segment_duration s (Ok [], s')
| trim_open_raises e s' :
    path_exists w (exists_calls s) video_path = true ->
    video_file_clip w video_path = Raise e ->
    events s' = events s ++ [trim_error e] ->
    open_clips s' = open_clips s ->
    write_calls s' = write_calls s ->
    trim_outcome w video_path filename segment_duration s (Ok [], s')
| trim_plan_raises td e s' :
    path_exists w (exists_calls s) video_path = true ->
    video_file_clip w video_path = Ok td ->
    Plan.num_segments td segment_duration = Raise e ->
    events s' = events s ++ [clip_opened video_path; trim_error e;
                             clip_closed video_path] ->
    open_clips s' = open_clips s ->
    write_calls s' = write_calls s ->
    trim_outcome w video_path filename segment_duration s (Ok [], s')
| trim_makedirs_raises td n e s' :
    path_exists w (exists_calls s) video_path = true ->
    video_file_clip w video_path = Ok td ->
    Plan.num_segments td segment_duration = Ok n ->
    path_exists w (S (exists_calls s)) (output_dir_of filename) = false ->
    makedirs w (output_dir_of filename) = Some e ->
    events s' = events s ++ [clip_opened video_path; trim_error e;
                             clip_closed video_path] ->
    open_clips s' = open_clips s ->
    write_calls s' = write_calls s ->
    trim_outcome w video_path filename segment_duration s (Ok [], s')
| trim_segment_raises td n dir_evs k e s' :
    path_exists w (exists_calls s) video_path = true ->
    video_file_clip w video_path = Ok td ->
    Plan.num_segments td segment_duration = Ok n ->
    dir_prepared w s (output_dir_of filename) dir_evs ->
    k < Z.to_nat n ->
    (forall i, i < k ->
       transcode w (output_dir_of filename) segment_duration td
                 (write_calls s) i = None) ->
    transcode w (output_dir_of filename) segment_duration td
              (write_calls s) k = Some e ->
    events s' = events s ++ clip_opened video_path :: dir_evs
                  ++ st_progress 0%Q
                  :: flat_map (segment_events (output_dir_of filename)
                                 segment_duration td n) (seq 0 k)
                  ++ [trim_error e; clip_closed video_path] ->
    open_clips s' = open_clips s ->
    write_calls s + k <= write_calls s' <= write_calls s + k + 1 ->
    trim_outcome w video_path filename segment_duration s (Ok [], s')
| trim_done td n dir_evs s' :
    path_exists w (exists_calls s) video_path = true ->
    video_file_clip w video_path = Ok td ->
    Plan.num_segments td segment_duration = Ok n ->
    dir_prepared w s (output_dir_of filename) dir_evs ->
    (forall i, i < Z.to_nat n ->
       transcode w (output_dir_of filename) segment_duration td
                 (write_calls s) i = None) ->
    events s' = events s ++ clip_opened video_path :: dir_evs
                  ++ st_progress 0%Q
                  :: flat_map (segment_events (output_dir_of filename)
                                 segment_duration td n) (seq 0 (Z.to_nat n))
                  ++ [clip_closed video_path] ->
    open_clips s' = open_clips s ->
    write_calls s' = write_calls s + Z.to_nat n ->
    trim_outcome w video_path filename segment_duration s
      (Ok (map (segment_path (output_dir_of filename)) (seq 0 (Z.to_nat n))),
       s').

(** The clip on the source file gets opened: the file is found and
    [VideoFileClip] returns. *)
Definition handle_opened (w : world) (s : state) (video_path : string) : Prop :=
  path_exists w (exists_calls s) video_path = true /\
  exists td, video_file_clip w video_path = Ok td.

(** The run gets as far as the loop: the source file is found, the clip
    opens with duration [td], the segment count is [n] and the output
    directory is there or gets created. *)
Definition reaches_loop (w : world) (video_path filename : string)
  (segment_duration : Q) (s : state) (td : Q) (n : Z) : Prop :=
  path_exists w (exists_calls s) video_path = true /\
  video_file_clip w video_path = Ok td /\
  Plan.num_segments td segment_duration = Ok n /\
  exists dir_evs, dir_prepared w s (output_dir_of filename) dir_evs.

(** Nothing fails in the run: the source file is found, the clip opens
    with duration [td], the output directory is there or gets created, and
    every transcode step of the plan returns. *)
Definition nothing_fails (w : world) (video_path filename : string)
  (segment_duration : Q) (s : state) (td : Q) : Prop :=
  path_exists w (exists_calls s) video_path = true /\
  video_file_clip w video_path = Ok td /\
  (exists dir_evs, dir_prepared w s (output_dir_of filename) dir_evs) /\
  forall n i,
    Plan.num_segments td segment_duration = Ok n -> i < Z.to_nat n ->
    transcode w (output_dir_of filename) segment_duration td
              (write_calls s) i = None.

(** The transcode step raises [e] on segment [k] (counted from 1) and not
    on an earlier one. *)
Definition fails_on_segment (w : world) (filename : string)
  (segment_duration td : Q) (s : state) (k : nat) (e : exn) : Prop :=
  (forall i, i < k - 1 ->
     transcode w (output_dir_of filename) segment_duration td
               (write_calls s) i = None) /\
  transcode w (output_dir_of filename) segment_duration td
            (write_calls s) (k - 1) = Some e.

(** The claim of partial-failure containment as the specification words
    it: a failure on segment [k] returns [k - 1] paths. *)
Definition returns_artifacts_before_failure : Prop :=
  forall w video_path filename segment_duration s td n k e,
    reaches_loop w video_path filename segment_duration s td n ->
    1 <= k <= Z.to_nat n ->
    fails_on_segment w filename segment_duration td s k e ->
    exists paths s',
      trim_video w video_path filename segment_duration s = (Ok paths, s') /\
      List.length paths = k - 1.

(** A world in which the source lasts 150 seconds and the second call of
    [write_videofile] raises. *)
Definition world_disk_fills : world :=
  mkWorld (fun _ => Raise "unused")
          (fun _ _ _ => None)
          (fun _ _ => true)
          (fun _ => Ok 150%Q)
          (fun _ => None)
          (fun _ _ => None)
          (fun n _ => if Nat.eqb n 1 then Some "No space left on device" else None).

(** A world in which everything succeeds, for a source of 150 seconds. *)
Definition world_fine : world :=
  mkWorld (fun _ => Ok (mkYouTube (Ok [mkStream 18 true "mp4" (Some 360%N);
                                        mkStream 22 true "mp4" (Some 720%N)])
                                  (Ok "My: Video?")))
          (fun _ _ _ => None)
          (fun _ _ => true)
          (fun _ => Ok 150%Q)
          (fun _ => None)
          (fun _ _ => None)
          (fun _ _ => None).

(** The claim as the specification words it: a segment length that is not
    positive makes [trim_video] report an error. *)
Definition rejects_nonpositive_length : Prop :=
  forall w video_path filename segment_duration s,
    (segment_duration <= 0)%Q ->
    exists msg,
      In (st_error msg)
         (events (snd (trim_video w video_path filename segment_duration s))).

(** The claim on the last window as the specification words it, for
    every positive length, so also for a float: the last window computed
    for a positive duration has a positive length. *)
Definition last_window_not_empty : Prop :=
  forall (total_duration segment_duration : PrimFloat.float) ws a b,
    PrimFloat.ltb PrimFloat.zero total_duration = true ->
    PrimFloat.ltb PrimFloat.zero segment_duration = true ->
    Double.windows total_duration segment_duration = Some ws ->
    nth_error ws (List.length ws - 1) = Some (a, b) ->
    PrimFloat.ltb a b = true.

(** The values the loop reports over [range(n)]. *)
Definition reported (n : Z) : list Q :=
  map (fun i => Plan.progress i n) (seq 0 (Z.to_nat n)).

(** ** Stream selection *)

Module Selection.

Import StreamQuery.

(** The candidates: progressive, mp4, with a resolution. *)
Definition candidates (l : list Stream) : list Stream :=
  filter (fun s => match resolution s with
                   | Some _ => true
                   | None => false
                   end) (filter_progressive_mp4 l).

Fixpoint last_stream (l : list Stream) : option Stream :=
  match l with
  | [] => None
  | [x] => Some x
  | _ :: l' => last_stream l'
  end.

(** The stream of highest key, the later one on a tie. *)
Definition best_of (l : list Stream) : option Stream :=
  fold_right (fun x acc =>
                match acc with
                | None => Some x
                | Some b => if (key b <? key x)%N then Some x else Some b
                end) None l.

Definition ascending (l : list Stream) : Prop :=
  StronglySorted (fun a b => (key a <= key b)%N) l.

(** The selection of the claim: the earliest of the candidates of highest
    resolution. *)
Definition first_match_wins : Prop :=
  forall l v,
    select_stream l = Some v ->
    exists before after,
      candidates l = before ++ v :: after /\
      Forall (fun x => (key x < key v)%N) before /\
      Forall (fun x => (key x <= key v)%N) after.

Definition stream_720_a : Stream := mkStream 22 true "mp4" (Some 720%N).
Definition stream_720_b : Stream := mkStream 95 true "mp4" (Some 720%N).

End Selection.

(** ** Example worlds *)

(** A world whose transfer returns but whose file never shows up. *)
Definition world_never_flushed : world :=
  mkWorld (youtube world_fine)
          (fun _ _ _ => None)
          (fun _ _ => false)
          (fun _ => Ok 150%Q)
          (fun _ => None)
          (fun _ _ => None)
          (fun _ _ => None).

(** A world whose video only has streams that are not progressive or
    not mp4. *)
Definition world_adaptive_only : world :=
  mkWorld (fun _ => Ok (mkYouTube (Ok [mkStream 137 false "mp4" (Some 1080%N);
                                        mkStream 43 true "webm" (Some 360%N)])
                                  (Ok "Clip")))
          (fun _ _ _ => None)
          (fun _ _ => true)
          (fun _ => Ok 150%Q)
          (fun _ => None)
          (fun _ _ => None)
          (fun _ _ => None).

(** A world whose video has a title made of characters of the class. *)
Definition world_forbidden_title : world :=
  mkWorld (fun _ => Ok (mkYouTube (Ok [mkStream 18 true "mp4" (Some 360%N)])
                                  (Ok "?*|<>")))
          (fun _ _ _ => None)
          (fun _ _ => true)
          (fun _ => Ok 150%Q)
          (fun _ => None)
          (fun _ _ => None)
          (fun _ _ => None).


(** * The rest of [app.py] *)

(** ** Further readings of a trace *)

(** The paths handed to [write_videofile], in order. *)
Fixpoint written_paths (tr : list event) : list string :=
  match tr with
  | [] => []
  | wrote_videofile p _ _ :: tr' => p :: written_paths tr'
  | _ :: tr' => written_paths tr'
  end.

Definition is_downloaded (e : event) : bool :=
  match e with
  | downloaded _ _ => true
  | _ => false
  end.

(** The sum of the lengths of a list of windows. *)
Definition total_length (ws : list (Q * Q)) : Q :=
  fold_right (fun w acc => (snd w - fst w + acc)%Q) 0%Q ws.

(** A world whose download shows up at the check of index [first_seen] and
    stays. *)
Definition world_late_flush (first_seen : nat) : world :=
  mkWorld (youtube world_fine)
          (fun _ _ _ => None)
          (fun n _ => Nat.leb first_seen n)
          (fun _ => Ok 150%Q)
          (fun _ => None)
          (fun _ _ => None)
          (fun _ _ => None).

(** A world whose source has no duration. *)
Definition world_empty_clip : world :=
  mkWorld (youtube world_fine)
          (fun _ _ _ => None)
          (fun _ _ => true)
          (fun _ => Ok 0%Q)
          (fun _ => None)
          (fun _ _ => None)
          (fun _ _ => None).

(** ** Paths *)

Module Posix.

(** [p.rfind(c)]: the index of the last occurrence of [c], or -1. *)
Fixpoint rfind (p : string) (c : ascii) : Z :=
  match p with
  | EmptyString => (-1)%Z
  | String d rest =>
      let i := rfind rest c in
      if (0 <=? i)%Z then (i + 1)%Z
      else if Ascii.eqb d c then 0%Z else (-1)%Z
  end.

(** [p[i:]] for an index that is not negative. *)
Fixpoint slice_from (i : nat) (p : string) : string :=
  match i, p with
  | O, _ => p
  | S i', String _ rest => slice_from i' rest
  | S _, EmptyString => EmptyString
  end.

(** [os.path.basename(p)] of [posixpath]:
    [i = p.rfind(sep) + 1; return p[i:]]. *)
Definition os_path_basename (p : string) : string :=
  slice_from (Z.to_nat (rfind p "/" + 1)) p.

End Posix.

(** ** Base64

    [base64.b64encode] is a function of Python's library; it is modelled
    as the standard encoding it implements: three bytes give four digits
    of the alphabet, and a last group of one or two bytes is padded with
    the equals sign. *)

Module Base64.

Definition alphabet : list ascii :=
  list_ascii_of_string
    "ABCDEFGHIJKLMNOPQRSTUVWXYZabcdefghijklmnopqrstuvwxyz0123456789+/".

Definition pad : ascii := "="%char.

Definition digit (n : N) : ascii := nth (N.to_nat n) alphabet pad.

(** [base64.b64encode(data).decode()] *)
Fixpoint b64encode (data : list Byte.byte) : string :=
  match data with
  | [] => EmptyString
  | [b0] =>
      let n0 := Byte.to_N b0 in
      String (digit (n0 / 4))
        (String (digit (n0 mod 4 * 16))
           (String pad (String pad EmptyString)))
  | [b0; b1] =>
      let n0 := Byte.to_N b0 in
      let n1 := Byte.to_N b1 in
      String (digit (n0 / 4))
        (String (digit (n0 mod 4 * 16 + n1 / 16))
           (String (digit (n1 mod 16 * 4))
              (String pad EmptyString)))
  | b0 :: b1 :: b2 :: rest =>
      let n0 := Byte.to_N b0 in
      let n1 := Byte.to_N b1 in
      let n2 := Byte.to_N b2 in
      String (digit (n0 / 4))
        (String (digit (n0 mod 4 * 16 + n1 / 16))
           (String (digit (n1 mod 16 * 4 + n2 / 64))
              (String (digit (n2 mod 64)) (b64encode rest))))
  end%N.

(** The characters an encoding is made of. *)
Definition is_b64_char (c : ascii) : bool :=
  existsb (Ascii.eqb c) (pad :: alphabet).

(** The value of a digit of the alphabet. *)
Fixpoint index_of (c : ascii) (l : list ascii) : option N :=
  match l with
  | [] => None
  | d :: l' =>
      if Ascii.eqb c d then Some 0%N
      else option_map N.succ (index_of c l')
  end.

Definition value (c : ascii) : option N := index_of c alphabet.

(** The decoding that reads the encoding back, used to state that the
    encoding loses nothing; it is not part of the program. *)
Fixpoint b64decode (s : string) : option (list Byte.byte) :=
  match s with
  | EmptyString => Some []
  | String c0 (String c1 (String c2 (String c3 rest))) =>
      match value c0, value c1 with
      | Some v0, Some v1 =>
          match value c2 with
          | None =>
              if (Ascii.eqb c2 pad && Ascii.eqb c3 pad
                  && String.eqb rest EmptyString)%bool
              then option_map (fun b0 => [b0]) (Byte.of_N (v0 * 4 + v1 / 16))
              else None
          | Some v2 =>
              match value c3 with
              | None =>
                  if (Ascii.eqb c3 pad && String.eqb rest EmptyString)%bool
                  then
                    match Byte.of_N (v0 * 4 + v1 / 16),
                          Byte.of_N (v1 mod 16 * 16 + v2 / 4) with
                    | Some b0, Some b1 => Some [b0; b1]
                    | _, _ => None
                    end
                  else None
              | Some v3 =>
                  match Byte.of_N (v0 * 4 + v1 / 16),
                        Byte.of_N (v1 mod 16 * 16 + v2 / 4),
                        Byte.of_N (v2 mod 4 * 64 + v3),
                        b64decode rest with
                  | Some b0, Some b1, Some b2, Some tl =>
                      Some (b0 :: b1 :: b2 :: tl)
                  | _, _, _, _ => None
                  end
              end
          end
      | _, _ => None
      end
  | _ => None
  end%N.

End Base64.

(** ** The download link *)

Module Html.

(** A double quote, as a string. *)
Definition quote : string := String dquote EmptyString.

(** How often the character [c] occurs in [s]. *)
Fixpoint occurrences (c : ascii) (s : string) : nat :=
  match s with
  | EmptyString => 0
  | String d rest =>
      (if Ascii.eqb d c then 1 else 0) + occurrences c rest
  end.

(** The f-string of [get_binary_file_downloader_html]. *)
Definition anchor (b64 download_filename file_label : string) : string :=
  ("<a href=" ++ quote ++ "data:video/mp4;base64," ++ b64 ++ quote
     ++ " download=" ++ quote ++ download_filename ++ quote
     ++ "><button style=" ++ quote
     ++ "padding: 5px 10px; background-color: #4CAF50; color: white; border: none; border-radius: 4px; cursor: pointer;"
     ++ quote ++ ">Download " ++ file_label ++ "</button></a>")%string.

(** [get_binary_file_downloader_html]: [open_rb] answers
    [open(file_path, rb).read()], which may raise; nothing catches it. *)
Definition get_binary_file_downloader_html
  (open_rb : string -> result (list Byte.byte))
  (file_path file_label : string) : result string :=
  match open_rb file_path with
  | Raise e => Raise e
  | Ok data =>
      let b64 := Base64.b64encode data in
      let download_filename := Posix.os_path_basename file_path in
      Ok (anchor b64 download_filename file_label)
  end.

End Html.

(** ** The gallery *)

Module Gallery.

(** What the gallery puts on the page; [column] is the column of the row
    the widget goes to. *)
Inductive widget : Type :=
| st_header (text : string)
| st_write (text : string)
| st_columns (count : nat)
| st_video (column : nat) (path : string)
| st_markdown (column : nat) (html : string)
| col_write (column : nat) (text : string).

(** A computation that puts widgets on the page and may raise: the
    widgets put so far, and the outcome. *)
Definition W (A : Type) : Type := list widget * result A.

Definition wret {A} (a : A) : W A := ([], Ok a).

Definition wbind {A B} (m : W A) (k : A -> W B) : W B :=
  match m with
  | (ws, Ok a) => let (ws', r) := k a in (ws ++ ws', r)
  | (ws, Raise e) => (ws, Raise e)
  end.

Definition put (x : widget) : W unit := ([x], Ok tt).

Definition wlift {A} (r : result A) : W A := ([], r).

Fixpoint for_each {A} (l : list A) (body : A -> W unit) : W unit :=
  match l with
  | [] => wret tt
  | x :: l' => wbind (body x) (fun _ => for_each l' body)
  end.

(** [range(0, stop, step)] for a positive [step]: the multiples of [step]
    below [stop]. *)
Definition range_step (stop step : nat) : list nat :=
  map (fun r => r * step) (seq 0 ((stop + step - 1) / step)).

(** [str(n)] for an int. *)
Definition str_of_Z (n : Z) : string := NilZero.string_of_int (Z.to_int n).

(** [trimmed_paths[k]] *)
Definition item (trimmed_paths : list string) (k : nat) : W string :=
  match nth_error trimmed_paths k with
  | Some p => wret p
  | None => wlift (Raise "list index out of range")
  end.

Definition cols_per_row : nat := 2.

(** The message of the [MediaFileStorageError] of Streamlit. *)
Definition media_file_storage_error (filename : string) : exn :=
  ("Error opening '" ++ filename ++ "'")%string.

Section Rows.

Variable open_rb : string -> result (list Byte.byte).
Variable trimmed_paths : list string.
Variable segment_duration : Z.

(** [st.video(video_path)] for a path on disk.  Streamlit is an outside
    library: it reads the file at the call, to hand its bytes to the
    browser, and raises its [MediaFileStorageError] when the file cannot
    be opened; the player is put on the page when the read succeeds.  The
    file is asked through [open_rb], as the read of
    [get_binary_file_downloader_html] is: whether it can be read does not
    change while the page is drawn. *)
Definition st_video_call (j : nat) (video_path : string) : W unit :=
  match open_rb video_path with
  | Ok _ => put (st_video j video_path)
  | Raise _ => wlift (Raise (media_file_storage_error video_path))
  end.

(** The body of [for j, col in enumerate(cols)], in row [i]: the segment
    of index [i + j], when there is one, goes to column [j]. *)
Definition gallery_cell (i j : nat) : W unit :=
  if Nat.ltb (i + j) (List.length trimmed_paths) then
    wbind (item trimmed_paths (i + j)) (fun video_path =>
    wbind (st_video_call j video_path) (fun _ =>
    wbind (wlift (Html.get_binary_file_downloader_html open_rb video_path
                    ("Part " ++ str_of_nat (i + j + 1))%string))
          (fun html =>
    wbind (put (st_markdown j html)) (fun _ =>
    put (col_write j ("Duration: " ++ str_of_Z segment_duration
                        ++ " seconds")%string)))))
  else wret tt.

(** The body of [for i in range(0, len(trimmed_paths), cols_per_row)]. *)
Definition gallery_row (i : nat) : W unit :=
  wbind (put (st_columns cols_per_row)) (fun _ =>
  for_each (seq 0 cols_per_row) (gallery_cell i)).

(** The gallery of the flow: the header, the hint, then one row of
    [cols_per_row] columns per step of the outer loop. *)
Definition video_gallery : W unit :=
  wbind (put (st_header "Video Gallery")) (fun _ =>
  wbind (put (st_write
    "Click on any video to play, or use the download button to save it."))
    (fun _ =>
  for_each (range_step (List.length trimmed_paths) cols_per_row)
           gallery_row)).

End Rows.

(** The videos and the links of a page, in order. *)
Fixpoint videos_of (ws : list widget) : list (nat * string) :=
  match ws with
  | [] => []
  | st_video j p :: ws' => (j, p) :: videos_of ws'
  | _ :: ws' => videos_of ws'
  end.

Fixpoint links_of (ws : list widget) : list (nat * string) :=
  match ws with
  | [] => []
  | st_markdown j h :: ws' => (j, h) :: links_of ws'
  | _ :: ws' => links_of ws'
  end.

Fixpoint captions_of (ws : list widget) : list string :=
  match ws with
  | [] => []
  | col_write _ t :: ws' => t :: captions_of ws'
  | _ :: ws' => captions_of ws'
  end.

Definition is_columns (x : widget) : bool :=
  match x with
  | st_columns _ => true
  | _ => false
  end.

End Gallery.

(** * Properties *)

(** ** Evaluations *)

Example sanitize_my_video :
  sanitize_filename "My: Video?" = "My Video".
Proof. reflexivity. Qed.

Example join_example :
  os_path_join "youtube_videos" "a.mp4" = "youtube_videos/a.mp4".
Proof. reflexivity. Qed.

Example str_of_nat_12 : str_of_nat 12 = "12".
Proof. reflexivity. Qed.

Example windows_150_60 :
  Plan.windows 150 60 = Some [(0, 60); (60, 120); (120, 150)]%Q.
Proof. reflexivity. Qed.

Example windows_60_60 : Plan.windows 60 60 = Some [(0, 60)]%Q.
Proof. reflexivity. Qed.

Example num_segments_negative :
  Plan.num_segments 150 (-60) = Ok (-3)%Z.
Proof. reflexivity. Qed.


(** ** [sanitize_filename] *)

Section Sanitize.

Lemma is_forbidden_In (c : ascii) :
  is_forbidden c = true <-> In c forbidden_chars.
Proof.
  unfold is_forbidden. rewrite existsb_exists. split.
  - intros [d [Hin Heq]]. apply Ascii.eqb_eq in Heq. now subst.
  - intros Hin. exists c. split; [assumption | apply Ascii.eqb_refl].
Qed.

Lemma sanitize_chars (s : string) :
  chars (sanitize_filename s) =
  filter (fun c => negb (is_forbidden c)) (chars s).
Proof.
  induction s as [|c s IH]; simpl; [reflexivity|].
  destruct (is_forbidden c); simpl; [assumption|].
  now rewrite <- IH.
Qed.

Lemma sanitize_clean (s : string) :
  forallb (fun c => negb (is_forbidden c)) (chars s) = true ->
  sanitize_filename s = s.
Proof.
  induction s as [|c s IH]; simpl; [reflexivity|].
  intros H. apply andb_prop in H as [Hc Hs].
  destruct (is_forbidden c); [discriminate|].
  now rewrite IH.
Qed.

Lemma sanitize_is_clean (s : string) :
  forallb (fun c => negb (is_forbidden c)) (chars (sanitize_filename s)) = true.
Proof.
  rewrite sanitize_chars. apply forallb_forall.
  intros c Hc. now apply filter_In in Hc.
Qed.

Lemma sanitize_all_forbidden (s : string) :
  (forall c, In c (chars s) -> In c forbidden_chars) ->
  sanitize_filename s = EmptyString.
Proof.
  induction s as [|c s IH]; simpl; [reflexivity|].
  intros H.
  assert (Hc : is_forbidden c = true) by (apply is_forbidden_In, H; now left).
  rewrite Hc. apply IH. intros d Hd. apply H. now right.
Qed.

Lemma sanitize_no_leading_slash (s t : string) :
  startswith_char (sanitize_filename s ++ t) "/" = startswith_char t "/"
  \/ startswith_char (sanitize_filename s ++ t) "/" = false.
Proof.
  induction s as [|c s IH]; simpl; [now left|].
  destruct (is_forbidden c) eqn:Hc; [assumption|].
  right. simpl. destruct (Ascii.eqb c "/") eqn:E; [|reflexivity].
  apply Ascii.eqb_eq in E. subst c. discriminate.
Qed.

End Sanitize.

(** C3.  Sanitizing is idempotent; the characters of the result are those
    of the argument outside the class, in the same order and with the same
    multiplicity, so a character is dropped exactly when it is one of the
    nine characters of the class; and the title of the scenario sanitizes
    to the expected name. *)
Theorem sanitize_filename_idempotent_exact (s : string) :
  sanitize_filename (sanitize_filename s) = sanitize_filename s /\
  chars (sanitize_filename s)
    = filter (fun c => negb (is_forbidden c)) (chars s) /\
  (forall c, is_forbidden c = true <->
             In c ["<"; ">"; ":"; ascii_of_nat 34; "/"; "\"; "|"; "?"; "*"]%char) /\
  (forall c, In c (chars (sanitize_filename s)) <->
             In c (chars s) /\ is_forbidden c = false) /\
  sanitize_filename "My: Video?" = "My Video".
Proof.
  repeat split.
  - apply sanitize_clean, sanitize_is_clean.
  - apply sanitize_chars.
  - apply is_forbidden_In.
  - apply is_forbidden_In.
  - rewrite sanitize_chars in H. now apply filter_In in H.
  - rewrite sanitize_chars in H. apply filter_In in H as [_ H].
    now apply negb_true_iff in H.
  - intros [Hin Hf]. rewrite sanitize_chars. apply filter_In.
    split; [assumption | now rewrite Hf].
Qed.

Lemma sanitized_name_not_absolute (s t : string) :
  startswith_char t "/" = false ->
  startswith_char (sanitize_filename s ++ t) "/" = false.
Proof.
  intros Ht. destruct (sanitize_no_leading_slash s t) as [H|H]; congruence.
Qed.

(** The download path is the directory, a slash and the file name. *)
Lemma download_path_join (ttl : string) :
  os_path_join "youtube_videos" (sanitize_filename ttl ++ ".mp4")
  = ("youtube_videos/" ++ sanitize_filename ttl ++ ".mp4")%string.
Proof.
  unfold os_path_join.
  rewrite sanitized_name_not_absolute by reflexivity.
  reflexivity.
Qed.

(** ** The polling loop of [download_youtube_video] *)

Section Polling.

Variable w : world.
Variable output_path : string.

(** The loop sleeps [k <= budget] times, one second each, asks [k + 1]
    times whether the file exists, and touches nothing else; the first [k]
    answers were negative, and when it stopped before the budget was spent
    the last answer was positive. *)
Lemma wait_for_file_spec (budget : nat) :
  forall attempts s,
  exists k,
    k <= budget /\
    wait_for_file w output_path budget attempts s
    = (Ok (attempts + k),
       mkState (events s ++ repeat (time_sleep 1) k)
               (exists_calls s + k + 1) (write_calls s)
               (open_clips s) (video s)) /\
    (forall j, j < k -> path_exists w (exists_calls s + j) output_path = false) /\
    (k < budget -> path_exists w (exists_calls s + k) output_path = true).
Proof.
  induction budget as [|b IH]; intros attempts s.
  - exists 0. split; [lia|]. split; [|split; [intros; lia | intros; lia]].
    unfold wait_for_file, bind, os_path_exists, ret; simpl.
    rewrite app_nil_r, !Nat.add_0_r, Nat.add_1_r.
    now destruct (path_exists w (exists_calls s) output_path).
  - cbn [wait_for_file]. unfold bind at 1. unfold os_path_exists at 1.
    destruct (path_exists w (exists_calls s) output_path) eqn:E; cbn [negb].
    + exists 0. split; [lia|]. split; [|split; [intros; lia|]].
      * unfold ret; simpl.
        now rewrite app_nil_r, !Nat.add_0_r, Nat.add_1_r.
      * intros _. now rewrite Nat.add_0_r.
    + unfold bind at 1. unfold emit at 1. cbn [events exists_calls write_calls open_clips video].
      destruct (IH (attempts + 1)
                  (mkState (events s ++ [time_sleep 1]) (S (exists_calls s))
                           (write_calls s) (open_clips s) (video s)))
        as [k [Hk [Heq [Hneg Hpos]]]].
      cbn [events exists_calls write_calls open_clips video] in *.
      exists (S k). split; [lia|]. split; [|split].
      * rewrite Heq. f_equal; [f_equal; lia|].
        rewrite <- app_assoc. cbn [app repeat].
        f_equal. lia.
      * intros j Hj. destruct j as [|j].
        -- now rewrite Nat.add_0_r.
        -- replace (exists_calls s + S j) with (S (exists_calls s) + j) by lia.
           apply Hneg. lia.
      * intros Hlt.
        replace (exists_calls s + S k) with (S (exists_calls s) + k) by lia.
        apply Hpos. lia.
Qed.

End Polling.

(** ** The runs of [download_youtube_video] *)

Lemma touched_0_nil (s : state) (evs : list event) :
  mkState (events s ++ evs) (exists_calls s) (write_calls s)
          (open_clips s) (video s) = touched s 0 evs.
Proof. unfold touched. now rewrite Nat.add_0_r. Qed.

(** Every run of [download_youtube_video] is one of the four. *)
Lemma download_youtube_video_outcome (w : world) (url : string) (s : state) :
  download_outcome w url s (download_youtube_video w url s).
Proof.
  unfold download_youtube_video, try_except.
  unfold bind at 1.
  destruct (youtube w url) as [yt|e] eqn:Hyt; cbn [lift_result ret raise].
  2:{ unfold bind, emit, ret; cbn. rewrite touched_0_nil.
      apply outcome_exception. now apply raises_lookup. }
  unfold bind at 1.
  destruct (streams yt) as [l|e] eqn:Hl; cbn [lift_result ret raise].
  2:{ unfold bind, emit, ret; cbn. rewrite touched_0_nil.
      apply outcome_exception. now apply raises_streams with yt. }
  destruct (StreamQuery.select_stream l) as [v|] eqn:Hv.
  2:{ unfold bind, emit, ret; cbn. rewrite touched_0_nil.
      now apply outcome_no_stream with yt l. }
  unfold bind at 1.
  destruct (title yt) as [ttl|e] eqn:Httl; cbn [lift_result ret raise].
  2:{ unfold bind, emit, ret; cbn. rewrite touched_0_nil.
      apply outcome_exception. now apply raises_title with yt l v. }
  unfold bind at 1. fold (download_name ttl).
  destruct (stream_download w v "youtube_videos" (download_name ttl))
    as [e|] eqn:Hd; cbn [lift_call ret raise].
  { unfold bind, emit, ret; cbn. rewrite touched_0_nil.
    apply outcome_exception. now apply raises_transfer with yt l v ttl. }
  assert (Htr : transfer_returns w url ttl)
    by now apply transfer_ok with yt l v.
  unfold bind at 1. unfold emit at 1. fold (download_path ttl).
  unfold bind at 1.
  destruct (wait_for_file_spec w (download_path ttl) max_attempts 0
              (mkState (events s ++ [downloaded "youtube_videos" (download_name ttl)])
                       (exists_calls s) (write_calls s) (open_clips s) (video s)))
    as [k [Hk [Heq [Hneg Hpos]]]].
  cbn [events exists_calls write_calls open_clips video] in *.
  rewrite Heq.
  assert (Hp : polled w s (download_path ttl) k) by (repeat split; assumption).
  unfold bind at 1. unfold os_path_exists at 1.
  cbn [events exists_calls write_calls open_clips video].
  destruct (path_exists w (exists_calls s + k + 1) (download_path ttl)) eqn:E;
    cbn [negb].
  - unfold ret. rewrite <- app_assoc. cbn [app].
    replace (S (exists_calls s + k + 1)) with (exists_calls s + (k + 2)) by lia.
    now apply (outcome_success w url s ttl k).
  - unfold bind, emit, ret; cbn [events exists_calls write_calls open_clips video].
    rewrite <- !app_assoc. cbn [app].
    replace (S (exists_calls s + k + 1)) with (exists_calls s + (k + 2)) by lia.
    now apply (outcome_incomplete w url s ttl k).
Qed.

(** ** The runs of [trim_video] *)

Section LoopRuns.

Variable w : world.
Variables (output_dir : string) (segment_duration total_duration : Q)
          (num_segments : Z).

Let loop := segment_loop w output_dir segment_duration total_duration
                         num_segments.

Lemma segment_loop_completes (c m : nat) :
  forall a acc s,
    write_calls s = c + a ->
    (forall i, a <= i < a + m -> transcode w output_dir segment_duration total_duration c i = None) ->
    loop (seq a m) acc s
    = (Ok (acc ++ map (segment_path output_dir) (seq a m)),
       mkState (events s ++ flat_map (segment_events output_dir segment_duration total_duration
                                   num_segments) (seq a m))
               (exists_calls s) (write_calls s + m)
               (open_clips s) (video s)).
Proof.
  unfold loop.
  induction m as [|m IH]; intros a acc s Hc Hall.
  - cbn. unfold ret. rewrite !app_nil_r, Nat.add_0_r. now destruct s.
  - assert (Ha : transcode w output_dir segment_duration total_duration c a = None) by (apply Hall; lia).
    unfold transcode in Ha.
    cbn [seq segment_loop]. unfold bind at 1.
    destruct (subclipped w (Plan.start_time a segment_duration)
                (Plan.end_time a segment_duration total_duration));
      [discriminate|].
    cbn [lift_call ret]. unfold bind at 1. unfold write at 1.
    rewrite Hc. fold (segment_path output_dir a). rewrite Ha.
    unfold bind at 1. unfold emit at 1.
    cbn [events exists_calls write_calls open_clips video].
    rewrite IH.
    + cbn [events exists_calls write_calls open_clips video map flat_map].
      f_equal.
      * now rewrite <- app_assoc.
      * unfold segment_events at 2. rewrite <- !app_assoc. cbn [app].
        f_equal. lia.
    + cbn. lia.
    + intros i Hi. apply Hall. lia.
Qed.

Lemma segment_loop_stops (c m : nat) :
  forall a acc s k e,
    write_calls s = c + a ->
    a <= k < a + m ->
    (forall i, a <= i < k -> transcode w output_dir segment_duration total_duration c i = None) ->
    transcode w output_dir segment_duration total_duration c k = Some e ->
    exists s',
      loop (seq a m) acc s = (Raise e, s') /\
      events s' = events s ++ flat_map (segment_events output_dir segment_duration total_duration
                                   num_segments) (seq a (k - a)) /\
      exists_calls s' = exists_calls s /\
      open_clips s' = open_clips s /\
      video s' = video s /\
      write_calls s + (k - a) <= write_calls s' <= write_calls s + (k - a) + 1.
Proof.
  unfold loop.
  induction m as [|m IH]; intros a acc s k e Hc Hk Hbefore Hfail; [lia|].
  cbn [seq segment_loop]. unfold bind at 1.
  destruct (Nat.eq_dec k a) as [->|Hne].
  - rewrite Nat.sub_diag. cbn [seq flat_map]. rewrite app_nil_r.
    unfold transcode in Hfail.
    destruct (subclipped w (Plan.start_time a segment_duration)
                (Plan.end_time a segment_duration total_duration)) as [e'|].
    + injection Hfail as ->. cbn [lift_call raise].
      exists s. repeat split; lia.
    + cbn [lift_call ret]. unfold bind at 1. unfold write at 1.
      rewrite Hc. fold (segment_path output_dir a). rewrite Hfail.
      eexists. split; [reflexivity|]. cbn. repeat split; lia.
  - assert (Ha : transcode w output_dir segment_duration total_duration c a = None) by (apply Hbefore; lia).
    unfold transcode in Ha.
    destruct (subclipped w (Plan.start_time a segment_duration)
                (Plan.end_time a segment_duration total_duration));
      [discriminate|].
    cbn [lift_call ret]. unfold bind at 1. unfold write at 1.
    rewrite Hc. fold (segment_path output_dir a). rewrite Ha.
    unfold bind at 1. unfold emit at 1.
    cbn [events exists_calls write_calls open_clips video].
    edestruct (IH (S a) (acc ++ [segment_path output_dir a])%list
                 (mkState (events s ++
                             [wrote_videofile (segment_path output_dir a)
                                (Plan.start_time a segment_duration)
                                (Plan.end_time a segment_duration total_duration)]
                             ++ [progress_bar_progress
                                   (Plan.progress a num_segments)])
                          (exists_calls s) (S (c + a)) (open_clips s) (video s))
                 k e)
      as [s' [Hrun [Hev [Hex [Hop [Hvid Hwr]]]]]].
    + cbn. lia.
    + lia.
    + intros i Hi. apply Hbefore. lia.
    + assumption.
    + cbn [events exists_calls write_calls open_clips video] in *.
      exists s'. rewrite <- app_assoc. split; [exact Hrun|].
      replace (k - a) with (S (k - S a)) by lia.
      cbn [seq flat_map]. unfold segment_events at 1.
      rewrite Hev, <- !app_assoc. cbn [app].
      repeat split; try assumption; lia.
Qed.

End LoopRuns.

(** Either every index below [m] passes, or there is a first one that
    does not. *)
Lemma first_failure (f : nat -> option exn) (m : nat) :
  (forall i, i < m -> f i = None) \/
  (exists k e, k < m /\ (forall i, i < k -> f i = None) /\ f k = Some e).
Proof.
  induction m as [|m [IH|[k [e [Hk [Hb Hf]]]]]].
  - left. intros i Hi. lia.
  - destruct (f m) as [e|] eqn:E.
    + right. exists m, e. repeat split; [lia | | assumption].
      intros i Hi. now apply IH.
    + left. intros i Hi. destruct (Nat.eq_dec i m) as [->|Hne];
        [assumption | apply IH; lia].
  - right. exists k, e. repeat split; [lia | assumption | assumption].
Qed.

Lemma release_head (path : string) (l : list string) :
  release path (path :: l) = l.
Proof. cbn. now rewrite String.eqb_refl. Qed.

(** Every run of [trim_video] is one of the six. *)
Lemma trim_video_outcome (w : world) (video_path filename : string)
  (segment_duration : Q) (s : state) :
  trim_outcome w video_path filename segment_duration s
    (trim_video w video_path filename segment_duration s).
Proof.
  unfold trim_video. unfold bind at 1. unfold os_path_exists at 1.
  destruct (path_exists w (exists_calls s) video_path) eqn:Hfound; cbn [negb].
  2:{ unfold bind, emit, ret; cbn. now apply trim_not_found. }
  unfold bind at 1. unfold set_video at 1.
  cbn [events exists_calls write_calls open_clips video].
  unfold try_finally, try_except.
  unfold bind at 1. unfold VideoFileClip at 1. unfold bind at 1.
  destruct (video_file_clip w video_path) as [td|e] eqn:Hopen;
    cbn [lift_result ret raise].
  2:{ unfold bind, emit, ret, get_video; cbn.
      now apply trim_open_raises with e. }
  cbn [events exists_calls write_calls open_clips video].
  unfold bind at 1. unfold set_video at 1.
  cbn [events exists_calls write_calls open_clips video duration].
  unfold bind at 1.
  destruct (Plan.num_segments td segment_duration) as [n|e] eqn:Hn;
    cbn [lift_result ret raise].
  2:{ unfold bind, emit, ret, get_video, close; cbn.
      rewrite String.eqb_refl.
      apply trim_plan_raises with td e; cbn; try assumption; try reflexivity.
      now rewrite <- !app_assoc. }
  fold (output_dir_of filename).
  unfold bind at 1. unfold os_path_exists at 1.
  cbn [events exists_calls write_calls open_clips video].
  set (od := output_dir_of filename).
  assert (Hrest : forall dir_evs s2,
             dir_prepared w s od dir_evs ->
             events s2 = events s ++ clip_opened video_path :: dir_evs ->
             write_calls s2 = write_calls s ->
             open_clips s2 = video_path :: open_clips s ->
             video s2 = Some (mkClip video_path td) ->
             trim_outcome w video_path filename segment_duration s
               (let (r, s') :=
                  let (r, s') :=
                    (emit (st_progress 0%Q);;
                     segment_loop w od segment_duration td n (PyNum.range n) [])
                      s2 in
                  match r with
                  | Ok a => (Ok a, s')
                  | Raise e =>
                      (emit (st_error ("Error trimming video: " ++ e));; ret []) s'
                  end in
                let (r0, s'') :=
                  (v <- get_video;;
                   match v with
                   | Some clip => close clip
                   | None => ret tt
                   end) s' in
                match r0 with
                | Ok _ => (r, s'')
                | Raise e => (Raise e, s'')
                end)).
  { intros dir_evs s2 Hprep Hev2 Hwr2 Hop2 Hvid2.
    unfold bind at 1. unfold emit at 1. unfold PyNum.range.
    destruct (first_failure
                (transcode w od segment_duration td (write_calls s))
                (Z.to_nat n)) as [Hall | [k [e [Hk [Hb Hf]]]]].
    - rewrite (segment_loop_completes w od segment_duration td n
                 (write_calls s) (Z.to_nat n) 0 []);
        [| cbn; lia | intros i Hi; apply Hall; lia].
      unfold bind, get_video, ret.
      cbn [events exists_calls write_calls open_clips video].
      rewrite Hvid2. unfold close.
      cbn [events exists_calls write_calls open_clips video clip_filename].
      rewrite Hop2, release_head.
      apply trim_done with td dir_evs; try assumption.
      + cbn [events]. rewrite Hev2, <- !app_assoc. reflexivity.
      + reflexivity.
      + cbn [write_calls]. lia.
    - destruct (segment_loop_stops w od segment_duration td n
                  (write_calls s) (Z.to_nat n) 0 []
                  (mkState (events s2 ++ [st_progress 0%Q]) (exists_calls s2)
                           (write_calls s2) (open_clips s2) (video s2))
                  k e)
        as [s' [Hrun [Hev [Hex [Hop [Hvid Hwr]]]]]];
        [cbn; lia | lia | intros i Hi; apply Hb; lia | assumption |].
      rewrite Hrun.
      cbn [events exists_calls write_calls open_clips video] in *.
      unfold bind, emit, get_video, ret.
      cbn [events exists_calls write_calls open_clips video].
      rewrite Hvid, Hvid2. unfold close.
      cbn [events exists_calls write_calls open_clips video clip_filename].
      rewrite Hop, Hop2, release_head.
      apply trim_segment_raises with td n dir_evs k e; try assumption.
      + cbn [events]. rewrite Hev, Hev2, Nat.sub_0_r, <- !app_assoc.
        reflexivity.
      + reflexivity.
      + cbn [write_calls]. lia. }
  destruct (path_exists w (S (exists_calls s)) od) eqn:Hdir; cbn [negb].
  - unfold bind at 1. unfold ret at 1.
    apply Hrest with (dir_evs := []); try reflexivity.
    left. split; [assumption | reflexivity].
  - unfold bind at 1. unfold os_makedirs at 1. unfold bind at 1.
    destruct (makedirs w od) as [e|] eqn:Hmk; cbn [lift_call ret raise].
    + unfold bind, emit, ret, get_video, close; cbn.
      rewrite String.eqb_refl.
      apply trim_makedirs_raises with td n e; try assumption; try reflexivity.
      cbn. now rewrite <- !app_assoc.
    + unfold emit at 1.
      cbn [events exists_calls write_calls open_clips video].
      apply Hrest with (dir_evs := [made_dirs od]); try reflexivity.
      * right. repeat split; assumption.
      * cbn [events]. now rewrite <- !app_assoc.
Qed.

(** ** Reading a trace *)

Lemma progress_values_app (tr1 tr2 : list event) :
  progress_values (tr1 ++ tr2) = progress_values tr1 ++ progress_values tr2.
Proof.
  induction tr1 as [|e tr1 IH]; [reflexivity|].
  destruct e; cbn; now rewrite ?IH.
Qed.

Lemma written_windows_app (tr1 tr2 : list event) :
  written_windows (tr1 ++ tr2) = written_windows tr1 ++ written_windows tr2.
Proof.
  induction tr1 as [|e tr1 IH]; [reflexivity|].
  destruct e; cbn; now rewrite ?IH.
Qed.

Section SegmentTraces.

Variables (od : string) (sd td : Q) (n : Z).

Lemma segment_events_progress (l : list nat) :
  progress_values (flat_map (segment_events od sd td n) l)
  = map (fun i => Plan.progress i n) l.
Proof. induction l as [|i l IH]; cbn; now rewrite ?IH. Qed.

Lemma segment_events_windows (l : list nat) :
  written_windows (flat_map (segment_events od sd td n) l)
  = map (fun i => (Plan.start_time i sd, Plan.end_time i sd td)) l.
Proof. induction l as [|i l IH]; cbn; now rewrite ?IH. Qed.

Lemma segment_events_writes (l : list nat) :
  List.length (filter is_write (flat_map (segment_events od sd td n) l))
  = List.length l.
Proof. induction l as [|i l IH]; cbn; now rewrite ?IH. Qed.

Lemma segment_events_no_error (l : list nat) :
  filter is_error (flat_map (segment_events od sd td n) l) = [].
Proof. induction l as [|i l IH]; cbn; now rewrite ?IH. Qed.

Lemma segment_events_no_success (l : list nat) :
  filter is_success (flat_map (segment_events od sd td n) l) = [].
Proof. induction l as [|i l IH]; cbn; now rewrite ?IH. Qed.

Lemma segment_events_no_clip (l : list nat) :
  filter is_clip_event (flat_map (segment_events od sd td n) l) = [].
Proof. induction l as [|i l IH]; cbn; now rewrite ?IH. Qed.

End SegmentTraces.

Lemma dir_prepared_events (w : world) (s : state) (od : string)
  (evs : list event) :
  dir_prepared w s od evs -> evs = [] \/ evs = [made_dirs od].
Proof. intros [[_ H]|[_ [_ H]]]; auto. Qed.

Lemma trace_ends_with (a : event) (l1 : list event) (b : event)
  (l2 l3 : list event) (c : event) :
  a :: l1 ++ b :: l2 ++ l3 ++ [c] = (a :: l1 ++ b :: l2 ++ l3) ++ [c].
Proof.
  cbn [app]. f_equal. rewrite <- app_assoc. cbn [app].
  now rewrite <- app_assoc.
Qed.

(** ** The source handle *)

(** C8.  [trim_video] always returns; the clips held open after it are
    those held open before it; when the source clip was opened, the trace
    of the call holds exactly one opening and one closing of it and the
    closing is the last event before the return; when it was not opened,
    nothing is opened or closed. *)
Theorem trim_video_releases_source (w : world) (video_path filename : string)
  (segment_duration : Q) (s : state) :
  exists paths s' evs,
    trim_video w video_path filename segment_duration s = (Ok paths, s') /\
    events s' = events s ++ evs /\
    open_clips s' = open_clips s /\
    (handle_opened w s video_path ->
       filter is_clip_event evs
       = [clip_opened video_path; clip_closed video_path] /\
       exists before, evs = before ++ [clip_closed video_path]) /\
    (~ handle_opened w s video_path -> filter is_clip_event evs = []).
Proof.
  pose proof (trim_video_outcome w video_path filename segment_duration s) as H.
  unfold handle_opened.
  inversion H as
    [s' Hf Hev Hop Hwr
    |e s' Hf Hopen Hev Hop Hwr
    |td e s' Hf Hopen Hn Hev Hop Hwr
    |td n e s' Hf Hopen Hn Hdir Hmk Hev Hop Hwr
    |td n dir_evs k e s' Hf Hopen Hn Hprep Hk Hb Hfail Hev Hop Hwr
    |td n dir_evs s' Hf Hopen Hn Hprep Hall Hev Hop Hwr];
    eexists; exists s'; eexists; (split; [reflexivity|]);
    (split; [exact Hev|]); (split; [exact Hop|]).
  - split; [intros [Hc _]; congruence | reflexivity].
  - split; [intros [_ [td Hc]]; congruence | reflexivity].
  - split; [intros _ | intros Hc; exfalso; apply Hc; eauto].
    split; [reflexivity|].
    now exists [clip_opened video_path; trim_error e].
  - split; [intros _ | intros Hc; exfalso; apply Hc; eauto].
    split; [reflexivity|].
    now exists [clip_opened video_path; trim_error e].
  - split; [intros _ | intros Hc; exfalso; apply Hc; eauto].
    split.
    + cbn [filter is_clip_event]. rewrite filter_app.
      cbn [filter is_clip_event]. rewrite filter_app, segment_events_no_clip.
      destruct (dir_prepared_events _ _ _ _ Hprep) as [-> | ->]; reflexivity.
    + eexists. apply (trace_ends_with _ _ _ _ [trim_error e]).
  - split; [intros _ | intros Hc; exfalso; apply Hc; eauto].
    split.
    + cbn [filter is_clip_event]. rewrite filter_app.
      cbn [filter is_clip_event]. rewrite filter_app, segment_events_no_clip.
      destruct (dir_prepared_events _ _ _ _ Hprep) as [-> | ->]; reflexivity.
    + eexists. apply (trace_ends_with _ _ _ _ []).
Qed.

(** ** Partial failure *)

Lemma dir_prepared_not_raising (w : world) (s : state) (od : string)
  (evs : list event) (e : exn) :
  dir_prepared w s od evs ->
  path_exists w (S (exists_calls s)) od = false ->
  makedirs w od = Some e -> False.
Proof. intros [[H _]|[_ [H _]]] Hf Hm; congruence. Qed.

(** C1, as the code has it.  When the transcode step raises on segment
    [k] of [N], [trim_video] returns the empty list whatever [k] is, its
    trace holds the error message and no success message, and the [k - 1]
    files written before stay unreported. *)
Theorem trim_video_failure_returns_nothing
  (w : world) (video_path filename : string) (segment_duration : Q)
  (s : state) (td : Q) (n : Z) (k : nat) (e : exn) :
  reaches_loop w video_path filename segment_duration s td n ->
  1 <= k <= Z.to_nat n ->
  fails_on_segment w filename segment_duration td s k e ->
  exists s' evs,
    trim_video w video_path filename segment_duration s = (Ok [], s') /\
    events s' = events s ++ evs /\
    In (trim_error e) evs /\
    filter is_success evs = [] /\
    List.length (filter is_write evs) = k - 1.
Proof.
  intros [Hfound [Hclip [Hcount [dir_evs0 Hprep0]]]] Hk [Hbefore Hfail].
  pose proof (trim_video_outcome w video_path filename segment_duration s) as H.
  inversion H as
    [s' Hf Hev Hop Hwr
    |e' s' Hf Hopen Hev Hop Hwr
    |td' e' s' Hf Hopen Hn Hev Hop Hwr
    |td' n' e' s' Hf Hopen Hn Hdir Hmk Hev Hop Hwr
    |td' n' dir_evs k' e' s' Hf Hopen Hn Hprep Hk' Hb Hfail' Hev Hop Hwr
    |td' n' dir_evs s' Hf Hopen Hn Hprep Hall Hev Hop Hwr];
    try congruence.
  - exfalso. eapply dir_prepared_not_raising; eassumption.
  - assert (td' = td) by congruence. subst td'.
    assert (n' = n) by congruence. subst n'.
    assert (k' = k - 1).
    { destruct (Nat.lt_trichotomy k' (k - 1)) as [Hlt|[Heq|Hgt]];
        [|assumption|].
      - rewrite (Hbefore k' Hlt) in Hfail'. discriminate.
      - rewrite (Hb (k - 1) Hgt) in Hfail. discriminate. }
    subst k'. assert (e' = e) by congruence. subst e'.
    exists s'. eexists. split; [reflexivity|]. split; [exact Hev|].
    split; [|split].
    + right. apply in_or_app. right. right. apply in_or_app. right.
      now left.
    + cbn [filter is_success]. rewrite filter_app.
      cbn [filter is_success]. rewrite filter_app, segment_events_no_success.
      destruct (dir_prepared_events _ _ _ _ Hprep) as [-> | ->]; reflexivity.
    + cbn [filter is_write]. rewrite filter_app.
      cbn [filter is_write]. rewrite filter_app, !length_app,
        segment_events_writes, length_seq.
      destruct (dir_prepared_events _ _ _ _ Hprep) as [-> | ->]; cbn; lia.
  - assert (td' = td) by congruence. subst td'.
    assert (n' = n) by congruence. subst n'.
    rewrite Hall in Hfail by lia. discriminate.
Qed.

(** C1: a run that satisfies the hypotheses, on segment 2 of 3. *)
Lemma trim_video_failure_returns_nothing_witness :
  exists s' evs,
    trim_video world_disk_fills "youtube_videos/v.mp4" "v" 60%Q initial_state
    = (Ok [], s') /\
    events s' = events initial_state ++ evs /\
    In (trim_error "No space left on device") evs /\
    filter is_success evs = [] /\
    List.length (filter is_write evs) = 2 - 1.
Proof.
  apply (trim_video_failure_returns_nothing world_disk_fills
           "youtube_videos/v.mp4" "v" 60%Q initial_state 150%Q 3%Z 2
           "No space left on device").
  - repeat split; try reflexivity.
    exists []. left. split; reflexivity.
  - cbn. lia.
  - split.
    + intros i Hi. destruct i as [|i]; [reflexivity | cbn in Hi; lia].
    + reflexivity.
Defined.

(** C1, as stated, fails: in [world_disk_fills] the second of three
    segments fails and no path is returned, where the statement asks for
    one. *)
Lemma trim_video_failure_not_partial : ~ returns_artifacts_before_failure.
Proof.
  intros Hclaim.
  destruct (Hclaim world_disk_fills "youtube_videos/v.mp4" "v" 60%Q
              initial_state 150%Q 3%Z 2 "No space left on device")
    as [paths [s' [Hrun Hlen]]].
  - repeat split; try reflexivity.
    exists []. left. split; reflexivity.
  - cbn. lia.
  - split.
    + intros i Hi. destruct i as [|i]; [reflexivity | cbn in Hi; lia].
    + reflexivity.
  - vm_compute in Hrun. injection Hrun as Hp _. subst paths.
    discriminate Hlen.
Qed.

(** ** Progress values *)

Section Progress.

Local Open Scope Q_scope.

Lemma progress_le (n : Z) (i j : nat) :
  (0 < n)%Z -> (i <= j)%nat -> Plan.progress i n <= Plan.progress j n.
Proof.
  intros Hn Hij. unfold Plan.progress, Qdiv.
  apply Qmult_le_compat_r.
  - rewrite <- Zle_Qle. lia.
  - apply Qinv_le_0_compat. change 0 with (inject_Z 0).
    rewrite <- Zle_Qle. lia.
Qed.

Lemma progress_lt (n : Z) (i j : nat) :
  (0 < n)%Z -> (i < j)%nat -> Plan.progress i n < Plan.progress j n.
Proof.
  intros Hn Hij. unfold Plan.progress, Qdiv.
  apply Qmult_lt_compat_r.
  - apply Qinv_lt_0_compat. change 0 with (inject_Z 0).
    rewrite <- Zlt_Qlt. lia.
  - rewrite <- Zlt_Qlt. lia.
Qed.

Lemma progress_pos (n : Z) (i : nat) :
  (0 < n)%Z -> 0 < Plan.progress i n.
Proof.
  intros Hn. unfold Plan.progress, Qdiv.
  apply Qmult_lt_0_compat.
  - change 0 with (inject_Z 0). rewrite <- Zlt_Qlt. lia.
  - apply Qinv_lt_0_compat. change 0 with (inject_Z 0).
    rewrite <- Zlt_Qlt. lia.
Qed.

Lemma progress_last (m : nat) :
  Plan.progress m (Z.of_nat (S m)) == 1.
Proof.
  unfold Plan.progress. rewrite Nat2Z.inj_succ, <- Z.add_1_r.
  apply Qmult_inv_r. change 0 with (inject_Z 0).
  rewrite inject_Z_injective. lia.
Qed.

Lemma reported_from_sorted (n : Z) (m a : nat) :
  (0 < n)%Z ->
  StronglySorted Qlt (map (fun i => Plan.progress i n) (seq a m)).
Proof.
  intros Hn. revert a. induction m as [|m IH]; intros a; cbn [seq map].
  - constructor.
  - constructor; [apply IH|].
    apply Forall_forall. intros p Hp.
    apply in_map_iff in Hp as [i [<- Hi]]. apply in_seq in Hi.
    apply progress_lt; [assumption | lia].
Qed.

Lemma increasing_nondecreasing (l : list Q) :
  StronglySorted Qlt l -> StronglySorted Qle l.
Proof.
  induction 1 as [|p l Hs IH Hall]; constructor; [assumption|].
  eapply Forall_impl; [|exact Hall]. intros q. apply Qlt_le_weak.
Qed.

Lemma reported_spec (n : Z) :
  List.length (reported n) = Z.to_nat n /\
  Forall (fun p => 0 < p <= 1) (reported n) /\
  StronglySorted Qlt (reported n) /\
  StronglySorted Qle (0 :: reported n) /\
  (reported n <> [] ->
   exists earlier final, reported n = (earlier ++ [final])%list /\ final == 1).
Proof.
  unfold reported.
  destruct (Z.to_nat n) as [|m] eqn:Hm.
  - cbn. repeat split; try constructor; try constructor.
    intros H. now contradiction H.
  - assert (Hn : (0 < n)%Z) by lia.
    assert (Hn' : n = Z.of_nat (S m)) by lia.
    assert (Hrange : Forall (fun p => 0 < p <= 1)
                       (map (fun i => Plan.progress i n) (seq 0 (S m)))).
    { apply Forall_forall. intros p Hp.
      apply in_map_iff in Hp as [i [<- Hi]]. apply in_seq in Hi.
      split; [now apply progress_pos|].
      rewrite <- (progress_last m), <- Hn'.
      apply progress_le; [assumption | lia]. }
    split; [now rewrite length_map, length_seq|].
    split; [exact Hrange|].
    split; [now apply reported_from_sorted|].
    split.
    + constructor.
      * apply increasing_nondecreasing. now apply reported_from_sorted.
      * eapply Forall_impl; [|exact Hrange]. intros p [Hp _].
        now apply Qlt_le_weak.
    + intros _. rewrite seq_S, map_app. cbn [map Nat.add].
      eexists. eexists. split; [reflexivity|].
      rewrite Hn'. apply progress_last.
Qed.

End Progress.

(** A run of [trim_video] that reports no error went through the whole
    loop. *)
Lemma successful_run_shape
  (w : world) (video_path filename : string) (segment_duration : Q)
  (s : state) (paths : list string) (s' : state) (evs : list event) :
  trim_video w video_path filename segment_duration s = (Ok paths, s') ->
  events s' = events s ++ evs ->
  filter is_error evs = [] ->
  exists td n dir_evs,
    video_file_clip w video_path = Ok td /\
    Plan.num_segments td segment_duration = Ok n /\
    dir_prepared w s (output_dir_of filename) dir_evs /\
    evs = clip_opened video_path :: dir_evs
            ++ st_progress 0%Q
            :: flat_map (segment_events (output_dir_of filename)
                           segment_duration td n) (seq 0 (Z.to_nat n))
            ++ [clip_closed video_path] /\
    paths = map (segment_path (output_dir_of filename)) (seq 0 (Z.to_nat n)).
Proof.
  intros Hrun Hev Hclean.
  pose proof (trim_video_outcome w video_path filename segment_duration s) as H.
  rewrite Hrun in H.
  inversion H as
    [s0 Hf Hev0 Hop Hwr
    |e s0 Hf Hopen Hev0 Hop Hwr
    |td e s0 Hf Hopen Hn Hev0 Hop Hwr
    |td n e s0 Hf Hopen Hn Hdir Hmk Hev0 Hop Hwr
    |td n dir_evs k e s0 Hf Hopen Hn Hprep Hk Hb Hfail Hev0 Hop Hwr
    |td n dir_evs s0 Hf Hopen Hn Hprep Hall Hev0 Hop Hwr];
    subst; rewrite Hev in Hev0; apply app_inv_head in Hev0; subst evs;
    try discriminate Hclean.
  - exfalso. revert Hclean.
    cbn [filter is_error]. rewrite filter_app.
    cbn [filter is_error]. rewrite filter_app, segment_events_no_error.
    destruct (dir_prepared_events _ _ _ _ Hprep) as [-> | ->]; discriminate.
  - exists td, n, dir_evs. repeat split; assumption.
Qed.

Lemma successful_run_progress (video_path od : string) (sd td : Q) (n : Z)
  (dir_evs : list event) :
  dir_evs = [] \/ dir_evs = [made_dirs od] ->
  progress_values
    (clip_opened video_path :: dir_evs ++ st_progress 0%Q
       :: flat_map (segment_events od sd td n) (seq 0 (Z.to_nat n))
       ++ [clip_closed video_path]) = reported n.
Proof.
  intros Hd. cbn [progress_values]. rewrite progress_values_app.
  cbn [progress_values]. rewrite progress_values_app, segment_events_progress.
  destruct Hd as [-> | ->]; cbn; now rewrite app_nil_r.
Qed.

Lemma successful_run_windows (video_path od : string) (sd td : Q) (n : Z)
  (dir_evs : list event) :
  dir_evs = [] \/ dir_evs = [made_dirs od] ->
  written_windows
    (clip_opened video_path :: dir_evs ++ st_progress 0%Q
       :: flat_map (segment_events od sd td n) (seq 0 (Z.to_nat n))
       ++ [clip_closed video_path])
  = map (fun i => (Plan.start_time i sd, Plan.end_time i sd td))
        (seq 0 (Z.to_nat n)).
Proof.
  intros Hd. cbn [written_windows]. rewrite written_windows_app.
  cbn [written_windows]. rewrite written_windows_app, segment_events_windows.
  destruct Hd as [-> | ->]; cbn; now rewrite app_nil_r.
Qed.

(** The windows written by a run that reports no error are the planned
    ones, one per path returned. *)
Lemma successful_run_writes_plan
  (w : world) (video_path filename : string) (segment_duration : Q)
  (s : state) (paths : list string) (s' : state) (evs : list event) :
  trim_video w video_path filename segment_duration s = (Ok paths, s') ->
  events s' = events s ++ evs ->
  filter is_error evs = [] ->
  exists td,
    video_file_clip w video_path = Ok td /\
    Plan.windows td segment_duration = Some (written_windows evs) /\
    List.length (written_windows evs) = List.length paths.
Proof.
  intros Hrun Hev Hclean.
  destruct (successful_run_shape _ _ _ _ _ _ _ _ Hrun Hev Hclean)
    as [td [n [dir_evs [Hopen [Hn [Hprep [-> ->]]]]]]].
  exists td. split; [assumption|].
  rewrite successful_run_windows by (eapply dir_prepared_events; eassumption).
  unfold Plan.windows, PyNum.range. rewrite Hn.
  split; [reflexivity | now rewrite !length_map].
Qed.

(** C4.  In a run of [trim_video] that reports no error, the values passed
    to [progress_bar.progress] are as many as the paths returned, each lies
    in [0,1], they never decrease (also with the initial value 0 of the bar
    in front), and when at least one segment was produced the last value
    equals 1. *)
Theorem progress_of_successful_run
  (w : world) (video_path filename : string) (segment_duration : Q)
  (s : state) (paths : list string) (s' : state) (evs : list event) :
  trim_video w video_path filename segment_duration s = (Ok paths, s') ->
  events s' = events s ++ evs ->
  filter is_error evs = [] ->
  List.length (progress_values evs) = List.length paths /\
  Forall (fun p => (0 <= p <= 1)%Q) (progress_values evs) /\
  StronglySorted Qle (progress_values evs) /\
  StronglySorted Qle (0%Q :: progress_values evs) /\
  (paths <> [] ->
   exists earlier final,
     progress_values evs = earlier ++ [final] /\ (final == 1)%Q).
Proof.
  intros Hrun Hev Hclean.
  destruct (successful_run_shape _ _ _ _ _ _ _ _ Hrun Hev Hclean)
    as [td [n [dir_evs [Hopen [Hn [Hprep [-> ->]]]]]]].
  rewrite successful_run_progress by (eapply dir_prepared_events; eassumption).
  destruct (reported_spec n) as [Hlen [Hrange [Hinc [Hzero Hlast]]]].
  split; [now rewrite Hlen, length_map, length_seq|].
  split.
  { eapply Forall_impl; [|exact Hrange]. intros p [Hp Hq].
    split; [now apply Qlt_le_weak | assumption]. }
  split; [now apply increasing_nondecreasing|].
  split; [assumption|].
  intros Hne. apply Hlast. intros Hnil. apply Hne.
  apply (f_equal (@List.length Q)) in Hnil. rewrite Hlen in Hnil.
  cbn in Hnil. now rewrite Hnil.
Qed.

(** C4: the run of the 150-second source cut every 60 seconds. *)
Lemma progress_of_successful_run_witness :
  exists paths s',
    trim_video world_fine "youtube_videos/v.mp4" "v" 60%Q initial_state
    = (Ok paths, s') /\
    List.length paths = 3 /\
    List.length (progress_values (events s')) = List.length paths /\
    Forall (fun p => (0 <= p <= 1)%Q) (progress_values (events s')) /\
    StronglySorted Qle (progress_values (events s')) /\
    StronglySorted Qle (0%Q :: progress_values (events s')) /\
    (paths <> [] ->
     exists earlier final,
       progress_values (events s') = earlier ++ [final] /\ (final == 1)%Q).
Proof.
  eexists. eexists. split; [vm_compute; reflexivity|].
  split; [reflexivity|].
  eapply (progress_of_successful_run world_fine "youtube_videos/v.mp4" "v"
            60%Q initial_state).
  - vm_compute. reflexivity.
  - reflexivity.
  - reflexivity.
Defined.

(** ** The segment plan *)

Section PlanArith.

Local Open Scope Q_scope.

Lemma int_inject_Z (z : Z) : PyNum.int (inject_Z z) = z.
Proof. unfold PyNum.int. cbn. apply Z.quot_1_r. Qed.

Lemma inject_Z_succ (z : Z) : inject_Z (z + 1) == inject_Z z + 1.
Proof. now rewrite inject_Z_plus. Qed.

Lemma inject_Z_pred (z : Z) : inject_Z (z - 1) == inject_Z z - 1.
Proof.
  unfold Z.sub. rewrite inject_Z_plus, inject_Z_opp. reflexivity.
Qed.

Lemma div_mul (t s : Q) : ~ s == 0 -> (t / s) * s == t.
Proof. intros Hs. rewrite Qmult_comm. now apply Qmult_div_r. Qed.

(** The remainder of the division is [s] times the fractional part of the
    quotient. *)
Lemma remainder_fraction (t s : Q) :
  ~ s == 0 ->
  t - s * inject_Z (Qfloor (t / s))
  == s * (t / s - inject_Z (Qfloor (t / s))).
Proof.
  intros Hs. rewrite <- (div_mul t s Hs) at 1. ring.
Qed.

Lemma floor_ceiling_cases (q : Q) :
  (q == inject_Z (Qfloor q) /\ Qceiling q = Qfloor q) \/
  (inject_Z (Qfloor q) < q /\ Qceiling q = (Qfloor q + 1)%Z).
Proof.
  pose proof (Qfloor_le q) as Hf.
  pose proof (Qlt_floor q) as Hf'.
  pose proof (Qle_ceiling q) as Hc.
  pose proof (Qceiling_lt q) as Hc'.
  destruct (Qlt_le_dec (inject_Z (Qfloor q)) q) as [Hlt|Hle].
  - right. split; [assumption|].
    assert (H1 : inject_Z (Qfloor q) < inject_Z (Qceiling q))
      by (eapply Qlt_le_trans; eassumption).
    assert (H2 : inject_Z (Qceiling q - 1) < inject_Z (Qfloor q + 1))
      by (eapply Qlt_trans; eassumption).
    rewrite <- Zlt_Qlt in H1, H2. lia.
  - left. assert (Heq : q == inject_Z (Qfloor q)) by now apply Qle_antisym.
    split; [assumption|].
    assert (H1 : inject_Z (Qfloor q) <= inject_Z (Qceiling q))
      by (eapply Qle_trans; eassumption).
    assert (H2 : inject_Z (Qceiling q - 1) < inject_Z (Qfloor q))
      by (eapply Qlt_le_trans; eassumption).
    rewrite <- Zle_Qle in H1. rewrite <- Zlt_Qlt in H2. lia.
Qed.

Lemma gt0_true (x : Q) : 0 < x -> PyNum.gt0 x = true.
Proof.
  intros Hx. unfold PyNum.gt0. destruct (Qle_bool x 0) eqn:E; [|reflexivity].
  apply Qle_bool_iff in E. exfalso. now apply (Qlt_not_le 0 x).
Qed.

Lemma gt0_false (x : Q) : x <= 0 -> PyNum.gt0 x = false.
Proof.
  intros Hx. unfold PyNum.gt0. apply Qle_bool_iff in Hx. now rewrite Hx.
Qed.

Lemma nonzero_not_eq_bool (s : Q) : ~ s == 0 -> Qeq_bool s 0 = false.
Proof.
  intros Hs. destruct (Qeq_bool s 0) eqn:E; [|reflexivity].
  now apply Qeq_bool_eq in E.
Qed.

(** For a positive segment length the count is the ceiling of the
    quotient. *)
Lemma num_segments_pos_length (t s : Q) :
  0 < s -> Plan.num_segments t s = Ok (Qceiling (t / s)).
Proof.
  intros Hs.
  assert (Hnz : ~ s == 0) by (intros H; rewrite H in Hs; discriminate).
  unfold Plan.num_segments, PyNum.floordiv, PyNum.mod_.
  rewrite (nonzero_not_eq_bool s Hnz). f_equal. rewrite int_inject_Z.
  destruct (floor_ceiling_cases (t / s)) as [[Heq ->]|[Hlt ->]].
  - rewrite gt0_false; [lia|].
    rewrite (remainder_fraction t s Hnz).
    setoid_replace (t / s - inject_Z (Qfloor (t / s))) with 0 by lra.
    rewrite Qmult_0_r. apply Qle_refl.
  - rewrite gt0_true; [reflexivity|].
    rewrite (remainder_fraction t s Hnz).
    apply Qmult_lt_0_compat; [assumption|].
    lra.
Qed.

(** For a negative segment length the count is the floor of the
    quotient. *)
Lemma num_segments_neg_length (t s : Q) :
  s < 0 -> Plan.num_segments t s = Ok (Qfloor (t / s)).
Proof.
  intros Hs.
  assert (Hnz : ~ s == 0) by (intros H; rewrite H in Hs; discriminate).
  unfold Plan.num_segments, PyNum.floordiv, PyNum.mod_.
  rewrite (nonzero_not_eq_bool s Hnz). f_equal. rewrite int_inject_Z.
  rewrite gt0_false; [lia|].
  rewrite (remainder_fraction t s Hnz).
  pose proof (Qfloor_le (t / s)) as Hf.
  setoid_replace (s * (t / s - inject_Z (Qfloor (t / s))))
    with (- ((- s) * (t / s - inject_Z (Qfloor (t / s))))) by ring.
  apply (Qopp_le_compat 0). apply Qmult_le_0_compat.
  - lra.
  - lra.
Qed.

Lemma num_segments_zero_length (t s : Q) :
  s == 0 -> Plan.num_segments t s = Raise "float floor division by zero".
Proof.
  intros Hs. unfold Plan.num_segments, PyNum.floordiv.
  apply Qeq_bool_iff in Hs. now rewrite Hs.
Qed.

End PlanArith.

Section PlanWindows.

Local Open Scope Q_scope.

Variables (t s : Q).
Hypothesis (Hs : 0 < s).

Let c : Z := Qceiling (t / s).

Lemma ceiling_brackets :
  inject_Z (c - 1) * s < t /\ t <= inject_Z c * s.
Proof.
  assert (Hnz : ~ s == 0) by (intros H; rewrite H in Hs; discriminate).
  pose proof (Qle_ceiling (t / s)) as Hc.
  pose proof (Qceiling_lt (t / s)) as Hc'.
  fold c in Hc, Hc'.
  split.
  - pose proof (proj2 (Qmult_lt_r _ _ s Hs) Hc') as H.
    now rewrite (div_mul t s Hnz) in H.
  - pose proof (proj2 (Qmult_le_r _ _ s Hs) Hc) as H.
    now rewrite (div_mul t s Hnz) in H.
Qed.

Lemma ceiling_positive : 0 < t -> (1 <= c)%Z.
Proof.
  intros Ht.
  destruct ceiling_brackets as [_ Hle].
  assert (H : 0 < inject_Z c * s) by (eapply Qlt_le_trans; eassumption).
  assert (Hc : 0 < inject_Z c).
  { destruct (Qlt_le_dec 0 (inject_Z c)) as [|Hneg]; [assumption|].
    exfalso. apply (Qlt_not_le _ _ H).
    setoid_replace (inject_Z c * s) with (- ((- inject_Z c) * s)) by ring.
    apply (Qopp_le_compat 0). apply Qmult_le_0_compat; lra. }
  change 0 with (inject_Z 0) in Hc. rewrite <- Zlt_Qlt in Hc. lia.
Qed.

(** A window that is not the last one ends a full segment after it
    starts. *)
Lemma end_time_inner (i : nat) :
  (Z.of_nat i + 1 < c)%Z ->
  Plan.end_time i s t == inject_Z (Z.of_nat i + 1) * s.
Proof.
  intros Hi. unfold Plan.end_time. apply Q.min_l.
  destruct ceiling_brackets as [Hlt _].
  apply Qlt_le_weak. eapply Qle_lt_trans; [|exact Hlt].
  apply Qmult_le_r; [assumption|]. rewrite <- Zle_Qle. lia.
Qed.

(** The last window ends with the source. *)
Lemma end_time_last (i : nat) :
  (Z.of_nat i + 1 = c)%Z -> Plan.end_time i s t == t.
Proof.
  intros Hi. unfold Plan.end_time. apply Q.min_r.
  rewrite Hi. apply ceiling_brackets.
Qed.

End PlanWindows.

Lemma nth_error_map_seq {A} (f : nat -> A) (m i : nat) (x : A) :
  nth_error (map f (seq 0 m)) i = Some x -> i < m /\ x = f i.
Proof.
  intros H.
  assert (Hi : i < m).
  { rewrite <- (length_seq m 0), <- (length_map f).
    apply nth_error_Some. congruence. }
  split; [assumption|].
  rewrite nth_error_map, nth_error_seq in H.
  apply Nat.ltb_lt in Hi. rewrite Hi in H. cbn in H. congruence.
Qed.

(** The plan in exact arithmetic.  For a positive duration and a positive
    segment length the windows of the plan, which are those a run without
    error writes, are as many as the ceiling of the quotient; the first
    starts at 0; each window ends where the next starts and is one segment
    long; the last ends at the duration and its length is positive and at
    most one segment. *)
Lemma plan_windows_shape (t s : Q) :
  (0 < t)%Q -> (0 < s)%Q ->
  exists ws,
    Plan.windows t s = Some ws /\
    (forall w video_path filename st paths st' evs,
       video_file_clip w video_path = Ok t ->
       trim_video w video_path filename s st = (Ok paths, st') ->
       events st' = events st ++ evs ->
       filter is_error evs = [] ->
       written_windows evs = ws) /\
    Z.of_nat (List.length ws) = Qceiling (t / s) /\
    ws <> [] /\
    (forall a b, nth_error ws 0 = Some (a, b) -> (a == 0)%Q) /\
    (forall i a b a' b',
       nth_error ws i = Some (a, b) ->
       nth_error ws (S i) = Some (a', b') ->
       (b == a')%Q /\ (b - a == s)%Q) /\
    (forall a b,
       nth_error ws (List.length ws - 1) = Some (a, b) ->
       (b == t)%Q /\ (0 < b - a)%Q /\ (b - a <= s)%Q) /\
    Plan.windows 150 60 = Some [(0, 60); (60, 120); (120, 150)]%Q.
Proof.
  intros Ht Hs.
  pose proof (ceiling_positive t s Hs Ht) as Hc.
  destruct (ceiling_brackets t s Hs) as [Hlo Hhi].
  set (c := Qceiling (t / s)) in *.
  assert (Hw : Plan.windows t s
               = Some (map (fun i => (Plan.start_time i s, Plan.end_time i s t))
                           (seq 0 (Z.to_nat c)))).
  { unfold Plan.windows. now rewrite (num_segments_pos_length t s Hs). }
  eexists. split; [exact Hw|].
  split.
  { intros w video_path filename st paths st' evs Hopen Hrun Hev Hclean.
    destruct (successful_run_writes_plan _ _ _ _ _ _ _ _ Hrun Hev Hclean)
      as [td [Hopen' [Hw' _]]].
    assert (td = t) by congruence. subst td.
    rewrite Hw in Hw'. now injection Hw'. }
  rewrite length_map, length_seq.
  split; [lia|].
  split.
  { destruct (Z.to_nat c) eqn:E; [lia | discriminate]. }
  split.
  { intros a b H. apply nth_error_map_seq in H as [_ H].
    injection H as -> _. unfold Plan.start_time. cbn. ring. }
  split.
  { intros i a b a' b' H H'.
    apply nth_error_map_seq in H as [Hi H].
    apply nth_error_map_seq in H' as [Hi' H'].
    injection H as -> ->. injection H' as -> _.
    rewrite (end_time_inner t s Hs i) by (fold c; lia).
    unfold Plan.start_time.
    rewrite Nat2Z.inj_succ, <- Z.add_1_r, inject_Z_succ.
    split; [reflexivity | ring]. }
  split; [|reflexivity].
  intros a b H. apply nth_error_map_seq in H as [Hi H].
  injection H as -> ->.
  assert (Hidx : (Z.of_nat (Z.to_nat c - 1) = c - 1)%Z) by lia.
  rewrite (end_time_last t s Hs (Z.to_nat c - 1)) by (fold c; lia).
  unfold Plan.start_time. rewrite Hidx.
  rewrite inject_Z_pred in *.
  split; [reflexivity | split; lra].
Qed.

(** A run in which nothing fails returns one path per segment of the plan
    and reports no error. *)
Lemma nothing_fails_run
  (w : world) (video_path filename : string) (segment_duration : Q)
  (s : state) (td : Q) (n : Z) :
  nothing_fails w video_path filename segment_duration s td ->
  Plan.num_segments td segment_duration = Ok n ->
  exists s' evs,
    trim_video w video_path filename segment_duration s
    = (Ok (map (segment_path (output_dir_of filename)) (seq 0 (Z.to_nat n))),
       s') /\
    events s' = events s ++ evs /\
    filter is_error evs = [].
Proof.
  intros (Hfound & Hopen & [dir_evs Hdir] & Hsteps) Hn.
  pose proof (trim_video_outcome w video_path filename segment_duration s)
    as H.
  inversion H as
    [s' Hf Hev Hop Hwr Heq
    |e s' Hf Ho Hev Hop Hwr Heq
    |td' e s' Hf Ho Hn' Hev Hop Hwr Heq
    |td' n' e s' Hf Ho Hn' Habsent Hmk Hev Hop Hwr Heq
    |td' n' dir_evs' k e s' Hf Ho Hn' Hd' Hk Hbefore Hfail Hev Hop Hwr Heq
    |td' n' dir_evs' s' Hf Ho Hn' Hd' Hall Hev Hop Hwr Heq].
  - congruence.
  - congruence.
  - assert (td' = td) by congruence. subst td'. congruence.
  - exfalso. destruct Hdir as [[Hthere _]|[_ [Hmade _]]]; congruence.
  - exfalso. assert (td' = td) by congruence. subst td'.
    assert (n' = n) by congruence. subst n'.
    rewrite (Hsteps n k Hn Hk) in Hfail. discriminate.
  - assert (td' = td) by congruence. subst td'.
    assert (n' = n) by congruence. subst n'.
    eexists. eexists. split; [reflexivity|]. split; [exact Hev|].
    cbn [filter is_error]. rewrite filter_app. cbn [filter is_error].
    rewrite filter_app, segment_events_no_error. cbn [filter is_error app].
    destruct (dir_prepared_events _ _ _ _ Hd') as [-> | ->]; reflexivity.
Qed.

(** The written windows of a run in which nothing fails are the planned
    ones, one per returned path. *)
Lemma nothing_fails_writes_plan
  (w : world) (video_path filename : string) (segment_duration : Q)
  (s : state) (td : Q) (ws : list (Q * Q)) :
  nothing_fails w video_path filename segment_duration s td ->
  Plan.windows td segment_duration = Some ws ->
  exists paths s' evs,
    trim_video w video_path filename segment_duration s = (Ok paths, s') /\
    events s' = events s ++ evs /\
    filter is_error evs = [] /\
    List.length paths = List.length ws /\
    written_windows evs = ws.
Proof.
  intros Hfine Hws.
  destruct (Plan.num_segments td segment_duration) as [n|e] eqn:Hn.
  2:{ unfold Plan.windows in Hws. rewrite Hn in Hws. discriminate. }
  destruct (nothing_fails_run _ _ _ _ _ _ _ Hfine Hn)
    as (s' & evs & Hrun & Hev & Hclean).
  destruct (successful_run_writes_plan _ _ _ _ _ _ _ _ Hrun Hev Hclean)
    as (td' & Hopen' & Hplan & Hlen).
  destruct Hfine as (_ & Hopen & _).
  assert (td' = td) by congruence. subst td'.
  assert (Hsame : written_windows evs = ws) by congruence.
  eexists. exists s', evs.
  split; [exact Hrun|]. split; [exact Hev|]. split; [exact Hclean|].
  split; [|exact Hsame].
  now rewrite <- Hlen, Hsame.
Qed.

(** C2, for the lengths the form passes.  For a positive duration and a
    segment length that is a positive integer: a run of [trim_video] in
    which nothing fails returns without error and writes exactly the
    windows of the plan, one per returned path, and no other run without
    error writes anything else; these windows are as many as the ceiling
    of the quotient; the first starts at 0; each window ends where the
    next starts and is one segment long; the last ends at the duration
    and its length is positive and at most one segment; and 150 by 60
    gives the three windows of the scenario. *)
Theorem windows_cover_duration (t : Q) (n : Z) :
  (0 < t)%Q -> (1 <= n)%Z ->
  exists ws,
    Plan.windows t (inject_Z n) = Some ws /\
    (forall w video_path filename st,
       nothing_fails w video_path filename (inject_Z n) st t ->
       exists paths st' evs,
         trim_video w video_path filename (inject_Z n) st = (Ok paths, st') /\
         events st' = events st ++ evs /\
         filter is_error evs = [] /\
         List.length paths = List.length ws /\
         written_windows evs = ws) /\
    (forall w video_path filename st paths st' evs,
       video_file_clip w video_path = Ok t ->
       trim_video w video_path filename (inject_Z n) st = (Ok paths, st') ->
       events st' = events st ++ evs ->
       filter is_error evs = [] ->
       written_windows evs = ws) /\
    Z.of_nat (List.length ws) = Qceiling (t / inject_Z n) /\
    ws <> [] /\
    (forall a b, nth_error ws 0 = Some (a, b) -> (a == 0)%Q) /\
    (forall i a b a' b',
       nth_error ws i = Some (a, b) ->
       nth_error ws (S i) = Some (a', b') ->
       (b == a')%Q /\ (b - a == inject_Z n)%Q) /\
    (forall a b,
       nth_error ws (List.length ws - 1) = Some (a, b) ->
       (b == t)%Q /\ (0 < b - a)%Q /\ (b - a <= inject_Z n)%Q) /\
    Plan.windows 150 (inject_Z 60)
    = Some [(0, 60); (60, 120); (120, 150)]%Q.
Proof.
  intros Ht Hn.
  assert (Hs : (0 < inject_Z n)%Q).
  { change 0%Q with (inject_Z 0). rewrite <- Zlt_Qlt. lia. }
  destruct (plan_windows_shape t (inject_Z n) Ht Hs)
    as (ws & Hws & Hruns & Hcount & Hne & Hfirst & Hnext & Hlast & Hex).
  exists ws. split; [exact Hws|].
  split.
  { intros w video_path filename st Hfine.
    exact (nothing_fails_writes_plan _ _ _ _ _ _ _ Hfine Hws). }
  split; [exact Hruns|].
  split; [exact Hcount|]. split; [exact Hne|]. split; [exact Hfirst|].
  split; [exact Hnext|]. split; [exact Hlast|]. exact Hex.
Qed.

(** C2: the 150-second source of [world_fine] cut every 60 seconds. *)
Lemma windows_cover_duration_witness :
  exists paths st' evs,
    trim_video world_fine "youtube_videos/v.mp4" "v" (inject_Z 60)
               initial_state = (Ok paths, st') /\
    events st' = events initial_state ++ evs /\
    filter is_error evs = [] /\
    List.length paths = 3 /\
    written_windows evs = [(0, 60); (60, 120); (120, 150)]%Q.
Proof.
  destruct (windows_cover_duration 150 60) as (ws & Hws & Hrun & _).
  - reflexivity.
  - lia.
  - assert (Hthree : ws = [(0, 60); (60, 120); (120, 150)]%Q).
    { vm_compute in Hws. now injection Hws. }
    subst ws.
    apply (Hrun world_fine "youtube_videos/v.mp4" "v" initial_state).
    split; [reflexivity|]. split; [reflexivity|].
    split; [exists []; left; split; reflexivity|].
    intros m i _ _. reflexivity.
Defined.

(** On the scenario the doubles give the windows of the plan. *)
Example double_windows_150_by_60 :
  Double.windows (Double.of_int 150) (Double.of_int 60)
  = Some [(Double.of_int 0, Double.of_int 60);
          (Double.of_int 60, Double.of_int 120);
          (Double.of_int 120, Double.of_int 150)].
Proof. vm_compute. reflexivity. Qed.

(** A source of 1.1 seconds cut every 0.1 seconds: the floor of the
    quotient of the two doubles is 11 and the remainder is positive, so
    the loop runs twelve times. *)
Example double_num_segments_1_1_by_0_1 :
  Double.num_segments Double.d1_1 Double.d0_1 = Ok 12%Z /\
  Double.start_time 11 Double.d0_1 = Double.d1_1 /\
  Double.end_time 11 Double.d0_1 Double.d1_1 = Double.d1_1.
Proof. vm_compute. repeat split; reflexivity. Qed.

(** C2, as stated, fails for a segment length that is a float: a source
    of 1.1 seconds cut every 0.1 seconds gets twelve windows from the
    loop, and the last one starts and ends at 1.1, so its length is
    zero. *)
Lemma fractional_length_empty_window : ~ last_window_not_empty.
Proof.
  intros Hclaim.
  assert (Hw : exists ws,
             Double.windows Double.d1_1 Double.d0_1 = Some ws /\
             nth_error ws (List.length ws - 1)
             = Some (Double.d1_1, Double.d1_1)).
  { eexists. split; vm_compute; reflexivity. }
  destruct Hw as (ws & Hws & Hlast).
  pose proof (Hclaim Double.d1_1 Double.d0_1 ws _ _
                eq_refl eq_refl Hws Hlast) as Habs.
  vm_compute in Habs. discriminate.
Qed.

(** ** Segment lengths that are not positive *)

Lemma floor_quotient_nonpositive (t s : Q) :
  (0 <= t)%Q -> (s < 0)%Q -> (Qfloor (t / s) <= 0)%Z.
Proof.
  intros Ht Hs.
  assert (Hnz : ~ (s == 0)%Q) by (intros H; rewrite H in Hs; discriminate).
  change 0%Z with (Qfloor 0). apply Qfloor_resp_le.
  setoid_replace (t / s)%Q with (- (t * / (- s)))%Q by (now field).
  apply (Qopp_le_compat 0). apply Qmult_le_0_compat; [assumption|].
  apply Qinv_le_0_compat. lra.
Qed.

(** C6, as the code has it.  With the source opened on a duration that is
    not negative, a segment length that is not positive makes [trim_video]
    return the empty list without writing any window or reporting any
    progress; a length of zero is reported as the division error it
    raises; a negative length is not reported at all when the output
    directory is there or can be created. *)
Theorem trim_video_nonpositive_length
  (w : world) (video_path filename : string) (segment_duration : Q)
  (s : state) (td : Q) :
  path_exists w (exists_calls s) video_path = true ->
  video_file_clip w video_path = Ok td ->
  (0 <= td)%Q ->
  (segment_duration <= 0)%Q ->
  exists s' evs,
    trim_video w video_path filename segment_duration s = (Ok [], s') /\
    events s' = events s ++ evs /\
    written_windows evs = [] /\
    progress_values evs = [] /\
    ((segment_duration == 0)%Q ->
     evs = [clip_opened video_path;
            trim_error "float floor division by zero";
            clip_closed video_path]) /\
    ((segment_duration < 0)%Q ->
     Plan.windows td segment_duration = Some [] /\
     ((exists dir_evs, dir_prepared w s (output_dir_of filename) dir_evs) ->
      filter is_error evs = [])).
Proof.
  intros Hfound Hclip Htd Hsd.
  pose proof (trim_video_outcome w video_path filename segment_duration s) as H.
  destruct (Qlt_le_dec segment_duration 0) as [Hneg|Hnonneg].
  - pose proof (num_segments_neg_length td segment_duration Hneg) as Hcount.
    pose proof (floor_quotient_nonpositive td segment_duration Htd Hneg) as Hfl.
    assert (Hzero : Z.to_nat (Qfloor (td / segment_duration)) = 0) by lia.
    assert (Hnz : ~ (segment_duration == 0)%Q) by lra.
    assert (Hw : Plan.windows td segment_duration = Some []).
    { unfold Plan.windows, PyNum.range. now rewrite Hcount, Hzero. }
    inversion H as
      [s' Hf Hev Hop Hwr
      |e s' Hf Hopen Hev Hop Hwr
      |td' e s' Hf Hopen Hn Hev Hop Hwr
      |td' n e s' Hf Hopen Hn Hdir Hmk Hev Hop Hwr
      |td' n dir_evs k e s' Hf Hopen Hn Hprep Hk Hb Hfail Hev Hop Hwr
      |td' n dir_evs s' Hf Hopen Hn Hprep Hall Hev Hop Hwr];
      try congruence.
    + exists s'. eexists. split; [reflexivity|]. split; [exact Hev|].
      split; [reflexivity|]. split; [reflexivity|].
      split; [intros Hc; contradiction|].
      intros _. split; [exact Hw|].
      intros [dir_evs Hprep]. exfalso.
      eapply dir_prepared_not_raising; eassumption.
    + exfalso. assert (td' = td) by congruence. subst td'.
      assert (n = Qfloor (td / segment_duration)) by congruence. lia.
    + assert (td' = td) by congruence. subst td'.
      assert (Hn' : n = Qfloor (td / segment_duration)) by congruence.
      rewrite Hn', Hzero in *. cbn [seq flat_map map app] in *.
      exists s'. eexists. split; [reflexivity|]. split; [exact Hev|].
      destruct (dir_prepared_events _ _ _ _ Hprep) as [-> | ->];
        (split; [reflexivity|]); (split; [reflexivity|]);
        (split; [intros Hc; contradiction|]);
        intros _; (split; [exact Hw | reflexivity]).
  - assert (Hz : (segment_duration == 0)%Q) by now apply Qle_antisym.
    pose proof (num_segments_zero_length td segment_duration Hz) as Hcount.
    inversion H as
      [s' Hf Hev Hop Hwr
      |e s' Hf Hopen Hev Hop Hwr
      |td' e s' Hf Hopen Hn Hev Hop Hwr
      |td' n e s' Hf Hopen Hn Hdir Hmk Hev Hop Hwr
      |td' n dir_evs k e s' Hf Hopen Hn Hprep Hk Hb Hfail Hev Hop Hwr
      |td' n dir_evs s' Hf Hopen Hn Hprep Hall Hev Hop Hwr];
      try congruence.
    assert (td' = td) by congruence. subst td'.
    assert (e = "float floor division by zero") by congruence. subst e.
    exists s'. eexists. split; [reflexivity|]. split; [exact Hev|].
    split; [reflexivity|]. split; [reflexivity|].
    split; [reflexivity|].
    intros Hc. exfalso. lra.
Qed.

(** C6: a run with the segment length -60 on the 150-second source. *)
Lemma trim_video_nonpositive_length_witness :
  exists s' evs,
    trim_video world_fine "youtube_videos/v.mp4" "v" (-60)%Q initial_state
    = (Ok [], s') /\
    events s' = events initial_state ++ evs /\
    written_windows evs = [] /\
    progress_values evs = [] /\
    ((-60 == 0)%Q ->
     evs = [clip_opened "youtube_videos/v.mp4";
            trim_error "float floor division by zero";
            clip_closed "youtube_videos/v.mp4"]) /\
    ((-60 < 0)%Q ->
     Plan.windows 150 (-60) = Some [] /\
     ((exists dir_evs,
         dir_prepared world_fine initial_state (output_dir_of "v") dir_evs) ->
      filter is_error evs = [])).
Proof.
  apply (trim_video_nonpositive_length world_fine "youtube_videos/v.mp4" "v"
           (-60)%Q initial_state 150%Q).
  - reflexivity.
  - reflexivity.
  - discriminate.
  - discriminate.
Defined.

(** C6, as stated, fails: with the segment length -60 on the 150-second
    source [trim_video] reports no error. *)
Lemma negative_length_not_rejected : ~ rejects_nonpositive_length.
Proof.
  intros Hclaim.
  destruct (Hclaim world_fine "youtube_videos/v.mp4" "v" (-60)%Q initial_state)
    as [msg Hin]; [discriminate|].
  vm_compute in Hin.
  repeat (destruct Hin as [Hin|Hin]; [discriminate|]).
  exact Hin.
Qed.

(** ** Results of [download_youtube_video] *)

Lemma transfer_returns_title (w : world) (url : string) (t1 t2 : string) :
  transfer_returns w url t1 -> transfer_returns w url t2 -> t1 = t2.
Proof. intros [] []. congruence. Qed.

Lemma transfer_returns_not_raising (w : world) (url : string) (ttl : string)
  (e : exn) :
  transfer_returns w url ttl -> download_raises w url e -> False.
Proof.
  intros [yt l v t Hy Hs Hv Ht Hd] Hr.
  inversion Hr; subst; congruence.
Qed.

Lemma transfer_returns_selects (w : world) (url : string) (ttl : string)
  (yt : YouTube) (l : list Stream) :
  transfer_returns w url ttl -> youtube w url = Ok yt -> streams yt = Ok l ->
  StreamQuery.select_stream l <> None.
Proof. intros [] Hy Hs. congruence. Qed.

Lemma raising_selects (w : world) (url : string) (e : exn)
  (yt : YouTube) (l : list Stream) :
  download_raises w url e -> youtube w url = Ok yt -> streams yt = Ok l ->
  StreamQuery.select_stream l <> None.
Proof. intros [] Hy Hs; congruence. Qed.

Lemma polled_absent (w : world) (s : state) (path : string) (k : nat) :
  polled w s path k ->
  (forall n, exists_calls s <= n -> path_exists w n path = false) ->
  k = max_attempts.
Proof.
  intros [Hk [_ Hpos]] Habs.
  destruct (Nat.eq_dec k max_attempts) as [|Hne]; [assumption|].
  rewrite Habs in Hpos by lia.
  assert (k < max_attempts) by lia. now apply Hpos in H.
Qed.

Lemma polled_present (w : world) (s : state) (path : string) (k : nat) :
  polled w s path k ->
  path_exists w (exists_calls s) path = true ->
  k = 0.
Proof.
  intros [_ [Hneg _]] Hp. destruct k as [|k]; [reflexivity|].
  rewrite <- (Nat.add_0_r (exists_calls s)), Hneg in Hp by lia.
  discriminate.
Qed.

Lemma sleeps_repeat (k : nat) (tl : list event) :
  sleeps (repeat (time_sleep 1) k ++ tl) = repeat (time_sleep 1) k ++ sleeps tl.
Proof. induction k as [|k IH]; cbn; [reflexivity | now rewrite <- IH]. Qed.

(** C9.  [download_youtube_video] always returns a pair; the pair is
    [(None, None)] or has two strings, the path being the join of the
    download directory with the sanitized title followed by the
    extension, and the name the sanitized title; the pair is
    [(None, None)] when the body raises, when no stream is selected, and
    when the file is absent at the last check; and it is the path and the
    name, not [(None, None)], when the transfer call returned and the file
    is present at the last check. *)
Theorem download_returns_none_pair_or_path
  (w : world) (url : string) (s : state) :
  exists r s',
    download_youtube_video w url s = (Ok r, s') /\
    (r = (None, None) \/
     exists yt ttl,
       youtube w url = Ok yt /\ title yt = Ok ttl /\
       r = (Some (os_path_join "youtube_videos"
                               (sanitize_filename ttl ++ ".mp4")),
            Some (sanitize_filename ttl)) /\
       os_path_join "youtube_videos" (sanitize_filename ttl ++ ".mp4")
       = ("youtube_videos/" ++ sanitize_filename ttl ++ ".mp4")%string) /\
    (forall e, download_raises w url e -> r = (None, None)) /\
    (forall yt l,
       youtube w url = Ok yt -> streams yt = Ok l ->
       StreamQuery.select_stream l = None -> r = (None, None)) /\
    (forall ttl,
       transfer_returns w url ttl ->
       path_exists w (exists_calls s' - 1) (download_path ttl) = false ->
       r = (None, None)) /\
    (forall ttl,
       transfer_returns w url ttl ->
       path_exists w (exists_calls s' - 1) (download_path ttl) = true ->
       r = (Some (os_path_join "youtube_videos"
                               (sanitize_filename ttl ++ ".mp4")),
            Some (sanitize_filename ttl)) /\
       r <> (None, None)).
Proof.
  pose proof (download_youtube_video_outcome w url s) as H.
  inversion H as
    [e Hr Heq
    |yt l Hy Hs Hv Heq
    |ttl k Htr Hp Hlast Heq
    |ttl k Htr Hp Hlast Heq];
    eexists; eexists; (split; [reflexivity|]).
  - split; [now left|]. split; [reflexivity|]. split; [reflexivity|].
    split; [reflexivity|].
    intros ttl Htr _. exfalso.
    eapply transfer_returns_not_raising; eassumption.
  - split; [now left|]. split; [reflexivity|]. split; [reflexivity|].
    split; [reflexivity|].
    intros ttl Htr _. exfalso.
    now apply (transfer_returns_selects w url ttl yt l Htr Hy Hs).
  - split; [now left|]. split; [reflexivity|]. split; [reflexivity|].
    split; [reflexivity|].
    intros ttl' Htr' Hpresent. exfalso.
    rewrite (transfer_returns_title w url ttl' ttl Htr' Htr) in Hpresent.
    cbn [touched exists_calls] in Hpresent.
    replace (exists_calls s + (k + 2) - 1) with (exists_calls s + k + 1)
      in Hpresent by lia.
    congruence.
  - split.
    + right. destruct Htr as [yt l v ttl Hy Hs Hv Ht Hd].
      exists yt, ttl. repeat split; try assumption.
      apply download_path_join.
    + split; [|split; [|split]].
      * intros e He. exfalso.
        eapply transfer_returns_not_raising; eassumption.
      * intros yt l Hy Hs Hv. exfalso.
        now apply (transfer_returns_selects w url ttl yt l Htr Hy Hs).
      * intros ttl' Htr' Habs. exfalso.
        rewrite (transfer_returns_title w url ttl' ttl Htr' Htr) in Habs.
        cbn [touched exists_calls] in Habs.
        replace (exists_calls s + (k + 2) - 1) with (exists_calls s + k + 1)
          in Habs by lia.
        congruence.
      * intros ttl' Htr' _.
        rewrite (transfer_returns_title w url ttl' ttl Htr' Htr).
        split; [reflexivity | discriminate].
Qed.

(** In [world_fine] the transfer returns and the file is there: the run
    returns the path and the name, with the forbidden characters of the
    title removed. *)
Lemma download_returns_none_pair_or_path_witness :
  exists r s',
    download_youtube_video world_fine "https://youtu.be/abc" initial_state
    = (Ok r, s') /\
    r = (Some "youtube_videos/My Video.mp4"%string, Some "My Video"%string).
Proof.
  destruct (download_returns_none_pair_or_path
              world_fine "https://youtu.be/abc" initial_state)
    as (r & s' & Hrun & _ & _ & _ & _ & Hpresent).
  exists r, s'. split; [exact Hrun|].
  destruct (Hpresent "My: Video?"%string) as [Hr _].
  - eapply transfer_ok; reflexivity.
  - reflexivity.
  - rewrite Hr. reflexivity.
Defined.

(** C5.  Every run of [download_youtube_video] sleeps at most ten times,
    one second each time, and asks at most twelve times whether the file
    exists.  When the transfer call returned and the file stays absent, it
    sleeps ten times, reports that the file was not created and returns
    [(None, None)], and the flow behind the button then returns no
    artifact and writes no segment. *)
Theorem download_poll_is_bounded (w : world) (url : string) (s : state) :
  exists r s' evs,
    download_youtube_video w url s = (Ok r, s') /\
    events s' = events s ++ evs /\
    (exists k,
       k <= 10 /\ sleeps evs = repeat (time_sleep 1) k /\
       exists_calls s' <= exists_calls s + k + 2) /\
    (forall ttl,
       transfer_returns w url ttl ->
       (forall n, exists_calls s <= n ->
                  path_exists w n (download_path ttl) = false) ->
       r = (None, None) /\
       sleeps evs = repeat (time_sleep 1) 10 /\
       In (st_error "Download failed - file not created") evs /\
       forall segment_duration,
         PyNum.truthy url = true ->
         process_video w url segment_duration s = (Ok [], s') /\
         written_windows evs = [] /\
         write_calls s' = write_calls s).
Proof.
  pose proof (download_youtube_video_outcome w url s) as H.
  inversion H as
    [e Hr Heq
    |yt l Hy Hs Hv Heq
    |ttl k Htr Hp Hlast Heq
    |ttl k Htr Hp Hlast Heq];
    eexists; eexists; eexists; (split; [reflexivity|]);
    (split; [reflexivity|]).
  - split; [exists 0; cbn; repeat split; lia|].
    intros ttl Htr _. exfalso.
    eapply transfer_returns_not_raising; eassumption.
  - split; [exists 0; cbn; repeat split; lia|].
    intros ttl Htr _. exfalso.
    now apply (transfer_returns_selects w url ttl yt l Htr Hy Hs).
  - split.
    + exists k. destruct Hp as [Hk _]. unfold max_attempts in Hk.
      split; [assumption|]. split; [|cbn; lia].
      cbn [sleeps filter is_sleep]. fold (sleeps (repeat (time_sleep 1) k ++ [st_error "Download failed - file not created"])).
      rewrite sleeps_repeat. cbn. now rewrite app_nil_r.
    + intros ttl' Htr' Habs.
      rewrite (transfer_returns_title w url ttl' ttl Htr' Htr) in Habs.
      rewrite (polled_absent w s _ k Hp Habs) in *.
      split; [reflexivity|]. split; [reflexivity|].
      split; [cbn; tauto|].
      intros sd Hurl. split; [|split; reflexivity].
      unfold process_video. rewrite Hurl. unfold bind.
      rewrite <- Heq. reflexivity.
  - split.
    + exists k. destruct Hp as [Hk _]. unfold max_attempts in Hk.
      split; [assumption|]. split; [|cbn; lia].
      cbn [sleeps filter is_sleep].
      rewrite <- (app_nil_r (repeat (time_sleep 1) k)) at 1.
      fold (sleeps (repeat (time_sleep 1) k ++ [])).
      rewrite sleeps_repeat. cbn. now rewrite app_nil_r.
    + intros ttl' Htr' Habs. exfalso.
      rewrite (transfer_returns_title w url ttl' ttl Htr' Htr) in Habs.
      rewrite Habs in Hlast by lia. discriminate.
Qed.

Example fine_download :
  fst (download_youtube_video world_fine "https://youtu.be/x" initial_state)
  = Ok (Some "youtube_videos/My Video.mp4", Some "My Video").
Proof. vm_compute. reflexivity. Qed.

Example adaptive_only_download :
  download_youtube_video world_adaptive_only "https://youtu.be/x" initial_state
  = (Ok (None, None),
     mkState [st_error "No suitable video stream found"] 0 0 [] None).
Proof. vm_compute. reflexivity. Qed.

Example never_flushed_run :
  download_youtube_video world_never_flushed "https://youtu.be/x" initial_state
  = (Ok (None, None),
     mkState (downloaded "youtube_videos" "My Video.mp4"
                :: repeat (time_sleep 1) 10
                ++ [st_error "Download failed - file not created"])
             12 0 [] None).
Proof. vm_compute. reflexivity. Qed.

Example never_flushed_process :
  fst (process_video world_never_flushed "https://youtu.be/x" 60%Q initial_state)
  = Ok [].
Proof. vm_compute. reflexivity. Qed.

Example fine_process :
  fst (process_video world_fine "https://youtu.be/x" 60%Q initial_state)
  = Ok ["trimmed_videos/My Video/part_1.mp4";
        "trimmed_videos/My Video/part_2.mp4";
        "trimmed_videos/My Video/part_3.mp4"].
Proof. vm_compute. reflexivity. Qed.

(** C10.  A title that is not empty and holds only characters of the class
    sanitizes to the empty string; when the transfer returns and the file
    is there, [download_youtube_video] does not reject it: the file name
    handed to the transfer is the bare extension, and the pair returned
    holds the path of that file and the empty name. *)
Theorem forbidden_title_gives_bare_extension
  (w : world) (url : string) (s : state) (ttl : string) :
  ttl <> EmptyString ->
  (forall c, In c (chars ttl) -> In c forbidden_chars) ->
  transfer_returns w url ttl ->
  (forall n, path_exists w n "youtube_videos/.mp4" = true) ->
  sanitize_filename ttl = EmptyString /\
  download_youtube_video w url s
  = (Ok (Some "youtube_videos/.mp4", Some EmptyString),
     touched s 2 [downloaded "youtube_videos" ".mp4"]).
Proof.
  intros _ Hall Htr Hex.
  pose proof (sanitize_all_forbidden ttl Hall) as Hname.
  split; [assumption|].
  assert (Hpath : download_path ttl = "youtube_videos/.mp4").
  { unfold download_path, download_name. now rewrite Hname. }
  assert (Hdn : download_name ttl = ".mp4").
  { unfold download_name. now rewrite Hname. }
  pose proof (download_youtube_video_outcome w url s) as H.
  inversion H as
    [e Hr Heq
    |yt l Hy Hs Hv Heq
    |ttl' k Htr' Hp Hlast Heq
    |ttl' k Htr' Hp Hlast Heq].
  - exfalso. eapply transfer_returns_not_raising; eassumption.
  - exfalso. now apply (transfer_returns_selects w url ttl yt l Htr Hy Hs).
  - exfalso.
    rewrite (transfer_returns_title w url ttl' ttl Htr' Htr), Hpath, Hex
      in Hlast.
    discriminate.
  - rewrite (transfer_returns_title w url ttl' ttl Htr' Htr) in *.
    rewrite Hpath in Hp.
    rewrite (polled_present w s _ k Hp (Hex _)).
    now rewrite Hpath, Hdn, Hname.
Qed.

(** C10: the title of [world_forbidden_title]. *)
Lemma forbidden_title_gives_bare_extension_witness :
  sanitize_filename "?*|<>" = EmptyString /\
  download_youtube_video world_forbidden_title "https://youtu.be/x"
                         initial_state
  = (Ok (Some "youtube_videos/.mp4", Some EmptyString),
     touched initial_state 2 [downloaded "youtube_videos" ".mp4"]).
Proof.
  apply (forbidden_title_gives_bare_extension world_forbidden_title
           "https://youtu.be/x" initial_state "?*|<>").
  - discriminate.
  - intros c Hc. cbn in Hc. unfold forbidden_chars. cbn.
    repeat (destruct Hc as [<-|Hc]; [tauto|]). contradiction.
  - eapply transfer_ok; reflexivity.
  - reflexivity.
Defined.

(** ** Stream selection *)

Module SelectionFacts.

Import StreamQuery.
Import Selection.

Lemma first_desc (l : list Stream) : first (desc l) = last_stream l.
Proof.
  unfold first, desc. induction l as [|x l IH]; [reflexivity|].
  cbn [rev]. destruct l as [|y l]; [reflexivity|].
  change (last_stream (x :: y :: l)) with (last_stream (y :: l)).
  rewrite <- IH.
  destruct (rev (y :: l)) as [|z r] eqn:E; [|reflexivity].
  apply (f_equal (@List.length Stream)) in E.
  rewrite length_rev in E. discriminate.
Qed.

Lemma insert_In (x y : Stream) (l : list Stream) :
  In y (insert x l) <-> y = x \/ In y l.
Proof.
  induction l as [|z l IH]; cbn; [intuition congruence|].
  destruct (key x <=? key z)%N; cbn; [intuition congruence|].
  rewrite IH. intuition congruence.
Qed.

Lemma insert_ascending (x : Stream) (l : list Stream) :
  ascending l -> ascending (insert x l).
Proof.
  unfold ascending. induction 1 as [|z l Hs IH Hall]; cbn.
  - repeat constructor.
  - destruct (key x <=? key z)%N eqn:E.
    + apply N.leb_le in E. constructor; [now constructor|].
      constructor; [assumption|].
      eapply Forall_impl; [|exact Hall]. cbn. intros a Ha. lia.
    + apply N.leb_gt in E. constructor; [assumption|].
      apply Forall_forall. intros a Ha. apply insert_In in Ha as [->|Ha].
      * lia.
      * rewrite Forall_forall in Hall. now apply Hall.
Qed.

Lemma sorted_ascending (l : list Stream) : ascending (sorted l).
Proof.
  induction l as [|x l IH]; cbn; [constructor | now apply insert_ascending].
Qed.

Lemma last_stream_In (l : list Stream) (b : Stream) :
  last_stream l = Some b -> In b l.
Proof.
  induction l as [|x l IH]; [discriminate|].
  destruct l as [|y l]; cbn [last_stream]; intros H.
  - injection H as ->. now left.
  - right. now apply IH.
Qed.

Lemma last_stream_cons (l : list Stream) (z : Stream) :
  last_stream (z :: l) <> None.
Proof.
  revert z. induction l as [|y l IH]; intros z; [discriminate|].
  change (last_stream (z :: y :: l)) with (last_stream (y :: l)). apply IH.
Qed.

Lemma insert_last (x : Stream) (l : list Stream) :
  ascending l ->
  last_stream (insert x l)
  = match last_stream l with
    | None => Some x
    | Some b => if (key b <? key x)%N then Some x else Some b
    end.
Proof.
  unfold ascending. induction 1 as [|z l Hs IH Hall]; [reflexivity|].
  cbn [insert]. destruct (key x <=? key z)%N eqn:E.
  - apply N.leb_le in E.
    change (last_stream (x :: z :: l)) with (last_stream (z :: l)).
    destruct (last_stream (z :: l)) as [b|] eqn:Hb;
      [|now apply last_stream_cons in Hb].
    assert (Hzb : (key z <= key b)%N).
    { apply last_stream_In in Hb as [->|Hb]; [lia|].
      rewrite Forall_forall in Hall. now apply Hall. }
    destruct (key b <? key x)%N eqn:E'; [|reflexivity].
    apply N.ltb_lt in E'. lia.
  - apply N.leb_gt in E.
    destruct l as [|y l].
    + cbn. apply N.ltb_lt in E. now rewrite E.
    + change (last_stream (z :: y :: l)) with (last_stream (y :: l)).
      rewrite <- IH. cbn [insert].
      destruct (key x <=? key y)%N; reflexivity.
Qed.

Lemma last_sorted (l : list Stream) : last_stream (sorted l) = best_of l.
Proof.
  induction l as [|x l IH]; [reflexivity|].
  cbn [sorted fold_right best_of].
  fold (sorted l). fold (best_of l).
  rewrite insert_last by apply sorted_ascending. now rewrite IH.
Qed.

Lemma select_stream_best (l : list Stream) :
  select_stream l = best_of (candidates l).
Proof.
  unfold select_stream, order_by_resolution. fold (candidates l).
  now rewrite first_desc, last_sorted.
Qed.

Lemma best_of_none (l : list Stream) : best_of l = None -> l = [].
Proof.
  destruct l as [|x l]; [reflexivity|]. cbn.
  destruct (fold_right _ None l) as [b|]; [|discriminate].
  destruct (key b <? key x)%N; discriminate.
Qed.

Lemma best_of_split (l : list Stream) (v : Stream) :
  best_of l = Some v ->
  exists before after,
    l = before ++ v :: after /\
    Forall (fun x => (key x <= key v)%N) before /\
    Forall (fun x => (key x < key v)%N) after.
Proof.
  revert v. induction l as [|x l IH]; intros v; [discriminate|].
  cbn [best_of fold_right]. fold (best_of l).
  destruct (best_of l) as [b|] eqn:Hb.
  - destruct (IH b eq_refl) as [before [after [Hl [Hbefore Hafter]]]].
    destruct (key b <? key x)%N eqn:E; intros H; injection H as <-.
    + apply N.ltb_lt in E. exists [], l. split; [reflexivity|].
      split; [constructor|]. rewrite Hl. apply Forall_app. split.
      * eapply Forall_impl; [|exact Hbefore]. cbn. intros a Ha. lia.
      * constructor; [assumption|].
        eapply Forall_impl; [|exact Hafter]. cbn. intros a Ha. lia.
    + apply N.ltb_ge in E. exists (x :: before), after.
      split; [now rewrite Hl|]. split; [|assumption].
      now constructor.
  - intros H. injection H as <-. apply best_of_none in Hb. subst l.
    exists [], []. repeat split; constructor.
Qed.

End SelectionFacts.

(** C7, as the code has it.  The stream selected is progressive, in the
    mp4 container, has a resolution and is one of the streams reported; no
    candidate has a higher resolution, and on a tie the candidate reported
    last is the one selected; nothing is selected exactly when there is no
    candidate; and when no stream reported is progressive and mp4,
    [download_youtube_video] reports that no suitable stream was found and
    returns [(None, None)]. *)
Theorem select_stream_highest_last (l : list Stream) :
  match StreamQuery.select_stream l with
  | Some v =>
      In v l /\ is_progressive v = true /\ subtype v = "mp4" /\
      resolution v <> None /\
      exists before after,
        Selection.candidates l = before ++ v :: after /\
        Forall (fun x => (StreamQuery.key x <= StreamQuery.key v)%N) before /\
        Forall (fun x => (StreamQuery.key x < StreamQuery.key v)%N) after
  | None => Selection.candidates l = []
  end /\
  ((forall x, In x l ->
      is_progressive x && String.eqb (subtype x) "mp4" = false) ->
   forall w url s yt,
     youtube w url = Ok yt -> streams yt = Ok l ->
     download_youtube_video w url s
     = (Ok (None, None),
        touched s 0 [st_error "No suitable video stream found"])).
Proof.
  split.
  - rewrite SelectionFacts.select_stream_best.
    destruct (Selection.best_of (Selection.candidates l)) as [v|] eqn:Hv.
    + destruct (SelectionFacts.best_of_split _ _ Hv)
        as [before [after [Hl [Hb Ha]]]].
      assert (Hin : In v (Selection.candidates l))
        by (rewrite Hl; apply in_or_app; right; now left).
      unfold Selection.candidates, StreamQuery.filter_progressive_mp4 in Hin.
      apply filter_In in Hin as [Hin Hres].
      apply filter_In in Hin as [Hin Hpm].
      apply andb_prop in Hpm as [Hp Hm]. apply String.eqb_eq in Hm.
      repeat split; try assumption.
      * intros Hnone. rewrite Hnone in Hres. discriminate.
      * now exists before, after.
    + now apply SelectionFacts.best_of_none.
  - intros Hnone w url s yt Hy Hs.
    assert (Hsel : StreamQuery.select_stream l = None).
    { rewrite SelectionFacts.select_stream_best.
      replace (Selection.candidates l) with (@nil Stream); [reflexivity|].
      unfold Selection.candidates, StreamQuery.filter_progressive_mp4.
      symmetry. replace (filter _ l) with (@nil Stream); [reflexivity|].
      symmetry. clear Hs. induction l as [|x l IH]; [reflexivity|].
      cbn. rewrite (Hnone x) by now left.
      apply IH. intros y Hy'. apply Hnone. now right. }
    pose proof (download_youtube_video_outcome w url s) as H.
    inversion H as
      [e Hr Heq
      |yt' l' Hy' Hs' Hv Heq
      |ttl k Htr Hp Hlast Heq
      |ttl k Htr Hp Hlast Heq].
    + exfalso. now apply (raising_selects w url e yt l Hr Hy Hs).
    + reflexivity.
    + exfalso. now apply (transfer_returns_selects w url ttl yt l Htr Hy Hs).
    + exfalso. now apply (transfer_returns_selects w url ttl yt l Htr Hy Hs).
Qed.

Example tie_selection :
  StreamQuery.select_stream
    [Selection.stream_720_a; mkStream 18 true "mp4" (Some 360%N);
     Selection.stream_720_b; mkStream 137 false "mp4" (Some 1080%N)]
  = Some Selection.stream_720_b.
Proof. reflexivity. Qed.

(** C7, as stated, fails on the tie: of two candidates at 720, the one
    reported second is selected. *)
Lemma tie_goes_to_the_last : ~ Selection.first_match_wins.
Proof.
  intros Hclaim.
  destruct (Hclaim [Selection.stream_720_a; Selection.stream_720_b]
              Selection.stream_720_b eq_refl)
    as [before [after [Hl [Hb _]]]].
  cbn in Hl.
  destruct before as [|x before].
  - discriminate Hl.
  - injection Hl as <- Hl. inversion Hb as [|? ? Hlt _]. cbn in Hlt. lia.
Qed.

(** * Further properties *)

(** ** Strings and paths *)

Section StringFacts.

Lemma chars_append (a b : string) :
  chars (a ++ b)%string = chars a ++ chars b.
Proof.
  unfold chars. induction a as [|c a IH]; cbn; [reflexivity | now rewrite IH].
Qed.

Lemma chars_inj (a b : string) : chars a = chars b -> a = b.
Proof.
  intros H. rewrite <- (string_of_list_ascii_of_string a),
    <- (string_of_list_ascii_of_string b).
  unfold chars in H. now rewrite H.
Qed.

Lemma append_inv_head (p a b : string) :
  (p ++ a)%string = (p ++ b)%string -> a = b.
Proof.
  intros H. apply chars_inj. apply (f_equal chars) in H.
  rewrite !chars_append in H. now apply app_inv_head in H.
Qed.

Lemma append_inv_tail (a b t : string) :
  (a ++ t)%string = (b ++ t)%string -> a = b.
Proof.
  intros H. apply chars_inj. apply (f_equal chars) in H.
  rewrite !chars_append in H. now apply app_inv_tail in H.
Qed.

Lemma append_assoc (a b c : string) :
  ((a ++ b) ++ c)%string = (a ++ (b ++ c))%string.
Proof. induction a as [|x a IH]; cbn; [reflexivity | now rewrite IH]. Qed.

Lemma append_empty_r (a : string) : (a ++ EmptyString)%string = a.
Proof. induction a as [|x a IH]; cbn; [reflexivity | now rewrite IH]. Qed.

Lemma to_uint_nonnil (n : nat) : Nat.to_uint n <> Decimal.Nil.
Proof.
  rewrite <- (DecimalNat.Unsigned.of_to n) at 1.
  rewrite DecimalNat.Unsigned.to_of. apply DecimalFacts.unorm_nonnil.
Qed.

Lemma str_of_nat_inj (n m : nat) : str_of_nat n = str_of_nat m -> n = m.
Proof.
  unfold str_of_nat. intros H.
  apply (f_equal NilZero.uint_of_string) in H.
  rewrite !NilZero.usu in H by apply to_uint_nonnil. injection H as H.
  apply (f_equal Nat.of_uint) in H.
  now rewrite !DecimalNat.Unsigned.of_to in H.
Qed.

Lemma endswith_char_append (a : string) (c d : ascii) (b : string) :
  endswith_char (a ++ String c b) d = endswith_char (String c b) d.
Proof.
  induction a as [|x a IH]; [reflexivity|].
  cbn [append]. destruct (a ++ String c b)%string eqn:E.
  - destruct a; discriminate.
  - rewrite <- IH. reflexivity.
Qed.

Lemma endswith_char_In (s : string) (c : ascii) :
  endswith_char s c = true -> In c (chars s).
Proof.
  induction s as [|x s IH]; [discriminate|].
  destruct s as [|y s].
  - cbn. intros H. apply Ascii.eqb_eq in H. now left.
  - intros H. right. now apply IH.
Qed.

Lemma sanitized_no_slash (s : string) :
  ~ In "/"%char (chars (sanitize_filename s)).
Proof.
  intros H. rewrite sanitize_chars in H. apply filter_In in H as [_ H].
  discriminate.
Qed.

End StringFacts.

(** X1.  Sanitizing a concatenation is concatenating the sanitized
    parts. *)
Theorem sanitize_filename_append (a b : string) :
  sanitize_filename (a ++ b)
  = (sanitize_filename a ++ sanitize_filename b)%string.
Proof.
  induction a as [|c a IH]; [reflexivity|].
  cbn [append sanitize_filename].
  destruct (is_forbidden c); cbn [append]; now rewrite IH.
Qed.

(** X2.  Two titles get the same sanitized name exactly when they agree
    once the characters of the class are left out, and they get the same
    download path exactly when they get the same sanitized name. *)
Theorem titles_collide_iff (t1 t2 : string) :
  (sanitize_filename t1 = sanitize_filename t2 <->
   filter (fun c => negb (is_forbidden c)) (chars t1)
   = filter (fun c => negb (is_forbidden c)) (chars t2)) /\
  (download_path t1 = download_path t2 <->
   sanitize_filename t1 = sanitize_filename t2).
Proof.
  split; split.
  - intros H. now rewrite <- !sanitize_chars, H.
  - intros H. apply chars_inj. now rewrite !sanitize_chars.
  - unfold download_path, download_name. rewrite !download_path_join.
    intros H. apply append_inv_head in H. now apply append_inv_tail in H.
  - unfold download_path, download_name. now intros ->.
Qed.

Lemma part_name_not_absolute (i : nat) :
  startswith_char ("part_" ++ str_of_nat (i + 1) ++ ".mp4") "/" = false.
Proof. reflexivity. Qed.

Lemma segment_path_inj (od : string) (i j : nat) :
  segment_path od i = segment_path od j -> i = j.
Proof.
  unfold segment_path, os_path_join.
  rewrite !part_name_not_absolute.
  destruct (String.eqb od EmptyString || endswith_char od "/")%bool;
    intros H.
  - apply append_inv_head in H. cbn in H. injection H as H.
    apply append_inv_tail in H. apply str_of_nat_inj in H. lia.
  - apply append_inv_head in H. cbn in H. injection H as H.
    apply append_inv_tail in H. apply str_of_nat_inj in H. lia.
Qed.

(** X3.  The output paths of the segments of one run are pairwise
    distinct, whatever the output directory and the number of
    segments. *)
Theorem segment_paths_distinct (od : string) (n : nat) :
  NoDup (map (segment_path od) (seq 0 n)).
Proof.
  generalize 0 as a. induction n as [|n IH]; intros a; cbn [seq map].
  - constructor.
  - constructor; [|apply IH].
    intros Hin. apply in_map_iff in Hin as [j [Hj Hin]].
    apply segment_path_inj in Hj. apply in_seq in Hin. lia.
Qed.

Lemma startswith_char_In (s : string) (c : ascii) :
  startswith_char s c = true -> In c (chars s).
Proof.
  destruct s as [|d s]; [discriminate|]. cbn.
  intros H. apply Ascii.eqb_eq in H. now left.
Qed.

Lemma output_dir_of_join (f : string) :
  output_dir_of f = ("trimmed_videos/" ++ sanitize_filename f)%string.
Proof.
  unfold output_dir_of, os_path_join.
  destruct (startswith_char (sanitize_filename f) "/") eqn:E; [|reflexivity].
  apply startswith_char_In in E. now apply sanitized_no_slash in E.
Qed.

(** X4.  The file of segment [k + 1] of a video named [f] is
    [part_(k+1).mp4] in the directory [trimmed_videos/<sanitized f>]; when
    the sanitized name is empty the file lies in [trimmed_videos]
    itself. *)
Theorem segment_path_layout (f : string) (k : nat) :
  segment_path (output_dir_of f) k
  = ("trimmed_videos/" ++ sanitize_filename f
       ++ (if PyNum.truthy (sanitize_filename f) then "/" else EmptyString)
       ++ "part_" ++ str_of_nat (k + 1) ++ ".mp4")%string.
Proof.
  rewrite output_dir_of_join. unfold segment_path, os_path_join.
  rewrite part_name_not_absolute.
  destruct (sanitize_filename f) as [|c r] eqn:E; [reflexivity|].
  cbn [PyNum.truthy]. change (String.eqb _ EmptyString) with false.
  cbn [orb].
  rewrite (endswith_char_append "trimmed_videos/" c "/" r).
  destruct (endswith_char (String c r) "/") eqn:Hend.
  - apply endswith_char_In in Hend. rewrite <- E in Hend.
    now apply sanitized_no_slash in Hend.
  - now rewrite !append_assoc.
Qed.

(** ** [os.path.basename] *)

Section Basename.

Import Posix.

Lemma rfind_absent (b : string) (c : ascii) :
  ~ In c (chars b) -> rfind b c = (-1)%Z.
Proof.
  induction b as [|d b IH]; [reflexivity|]. cbn. intros H.
  rewrite IH by tauto. cbn.
  destruct (Ascii.eqb d c) eqn:E; [|reflexivity].
  apply Ascii.eqb_eq in E. exfalso. apply H. now left.
Qed.

Lemma rfind_last (a b : string) (c : ascii) :
  ~ In c (chars b) ->
  rfind (a ++ String c b) c = Z.of_nat (String.length a).
Proof.
  intros Hb. induction a as [|d a IH].
  - cbn. rewrite (rfind_absent b c Hb). cbn. now rewrite Ascii.eqb_refl.
  - cbn [append rfind String.length]. rewrite IH.
    destruct (0 <=? Z.of_nat (String.length a))%Z eqn:E; [lia|].
    apply Z.leb_gt in E. lia.
Qed.

Lemma slice_from_append (a b : string) (c : ascii) :
  slice_from (String.length a + 1) (a ++ String c b) = b.
Proof. induction a as [|d a IH]; [reflexivity | exact IH]. Qed.

Lemma basename_after_separator (a b : string) :
  ~ In "/"%char (chars b) ->
  os_path_basename (a ++ String "/" b) = b.
Proof.
  intros Hb. unfold os_path_basename. rewrite (rfind_last a b "/" Hb).
  replace (Z.to_nat (Z.of_nat (String.length a) + 1))
    with (String.length a + 1) by lia.
  apply slice_from_append.
Qed.

Lemma basename_plain (b : string) :
  ~ In "/"%char (chars b) -> os_path_basename b = b.
Proof.
  intros Hb. unfold os_path_basename. now rewrite (rfind_absent b "/" Hb).
Qed.

Lemma endswith_char_split (a : string) (c : ascii) :
  endswith_char a c = true ->
  exists a', a = (a' ++ String c EmptyString)%string.
Proof.
  induction a as [|d a IH]; [discriminate|].
  destruct a as [|e a].
  - cbn. intros H. apply Ascii.eqb_eq in H. subst d. now exists EmptyString.
  - intros H. destruct (IH H) as [a' Ha']. exists (String d a').
    cbn [append]. now rewrite <- Ha'.
Qed.

Lemma no_slash_In (b : string) :
  forallb (fun c => negb (Ascii.eqb c "/")) (chars b) = true ->
  ~ In "/"%char (chars b).
Proof.
  intros H Hin. rewrite forallb_forall in H. specialize (H _ Hin).
  discriminate.
Qed.

End Basename.

(** The base name of the join of a directory with a name that holds no
    slash is that name. *)
Lemma basename_join_no_slash (a b : string) :
  forallb (fun c => negb (Ascii.eqb c "/")) (chars b) = true ->
  Posix.os_path_basename (os_path_join a b) = b.
Proof.
  intros Hb. apply no_slash_In in Hb. unfold os_path_join.
  destruct (startswith_char b "/") eqn:Hs.
  { apply startswith_char_In in Hs. contradiction. }
  destruct (String.eqb a EmptyString) eqn:Ha; cbn [orb].
  { apply String.eqb_eq in Ha. subst a. now apply basename_plain. }
  destruct (endswith_char a "/") eqn:He.
  - apply endswith_char_split in He as [a' ->].
    rewrite append_assoc. cbn [append].
    now apply basename_after_separator.
  - cbn [append]. now apply basename_after_separator.
Qed.

(** ** Base64 *)

Section Base64Facts.

Import Base64.

(** Lists three elements at a time. *)
Lemma list_ind3 {A} (P : list A -> Prop) :
  P [] -> (forall a, P [a]) -> (forall a b, P [a; b]) ->
  (forall a b c l, P l -> P (a :: b :: c :: l)) ->
  forall l, P l.
Proof.
  intros H0 H1 H2 H3 l.
  assert (H : P l /\ (forall a, P (a :: l)) /\ (forall a b, P (a :: b :: l))).
  { induction l as [|x l [IH0 [IH1 IH2]]]; [now auto|].
    split; [apply IH1|]. split; [intros a; apply IH2|].
    intros a b. now apply H3. }
  apply H.
Qed.

Lemma digit_cases (n : N) : In (digit n) alphabet \/ digit n = pad.
Proof.
  unfold digit. destruct (nth_in_or_default (N.to_nat n) alphabet pad);
    [now left | now right].
Qed.

Lemma digit_is_b64_char (n : N) : is_b64_char (digit n) = true.
Proof.
  unfold is_b64_char. apply existsb_exists. exists (digit n).
  split; [|apply Ascii.eqb_refl].
  destruct (digit_cases n) as [H| ->]; [now right | now left].
Qed.

Lemma value_digit (n : N) : (n < 64)%N -> value (digit n) = Some n.
Proof.
  intros Hn.
  assert (Hall : forallb (fun k => match value (digit (N.of_nat k)) with
                                   | Some v => N.eqb v (N.of_nat k)
                                   | None => false
                                   end) (seq 0 64) = true)
    by (vm_compute; reflexivity).
  rewrite forallb_forall in Hall.
  specialize (Hall (N.to_nat n)). rewrite Nnat.N2Nat.id in Hall.
  destruct (value (digit n)) as [v|].
  - f_equal. apply N.eqb_eq. apply Hall. apply in_seq. lia.
  - discriminate Hall. apply in_seq. lia.
Qed.

Lemma digit_not_quote (n : N) : Ascii.eqb (digit n) dquote = false.
Proof.
  destruct (Ascii.eqb (digit n) dquote) eqn:E; [|reflexivity].
  apply Ascii.eqb_eq in E.
  destruct (digit_cases n) as [H|H]; rewrite E in H.
  - cbn in H. repeat (destruct H as [H|H]; [discriminate|]). contradiction.
  - discriminate.
Qed.

Lemma value_pad : value pad = None.
Proof. reflexivity. Qed.

Lemma byte_bound (b : Byte.byte) : (Byte.to_N b < 256)%N.
Proof. pose proof (Byte.to_N_bounded b). lia. Qed.

End Base64Facts.

Section Base64Arith.

Local Open Scope N_scope.

Lemma sextets_bound (n0 n1 n2 : N) :
  n0 < 256 -> n1 < 256 -> n2 < 256 ->
  n0 / 4 < 64 /\ n0 mod 4 * 16 + n1 / 16 < 64 /\
  n1 mod 16 * 4 + n2 / 64 < 64 /\ n2 mod 64 < 64 /\
  n0 mod 4 * 16 < 64 /\ n1 mod 16 * 4 < 64.
Proof.
  intros. repeat split; zify; Z.to_euclidean_division_equations; lia.
Qed.

Lemma sextets_back (n0 n1 n2 : N) :
  n0 < 256 -> n1 < 256 -> n2 < 256 ->
  n0 / 4 * 4 + (n0 mod 4 * 16 + n1 / 16) / 16 = n0 /\
  (n0 mod 4 * 16 + n1 / 16) mod 16 * 16 + (n1 mod 16 * 4 + n2 / 64) / 4 = n1 /\
  (n1 mod 16 * 4 + n2 / 64) mod 4 * 64 + n2 mod 64 = n2 /\
  n0 / 4 * 4 + (n0 mod 4 * 16) / 16 = n0 /\
  (n0 mod 4 * 16 + n1 / 16) mod 16 * 16 + (n1 mod 16 * 4) / 4 = n1.
Proof.
  intros. repeat split; zify; Z.to_euclidean_division_equations; lia.
Qed.

End Base64Arith.

(** The encoding holds no double quote. *)
Lemma b64encode_no_quote (data : list Byte.byte) :
  Html.occurrences dquote (Base64.b64encode data) = 0.
Proof.
  induction data as [| a | a b | a b c l IH] using list_ind3;
    cbn [Base64.b64encode Html.occurrences];
    rewrite ?digit_not_quote, ?IH; reflexivity.
Qed.

(** X6.  The encoding has four characters for every group of three
    bytes, the last group counted when it is partial, and every character
    is a digit of the alphabet or the padding sign. *)
Theorem b64encode_shape (data : list Byte.byte) :
  String.length (Base64.b64encode data) = 4 * ((List.length data + 2) / 3) /\
  forallb Base64.is_b64_char (chars (Base64.b64encode data)) = true.
Proof.
  induction data as [| a | a b | a b c l [IHlen IHchars]] using list_ind3.
  - split; reflexivity.
  - split; [reflexivity|].
    cbn [Base64.b64encode chars list_ascii_of_string forallb].
    now rewrite !digit_is_b64_char.
  - split; [reflexivity|].
    cbn [Base64.b64encode chars list_ascii_of_string forallb].
    now rewrite !digit_is_b64_char.
  - split.
    + cbn [Base64.b64encode String.length List.length]. rewrite IHlen.
      replace (S (S (S (List.length l))) + 2)
        with ((List.length l + 2) + 1 * 3) by lia.
      rewrite Nat.div_add by lia. lia.
    + cbn [Base64.b64encode chars list_ascii_of_string forallb].
      rewrite !digit_is_b64_char. exact IHchars.
Qed.

(** X7.  Decoding the encoding gives the bytes back, so two files with the
    same encoding have the same bytes. *)
Theorem b64decode_b64encode (data : list Byte.byte) :
  Base64.b64decode (Base64.b64encode data) = Some data /\
  (forall data',
     Base64.b64encode data' = Base64.b64encode data -> data' = data).
Proof.
  assert (Hround : forall d, Base64.b64decode (Base64.b64encode d) = Some d).
  { induction d as [| a | a b | a b c l IH] using list_ind3.
    - reflexivity.
    - pose proof (byte_bound a) as Ha.
      destruct (sextets_bound _ _ _ Ha Ha Ha) as [B0 [_ [_ [_ [B1 _]]]]].
      destruct (sextets_back _ _ _ Ha Ha Ha) as [_ [_ [_ [E0 _]]]].
      cbn [Base64.b64encode Base64.b64decode].
      rewrite (value_digit _ B0), (value_digit _ B1), value_pad.
      rewrite Ascii.eqb_refl. cbn [andb String.eqb].
      now rewrite E0, Byte.of_to_N.
    - pose proof (byte_bound a) as Ha. pose proof (byte_bound b) as Hb.
      destruct (sextets_bound _ _ _ Ha Hb Hb) as [B0 [B1 [_ [_ [_ B2]]]]].
      destruct (sextets_back _ _ _ Ha Hb Hb) as [E0 [_ [_ [_ E1]]]].
      cbn [Base64.b64encode Base64.b64decode].
      rewrite (value_digit _ B0), (value_digit _ B1), (value_digit _ B2),
        value_pad.
      rewrite Ascii.eqb_refl. cbn [andb String.eqb].
      now rewrite E0, E1, !Byte.of_to_N.
    - pose proof (byte_bound a) as Ha. pose proof (byte_bound b) as Hb.
      pose proof (byte_bound c) as Hc.
      destruct (sextets_bound _ _ _ Ha Hb Hc) as [B0 [B1 [B2 [B3 _]]]].
      destruct (sextets_back _ _ _ Ha Hb Hc) as [E0 [E1 [E2 _]]].
      cbn [Base64.b64encode Base64.b64decode].
      rewrite (value_digit _ B0), (value_digit _ B1), (value_digit _ B2),
        (value_digit _ B3).
      now rewrite E0, E1, E2, !Byte.of_to_N, IH. }
  split; [apply Hround|].
  intros data' H. apply (f_equal Base64.b64decode) in H.
  rewrite !Hround in H. now injection H.
Qed.

(** ** The download link *)

Section Digits.

Lemma uint_chars_digits (d : Decimal.uint) :
  Forall (fun c => In c (chars "0123456789"))
         (chars (NilEmpty.string_of_uint d)).
Proof.
  induction d; cbn; constructor; try assumption; cbn; tauto.
Qed.

Lemma str_of_nat_digits (n : nat) :
  Forall (fun c => In c (chars "0123456789")) (chars (str_of_nat n)).
Proof.
  unfold str_of_nat, NilZero.string_of_uint.
  destruct (Nat.to_uint n) eqn:E; try (rewrite <- E; apply uint_chars_digits).
  repeat constructor.
Qed.

Lemma str_of_nat_without (n : nat) (c : ascii) :
  ~ In c (chars "0123456789") -> ~ In c (chars (str_of_nat n)).
Proof.
  intros Hc Hin. pose proof (str_of_nat_digits n) as H.
  rewrite Forall_forall in H. now apply Hc, H.
Qed.

Lemma occurrences_append (c : ascii) (a b : string) :
  Html.occurrences c (a ++ b)
  = Html.occurrences c a + Html.occurrences c b.
Proof.
  induction a as [|d a IH]; [reflexivity|].
  cbn [append Html.occurrences]. rewrite IH. lia.
Qed.

Lemma occurrences_absent (c : ascii) (s : string) :
  ~ In c (chars s) -> Html.occurrences c s = 0.
Proof.
  induction s as [|d s IH]; [reflexivity|]. cbn. intros H.
  rewrite IH by tauto.
  destruct (Ascii.eqb d c) eqn:E; [|reflexivity].
  apply Ascii.eqb_eq in E. exfalso. apply H. now left.
Qed.

Lemma part_name_chars (i : nat) (c : ascii) :
  ~ In c (chars "part_.mp40123456789") ->
  ~ In c (chars ("part_" ++ str_of_nat (i + 1) ++ ".mp4")).
Proof.
  intros Hc Hin. rewrite !chars_append in Hin.
  apply in_app_or in Hin as [Hin|Hin].
  - apply Hc. cbn in *. tauto.
  - apply in_app_or in Hin as [Hin|Hin].
    + revert Hin. apply str_of_nat_without. intros H. apply Hc.
      cbn in *. tauto.
    + apply Hc. cbn in *. tauto.
Qed.

Lemma part_name_no_slash (i : nat) :
  forallb (fun c => negb (Ascii.eqb c "/"))
          (chars ("part_" ++ str_of_nat (i + 1) ++ ".mp4")) = true.
Proof.
  apply forallb_forall. intros c Hc.
  destruct (Ascii.eqb c "/") eqn:E; [|reflexivity].
  apply Ascii.eqb_eq in E. subst c. exfalso. revert Hc.
  apply part_name_chars. cbn. intros H.
  repeat (destruct H as [H|H]; [discriminate|]). exact H.
Qed.

Lemma segment_basename (od : string) (i : nat) :
  Posix.os_path_basename (segment_path od i)
  = ("part_" ++ str_of_nat (i + 1) ++ ".mp4")%string.
Proof. apply basename_join_no_slash. apply part_name_no_slash. Qed.

Lemma download_name_no_slash (ttl : string) :
  forallb (fun c => negb (Ascii.eqb c "/")) (chars (download_name ttl)) = true.
Proof.
  apply forallb_forall. intros c Hc.
  destruct (Ascii.eqb c "/") eqn:E; [|reflexivity].
  apply Ascii.eqb_eq in E. subst c. exfalso.
  unfold download_name in Hc. rewrite chars_append in Hc.
  apply in_app_or in Hc as [Hc|Hc].
  - now apply sanitized_no_slash in Hc.
  - cbn in Hc. repeat (destruct Hc as [Hc|Hc]; [discriminate|]). exact Hc.
Qed.

End Digits.

(** X5.  The base name of the join of a directory with a name that holds
    no slash is that name; so the base name of the path of segment
    [i + 1] is [part_(i+1).mp4] and the base name of the download path of
    a title is its sanitized name with the extension. *)
Theorem basename_of_join :
  (forall a b,
     forallb (fun c => negb (Ascii.eqb c "/")) (chars b) = true ->
     Posix.os_path_basename (os_path_join a b) = b) /\
  (forall od i,
     Posix.os_path_basename (segment_path od i)
     = ("part_" ++ str_of_nat (i + 1) ++ ".mp4")%string) /\
  (forall ttl,
     Posix.os_path_basename (download_path ttl)
     = (sanitize_filename ttl ++ ".mp4")%string).
Proof.
  split; [exact basename_join_no_slash|]. split.
  - exact segment_basename.
  - intros ttl. unfold download_path.
    apply basename_join_no_slash, download_name_no_slash.
Qed.

(** X8.  For the path of a segment whose file can be read, the link names
    the file [part_(i+1).mp4] in its download attribute and carries the
    encoding of the bytes read; when the label holds no double quote, the
    link holds the six double quotes of its three attributes and no
    other. *)
Theorem segment_link
  (open_rb : string -> result (list Byte.byte)) (od : string) (i : nat)
  (data : list Byte.byte) (label : string) :
  open_rb (segment_path od i) = Ok data ->
  Html.occurrences dquote label = 0 ->
  exists html,
    Html.get_binary_file_downloader_html open_rb (segment_path od i) label
    = Ok html /\
    html = Html.anchor (Base64.b64encode data)
                       ("part_" ++ str_of_nat (i + 1) ++ ".mp4") label /\
    Html.occurrences dquote html = 6.
Proof.
  intros Hread Hlabel. eexists. split; [|split; [reflexivity|]].
  - unfold Html.get_binary_file_downloader_html.
    now rewrite Hread, segment_basename.
  - unfold Html.anchor. rewrite !occurrences_append, Hlabel.
    rewrite b64encode_no_quote.
    rewrite (occurrences_absent dquote (str_of_nat (i + 1))).
    + reflexivity.
    + apply str_of_nat_without. cbn. intros H.
      repeat (destruct H as [H|H]; [discriminate|]). exact H.
Qed.

(** X8: the second segment of a directory, three bytes long. *)
Lemma segment_link_witness :
  exists html,
    Html.get_binary_file_downloader_html
      (fun _ => Ok [Byte.x4d; Byte.x61; Byte.x6e])
      (segment_path "trimmed_videos/v" 1) "Part 2"
    = Ok html /\
    html = Html.anchor (Base64.b64encode [Byte.x4d; Byte.x61; Byte.x6e])
                       ("part_" ++ str_of_nat (1 + 1) ++ ".mp4") "Part 2" /\
    Html.occurrences dquote html = 6.
Proof.
  apply (segment_link (fun _ => Ok [Byte.x4d; Byte.x61; Byte.x6e])
           "trimmed_videos/v" 1 [Byte.x4d; Byte.x61; Byte.x6e] "Part 2");
    reflexivity.
Defined.

(** ** The gallery *)

Section GalleryFacts.

Import Gallery.

Lemma for_each_pure {A} (f : A -> list widget) (body : A -> W unit)
  (l : list A) :
  (forall x, In x l -> body x = (f x, Ok tt)) ->
  for_each l body = (flat_map f l, Ok tt).
Proof.
  induction l as [|x l IH]; intros H; [reflexivity|].
  cbn [for_each flat_map]. rewrite (H x) by now left.
  unfold wbind. rewrite IH; [reflexivity|].
  intros y Hy. apply H. now right.
Qed.

Lemma flat_map_map {A B C} (g : A -> B) (f : B -> list C) (l : list A) :
  flat_map f (map g l) = flat_map (fun x => f (g x)) l.
Proof. induction l as [|x l IH]; cbn; [reflexivity | now rewrite IH]. Qed.

Lemma flat_map_singleton {A B} (h : A -> B) (l : list A) :
  flat_map (fun x => [h x]) l = map h l.
Proof. induction l as [|x l IH]; cbn; [reflexivity | now rewrite IH]. Qed.

Lemma flat_map_ext_in {A B} (f g : A -> list B) (l : list A) :
  (forall x, In x l -> f x = g x) -> flat_map f l = flat_map g l.
Proof.
  induction l as [|x l IH]; intros H; [reflexivity|].
  cbn. rewrite (H x) by now left. rewrite IH; [reflexivity|].
  intros y Hy. apply H. now right.
Qed.

(** Reading two by two is reading one by one. *)
Lemma pairs_cover {A} (g : nat -> list A) (n : nat) :
  (forall k, n <= k -> g k = []) ->
  flat_map (fun r => g (r * 2) ++ g (r * 2 + 1)) (seq 0 ((n + 1) / 2))
  = flat_map g (seq 0 n).
Proof.
  intros Hg.
  assert (Hpairs : forall R,
             flat_map (fun r => g (r * 2) ++ g (r * 2 + 1)) (seq 0 R)
             = flat_map g (seq 0 (R * 2))).
  { induction R as [|R IH]; [reflexivity|].
    rewrite seq_S, flat_map_app, IH. cbn [flat_map Nat.add].
    replace (S R * 2) with (S (S (R * 2))) by lia.
    rewrite !seq_S, !flat_map_app. cbn [flat_map Nat.add].
    rewrite !app_nil_r, <- app_assoc.
    now replace (R * 2 + 1) with (S (R * 2)) by lia. }
  rewrite Hpairs.
  destruct (Nat.even n) eqn:E.
  - apply Nat.even_spec in E as [m ->].
    replace ((2 * m + 1) / 2 * 2) with (2 * m); [reflexivity|].
    replace (2 * m + 1) with (1 + m * 2) by lia.
    rewrite Nat.div_add by lia. cbn. lia.
  - assert (Hodd : Nat.odd n = true) by (unfold Nat.odd; now rewrite E).
    apply Nat.odd_spec in Hodd as [m ->].
    replace ((2 * m + 1 + 1) / 2 * 2) with (S (2 * m + 1)).
    + rewrite seq_S, flat_map_app. cbn [flat_map Nat.add].
      rewrite (Hg (2 * m + 1)) by lia. now rewrite !app_nil_r.
    + replace (2 * m + 1 + 1) with (0 + (m + 1) * 2) by lia.
      rewrite Nat.div_add by lia. cbn. lia.
Qed.

Lemma videos_of_app (a b : list widget) :
  videos_of (a ++ b) = videos_of a ++ videos_of b.
Proof.
  induction a as [|x a IH]; [reflexivity|]. destruct x; cbn; now rewrite ?IH.
Qed.

Lemma links_of_app (a b : list widget) :
  links_of (a ++ b) = links_of a ++ links_of b.
Proof.
  induction a as [|x a IH]; [reflexivity|]. destruct x; cbn; now rewrite ?IH.
Qed.

Lemma captions_of_app (a b : list widget) :
  captions_of (a ++ b) = captions_of a ++ captions_of b.
Proof.
  induction a as [|x a IH]; [reflexivity|]. destruct x; cbn; now rewrite ?IH.
Qed.

Lemma reading_flat_map {A B} (read : list widget -> list B)
  (f : A -> list widget) (l : list A) :
  read [] = [] ->
  (forall a b, read (a ++ b) = read a ++ read b) ->
  read (flat_map f l) = flat_map (fun x => read (f x)) l.
Proof.
  intros Hnil Happ. induction l as [|x l IH]; [exact Hnil|].
  cbn [flat_map]. now rewrite Happ, IH.
Qed.

Lemma map_nth_seq {A} (l : list A) (d : A) :
  map (fun k => nth k l d) (seq 0 (List.length l)) = l.
Proof.
  induction l as [|a l IH]; [reflexivity|].
  cbn [List.length seq map nth]. f_equal.
  rewrite <- seq_shift, map_map. exact IH.
Qed.

Variable open_rb : string -> result (list Byte.byte).
Variable paths : list string.
Variable sd : Z.

Hypothesis readable :
  forall p, In p paths -> exists data, open_rb p = Ok data.

Let n := List.length paths.
Let cap := ("Duration: " ++ str_of_Z sd ++ " seconds")%string.

(** The link of the segment of index [k]. *)
Let link (k : nat) : string :=
  match open_rb (nth k paths EmptyString) with
  | Ok data =>
      Html.anchor (Base64.b64encode data)
                  (Posix.os_path_basename (nth k paths EmptyString))
                  ("Part " ++ str_of_nat (k + 1))
  | Raise _ => EmptyString
  end.

(** What the gallery shows for the segment of index [k]. *)
Let shown (k : nat) : list widget :=
  if Nat.ltb k n then
    [st_video (k mod 2) (nth k paths EmptyString);
     st_markdown (k mod 2) (link k);
     col_write (k mod 2) cap]
  else [].

Lemma gallery_cell_shown (r j : nat) :
  j < 2 ->
  (r * 2 + j < n ->
   exists data, open_rb (nth (r * 2 + j) paths EmptyString) = Ok data) ->
  gallery_cell open_rb paths sd (r * 2) j = (shown (r * 2 + j), Ok tt).
Proof.
  intros Hj Hread. unfold gallery_cell, shown. fold n.
  destruct (Nat.ltb (r * 2 + j) n) eqn:E; [|reflexivity].
  apply Nat.ltb_lt in E.
  assert (Hmod : (r * 2 + j) mod 2 = j).
  { rewrite Nat.add_comm, Nat.Div0.mod_add. now apply Nat.mod_small. }
  destruct (nth_error paths (r * 2 + j)) as [p|] eqn:Hp.
  2:{ apply nth_error_None in Hp. fold n in Hp. lia. }
  assert (Hnth : nth (r * 2 + j) paths EmptyString = p)
    by now apply nth_error_nth.
  destruct (Hread E) as [data Hdata]. rewrite Hnth in Hdata.
  unfold item, link. rewrite Hp, Hnth, Hmod.
  unfold wbind, st_video_call, put, wlift, wret, cap,
    Html.get_binary_file_downloader_html.
  rewrite Hdata. reflexivity.
Qed.

Lemma gallery_cell_raises (r j : nat) (p : string) (e : exn) :
  j < 2 ->
  nth_error paths (r * 2 + j) = Some p ->
  open_rb p = Raise e ->
  gallery_cell open_rb paths sd (r * 2) j
  = ([], Raise (media_file_storage_error p)).
Proof.
  intros Hj Hp He. unfold gallery_cell. fold n.
  assert (Hk : r * 2 + j < n) by (apply nth_error_Some; congruence).
  apply Nat.ltb_lt in Hk. rewrite Hk.
  unfold item. rewrite Hp.
  unfold wbind, st_video_call, put, wlift, wret.
  rewrite He. reflexivity.
Qed.

Lemma gallery_row_shown (r : nat) :
  (forall k, k < r * 2 + 2 -> k < n ->
             exists data, open_rb (nth k paths EmptyString) = Ok data) ->
  gallery_row open_rb paths sd (r * 2)
  = (st_columns 2 :: shown (r * 2) ++ shown (r * 2 + 1), Ok tt).
Proof.
  intros Hread. unfold gallery_row. cbn [cols_per_row seq for_each].
  rewrite (gallery_cell_shown r 0), (gallery_cell_shown r 1);
    try lia; try (apply Hread; lia).
  cbn. now rewrite Nat.add_0_r, !app_nil_r.
Qed.

(** The row in which the file of the segment of index [r * 2 + j] cannot
    be read. *)
Lemma gallery_row_raises (r j : nat) (p : string) (e : exn) :
  j < 2 ->
  nth_error paths (r * 2 + j) = Some p ->
  open_rb p = Raise e ->
  (forall k, k < r * 2 + j -> k < n ->
             exists data, open_rb (nth k paths EmptyString) = Ok data) ->
  gallery_row open_rb paths sd (r * 2)
  = (st_columns 2 :: (if Nat.eqb j 0 then [] else shown (r * 2)),
     Raise (media_file_storage_error p)).
Proof.
  intros Hj Hp He Hread. unfold gallery_row. cbn [cols_per_row seq for_each].
  destruct j as [|[|j]]; [| |lia].
  - rewrite (gallery_cell_raises r 0 p e) by assumption. reflexivity.
  - rewrite (gallery_cell_shown r 0) by (try lia; intros; apply Hread; lia).
    rewrite (gallery_cell_raises r 1 p e) by assumption.
    cbn. now rewrite Nat.add_0_r, !app_nil_r.
Qed.

Lemma for_each_stops {A} (f : A -> list widget) (body : A -> W unit)
  (l1 : list A) (x : A) (l2 : list A) (wx : list widget) (e : exn) :
  (forall y, In y l1 -> body y = (f y, Ok tt)) ->
  body x = (wx, Raise e) ->
  for_each (l1 ++ x :: l2) body = (flat_map f l1 ++ wx, Raise e).
Proof.
  intros H Hx. induction l1 as [|y l1 IH].
  - cbn. now rewrite Hx.
  - cbn [app for_each flat_map]. rewrite (H y) by now left.
    unfold wbind. rewrite IH; [now rewrite app_assoc|].
    intros z Hz. apply H. now right.
Qed.

Lemma video_gallery_shown :
  video_gallery open_rb paths sd
  = (st_header "Video Gallery"
       :: st_write
            "Click on any video to play, or use the download button to save it."
       :: flat_map (fun r => st_columns 2 :: shown (r * 2) ++ shown (r * 2 + 1))
                   (seq 0 ((n + 1) / 2)),
     Ok tt).
Proof.
  unfold video_gallery, range_step, cols_per_row. fold n.
  replace (n + 2 - 1) with (n + 1) by lia.
  rewrite (for_each_pure
             (fun i => st_columns 2 :: shown i ++ shown (i + 1))).
  - cbn. now rewrite flat_map_map.
  - intros i Hi. apply in_map_iff in Hi as [r [<- _]].
    apply gallery_row_shown. intros k _ Hk. apply readable.
    apply nth_In. exact Hk.
Qed.

Lemma shown_beyond (k : nat) : n <= k -> shown k = [].
Proof.
  intros Hk. unfold shown.
  destruct (Nat.ltb k n) eqn:E; [|reflexivity].
  apply Nat.ltb_lt in E. lia.
Qed.

(** Reading the rows with a reader that skips the column widgets. *)
Lemma reading_rows {B} (read : list widget -> list B) (h : nat -> B) :
  read [] = [] ->
  (forall a b, read (a ++ b) = read a ++ read b) ->
  (forall c, read [st_columns c] = []) ->
  (forall k, k < n -> read (shown k) = [h k]) ->
  read (flat_map (fun r => st_columns 2 :: shown (r * 2) ++ shown (r * 2 + 1))
                 (seq 0 ((n + 1) / 2)))
  = map h (seq 0 n).
Proof.
  intros Hnil Happ Hcol Hshown.
  rewrite (reading_flat_map read _ _ Hnil Happ).
  rewrite (flat_map_ext_in _
             (fun r => read (shown (r * 2)) ++ read (shown (r * 2 + 1)))).
  - rewrite (pairs_cover (fun k => read (shown k)) n).
    + rewrite <- flat_map_singleton. apply flat_map_ext_in.
      intros k Hk. apply in_seq in Hk. apply Hshown. lia.
    + intros k Hk. now rewrite shown_beyond.
  - intros r _.
    change (st_columns 2 :: shown (r * 2) ++ shown (r * 2 + 1))
      with ([st_columns 2] ++ shown (r * 2) ++ shown (r * 2 + 1)).
    now rewrite !Happ, Hcol.
Qed.

Lemma shown_inside (k : nat) :
  k < n ->
  shown k = [st_video (k mod 2) (nth k paths EmptyString);
             st_markdown (k mod 2) (link k);
             col_write (k mod 2) cap].
Proof.
  intros Hk. unfold shown. apply Nat.ltb_lt in Hk. now rewrite Hk.
Qed.

(** The page of the gallery when every segment can be read. *)
Lemma video_gallery_page :
  exists ws,
    video_gallery open_rb paths sd = (ws, Ok tt) /\
    videos_of ws = map (fun k => (k mod 2, nth k paths EmptyString)) (seq 0 n) /\
    links_of ws = map (fun k => (k mod 2, link k)) (seq 0 n) /\
    captions_of ws = map (fun _ => cap) (seq 0 n) /\
    List.length (filter is_columns ws) = (n + 1) / 2.
Proof.
  eexists. split; [apply video_gallery_shown|].
  split; [|split; [|split]].
  - cbn [videos_of]. apply reading_rows; try reflexivity.
    + apply videos_of_app.
    + intros k Hk. now rewrite shown_inside.
  - cbn [links_of]. apply reading_rows; try reflexivity.
    + apply links_of_app.
    + intros k Hk. now rewrite shown_inside.
  - cbn [captions_of]. apply reading_rows; try reflexivity.
    + apply captions_of_app.
    + intros k Hk. now rewrite shown_inside.
  - cbn [filter is_columns].
    rewrite <- (length_seq ((n + 1) / 2) 0) at 2.
    generalize (seq 0 ((n + 1) / 2)) as l.
    assert (Hnone : forall k, filter is_columns (shown k) = []).
    { intros k. unfold shown. now destruct (Nat.ltb k n). }
    induction l as [|r l IH]; [reflexivity|].
    cbn [flat_map]. rewrite filter_app, length_app.
    cbn [filter is_columns]. rewrite filter_app, !Hnone.
    cbn [app List.length]. now rewrite IH.
Qed.

Lemma pairs_prefix {A} (g : nat -> list A) (R : nat) :
  flat_map (fun r => g (r * 2) ++ g (r * 2 + 1)) (seq 0 R)
  = flat_map g (seq 0 (R * 2)).
Proof.
  induction R as [|R IH]; [reflexivity|].
  rewrite seq_S, flat_map_app, IH. cbn [flat_map Nat.add].
  replace (S R * 2) with (S (S (R * 2))) by lia.
  rewrite !seq_S, !flat_map_app. cbn [flat_map Nat.add].
  rewrite !app_nil_r, <- app_assoc.
  now replace (R * 2 + 1) with (S (R * 2)) by lia.
Qed.

(** The page of the gallery when the file of the segment of index [k] is
    the first that cannot be read. *)
Lemma video_gallery_raises (k : nat) (p : string) (e : exn) :
  nth_error paths k = Some p ->
  open_rb p = Raise e ->
  (forall i, i < k ->
             exists data, open_rb (nth i paths EmptyString) = Ok data) ->
  video_gallery open_rb paths sd
  = (st_header "Video Gallery"
       :: st_write
            "Click on any video to play, or use the download button to save it."
       :: flat_map (fun r => st_columns 2 :: shown (r * 2) ++ shown (r * 2 + 1))
                   (seq 0 (k / 2))
       ++ st_columns 2
       :: (if Nat.eqb (k mod 2) 0 then [] else shown (k / 2 * 2)),
     Raise (media_file_storage_error p)).
Proof.
  intros Hp He Hread.
  assert (Hk : k < n) by (apply nth_error_Some; congruence).
  assert (Hkdiv : k = k / 2 * 2 + k mod 2)
    by (rewrite Nat.mul_comm; apply Nat.div_mod_eq).
  assert (Hj : k mod 2 < 2) by (apply Nat.mod_upper_bound; lia).
  assert (HR : k / 2 < (n + 1) / 2).
  { apply Nat.Div0.div_lt_upper_bound.
    pose proof (Nat.div_mod_eq (n + 1) 2) as Hn.
    pose proof (Nat.mod_upper_bound (n + 1) 2). lia. }
  unfold video_gallery, range_step, cols_per_row. fold n.
  replace (n + 2 - 1) with (n + 1) by lia.
  replace ((n + 1) / 2) with (k / 2 + S ((n + 1) / 2 - S (k / 2))) by lia.
  rewrite seq_app, map_app. cbn [seq map Nat.add].
  rewrite (for_each_stops
             (fun i => st_columns 2 :: shown i ++ shown (i + 1))
             (gallery_row open_rb paths sd) _ _ _
             (st_columns 2
                :: (if Nat.eqb (k mod 2) 0 then [] else shown (k / 2 * 2)))
             (media_file_storage_error p)).
  - cbn. now rewrite flat_map_map.
  - intros i Hi. apply in_map_iff in Hi as [r [<- Hr]].
    apply in_seq in Hr. apply gallery_row_shown.
    intros i Hi _. apply Hread. lia.
  - apply (gallery_row_raises _ _ p e); try assumption.
    + now rewrite <- Hkdiv.
    + intros i Hi _. apply Hread. lia.
Qed.

(** Reading the page of a gallery that stopped at the segment of index
    [k]. *)
Lemma reading_failed_rows {B} (read : list widget -> list B) (h : nat -> B)
  (k : nat) :
  k < n ->
  read [] = [] ->
  (forall a b, read (a ++ b) = read a ++ read b) ->
  (forall c, read [st_columns c] = []) ->
  (forall i, i < n -> read (shown i) = [h i]) ->
  read (flat_map (fun r => st_columns 2 :: shown (r * 2) ++ shown (r * 2 + 1))
                 (seq 0 (k / 2))
          ++ st_columns 2
          :: (if Nat.eqb (k mod 2) 0 then [] else shown (k / 2 * 2)))
  = map h (seq 0 k).
Proof.
  intros Hk Hnil Happ Hcol Hshown.
  assert (Hkdiv : k = k / 2 * 2 + k mod 2)
    by (rewrite Nat.mul_comm; apply Nat.div_mod_eq).
  assert (Hj : k mod 2 < 2) by (apply Nat.mod_upper_bound; lia).
  rewrite Happ, (reading_flat_map read _ _ Hnil Happ).
  rewrite (flat_map_ext_in _
             (fun r => read (shown (r * 2)) ++ read (shown (r * 2 + 1)))).
  2:{ intros r _.
      change (st_columns 2 :: shown (r * 2) ++ shown (r * 2 + 1))
        with ([st_columns 2] ++ shown (r * 2) ++ shown (r * 2 + 1)).
      now rewrite !Happ, Hcol. }
  rewrite (pairs_prefix (fun i => read (shown i)) (k / 2)).
  rewrite (flat_map_ext_in _ (fun i => [h i])).
  2:{ intros i Hi. apply in_seq in Hi. apply Hshown. lia. }
  rewrite flat_map_singleton.
  change (st_columns 2
            :: (if Nat.eqb (k mod 2) 0 then [] else shown (k / 2 * 2)))
    with ([st_columns 2]
            ++ (if Nat.eqb (k mod 2) 0 then [] else shown (k / 2 * 2))).
  rewrite !Happ, Hcol. cbn [app].
  destruct (k mod 2) as [|[|j]] eqn:Hmod; [| |lia]; cbn [Nat.eqb].
  - rewrite Hnil, app_nil_r. f_equal. f_equal. lia.
  - rewrite Hshown by lia. rewrite Hkdiv at 3.
    replace (k / 2 * 2 + 1) with (S (k / 2 * 2)) by lia.
    now rewrite seq_S, map_app.
Qed.

Lemma video_gallery_stopped_page (k : nat) (p : string) (e : exn) :
  nth_error paths k = Some p ->
  open_rb p = Raise e ->
  (forall i, i < k ->
             exists data, open_rb (nth i paths EmptyString) = Ok data) ->
  exists ws,
    video_gallery open_rb paths sd
    = (ws, Raise (media_file_storage_error p)) /\
    videos_of ws
    = map (fun i => (i mod 2, nth i paths EmptyString)) (seq 0 k) /\
    links_of ws = map (fun i => (i mod 2, link i)) (seq 0 k) /\
    captions_of ws = map (fun _ => cap) (seq 0 k).
Proof.
  intros Hp He Hread.
  assert (Hk : k < n) by (apply nth_error_Some; congruence).
  eexists. split; [exact (video_gallery_raises k p e Hp He Hread)|].
  split; [|split].
  - cbn [videos_of].
    rewrite (reading_failed_rows videos_of
               (fun i => (i mod 2, nth i paths EmptyString)) k Hk);
      try reflexivity.
    + apply videos_of_app.
    + intros i Hi. now rewrite shown_inside.
  - cbn [links_of].
    rewrite (reading_failed_rows links_of (fun i => (i mod 2, link i)) k Hk);
      try reflexivity.
    + apply links_of_app.
    + intros i Hi. now rewrite shown_inside.
  - cbn [captions_of].
    rewrite (reading_failed_rows captions_of (fun _ => cap) k Hk);
      try reflexivity.
    + apply captions_of_app.
    + intros i Hi. now rewrite shown_inside.
Qed.

End GalleryFacts.

Lemma map_const_repeat {A B} (c : B) (l : list A) :
  map (fun _ => c) l = repeat c (List.length l).
Proof. induction l as [|x l IH]; cbn; [reflexivity | now rewrite IH]. Qed.

(** X9.  When the file of every segment can be read, the gallery renders
    to the end: the videos shown are the paths returned, in order, each
    once, alternating between the two columns; the link under the video of
    index [k] is the one of its file with the label [Part (k+1)]; every
    caption states the configured segment length; and there is one row of
    columns for every two segments, the last one counted when it is
    half full. *)
Theorem gallery_shows_every_segment
  (open_rb : string -> result (list Byte.byte)) (paths : list string)
  (segment_duration : Z) :
  (forall p, In p paths -> exists data, open_rb p = Ok data) ->
  exists ws,
    Gallery.video_gallery open_rb paths segment_duration = (ws, Ok tt) /\
    map snd (Gallery.videos_of ws) = paths /\
    map fst (Gallery.videos_of ws)
    = map (fun k => k mod 2) (seq 0 (List.length paths)) /\
    (forall k p data,
       nth_error paths k = Some p -> open_rb p = Ok data ->
       nth_error (Gallery.links_of ws) k
       = Some (k mod 2,
               Html.anchor (Base64.b64encode data) (Posix.os_path_basename p)
                           ("Part " ++ str_of_nat (k + 1)))) /\
    List.length (Gallery.links_of ws) = List.length paths /\
    Gallery.captions_of ws
    = repeat ("Duration: " ++ Gallery.str_of_Z segment_duration
                ++ " seconds")%string (List.length paths) /\
    List.length (filter Gallery.is_columns ws) = (List.length paths + 1) / 2.
Proof.
  intros Hread.
  destruct (video_gallery_page open_rb paths segment_duration Hread)
    as [ws [Hrun [Hv [Hl [Hc Hrows]]]]].
  exists ws. split; [exact Hrun|].
  split; [|split; [|split; [|split; [|split]]]].
  - rewrite Hv, map_map. cbn [snd]. apply map_nth_seq.
  - rewrite Hv, map_map. reflexivity.
  - intros k p data Hp Hdata. rewrite Hl.
    assert (Hk : k < List.length paths)
      by (apply nth_error_Some; congruence).
    rewrite nth_error_map, nth_error_seq.
    apply Nat.ltb_lt in Hk. rewrite Hk. cbn [option_map Nat.add].
    rewrite (nth_error_nth _ _ EmptyString Hp), Hdata. reflexivity.
  - now rewrite Hl, length_map, length_seq.
  - rewrite Hc, map_const_repeat. now rewrite length_seq.
  - exact Hrows.
Qed.

(** X9: three segments, each file three bytes long. *)
Lemma gallery_shows_every_segment_witness :
  exists ws,
    Gallery.video_gallery (fun _ => Ok [Byte.x4d; Byte.x61; Byte.x6e])
      ["d/part_1.mp4"; "d/part_2.mp4"; "d/part_3.mp4"] 60 = (ws, Ok tt) /\
    map snd (Gallery.videos_of ws)
    = ["d/part_1.mp4"; "d/part_2.mp4"; "d/part_3.mp4"] /\
    map fst (Gallery.videos_of ws) = map (fun k => k mod 2) (seq 0 3) /\
    (forall k p data,
       nth_error ["d/part_1.mp4"; "d/part_2.mp4"; "d/part_3.mp4"] k = Some p ->
       Ok [Byte.x4d; Byte.x61; Byte.x6e] = Ok data ->
       nth_error (Gallery.links_of ws) k
       = Some (k mod 2,
               Html.anchor (Base64.b64encode data) (Posix.os_path_basename p)
                           ("Part " ++ str_of_nat (k + 1)))) /\
    List.length (Gallery.links_of ws) = 3 /\
    Gallery.captions_of ws = repeat "Duration: 60 seconds" 3 /\
    List.length (filter Gallery.is_columns ws) = 2.
Proof.
  apply (gallery_shows_every_segment
           (fun _ => Ok [Byte.x4d; Byte.x61; Byte.x6e])
           ["d/part_1.mp4"; "d/part_2.mp4"; "d/part_3.mp4"] 60).
  intros p _. now eexists.
Defined.

(** ** More on the segment plan *)

Section PlanSums.

Local Open Scope Q_scope.

Lemma total_length_app (a b : list (Q * Q)) :
  total_length (a ++ b)%list == total_length a + total_length b.
Proof.
  induction a as [|w a IH]; cbn [app].
  - change (total_length []) with 0. ring.
  - change (total_length (w :: (a ++ b)%list))
      with (snd w - fst w + total_length (a ++ b)%list).
    change (total_length (w :: a)) with (snd w - fst w + total_length a).
    rewrite IH. ring.
Qed.

Variables (t s : Q).
Hypothesis (Hs : 0 < s).

Let window (i : nat) : Q * Q := (Plan.start_time i s, Plan.end_time i s t).

(** The windows before the last one add up to as many segment lengths. *)
Lemma inner_windows_length (j : nat) :
  (Z.of_nat j < Qceiling (t / s))%Z ->
  total_length (map window (seq 0 j)) == inject_Z (Z.of_nat j) * s.
Proof.
  induction j as [|j IH]; intros Hj.
  - cbn. ring.
  - rewrite seq_S, map_app, total_length_app, IH by lia.
    cbn [map total_length fold_right Nat.add window fst snd].
    rewrite (end_time_inner t s Hs j) by lia.
    unfold Plan.start_time.
    rewrite Nat2Z.inj_succ, <- Z.add_1_r, !inject_Z_succ. ring.
Qed.

Lemma start_time_nonneg (i : nat) : 0 <= Plan.start_time i s.
Proof.
  unfold Plan.start_time. apply Qmult_le_0_compat; [|lra].
  change 0 with (inject_Z 0). rewrite <- Zle_Qle. lia.
Qed.

Lemma window_not_empty (i : nat) :
  (Z.of_nat i < Qceiling (t / s))%Z ->
  Plan.start_time i s < Plan.end_time i s t.
Proof.
  intros Hi.
  destruct (Z.eq_dec (Z.of_nat i + 1) (Qceiling (t / s))) as [Hlast|Hinner].
  - rewrite (end_time_last t s Hs i Hlast).
    destruct (ceiling_brackets t s Hs) as [Hlo _].
    unfold Plan.start_time.
    replace (Z.of_nat i) with (Qceiling (t / s) - 1)%Z by lia.
    exact Hlo.
  - rewrite (end_time_inner t s Hs i) by lia.
    unfold Plan.start_time. rewrite inject_Z_succ. lra.
Qed.

End PlanSums.

(** In exact arithmetic, for a positive duration and a positive segment
    length, the lengths of the windows of the plan add up to the duration,
    and every window starts at or after 0, ends after it starts and ends
    at or before the duration. *)
Lemma plan_windows_partition (t s : Q) :
  (0 < t)%Q -> (0 < s)%Q ->
  exists ws,
    Plan.windows t s = Some ws /\
    (total_length ws == t)%Q /\
    Forall (fun w => (0 <= fst w)%Q /\ (fst w < snd w)%Q /\ (snd w <= t)%Q) ws.
Proof.
  intros Ht Hs.
  pose proof (ceiling_positive t s Hs Ht) as Hc.
  eexists. split.
  { unfold Plan.windows. rewrite (num_segments_pos_length t s Hs).
    reflexivity. }
  unfold PyNum.range. split.
  - destruct (Z.to_nat (Qceiling (t / s))) as [|m] eqn:Hm; [lia|].
    rewrite seq_S, map_app, total_length_app.
    rewrite (inner_windows_length t s Hs m) by lia.
    cbn [map total_length fold_right Nat.add fst snd].
    rewrite (end_time_last t s Hs m) by lia.
    unfold Plan.start_time. ring.
  - apply Forall_forall. intros w Hw.
    apply in_map_iff in Hw as [i [<- Hi]]. apply in_seq in Hi.
    cbn [fst snd]. split; [now apply start_time_nonneg|].
    split; [apply (window_not_empty t s Hs); lia|].
    unfold Plan.end_time. apply Q.le_min_r.
Qed.

(** X10.  For a positive duration and a segment length that is a positive
    integer, a run of [trim_video] in which nothing fails returns, and
    the windows it wrote, one per returned path, have lengths that add up
    to the duration; each of them starts at or after 0, ends after it
    starts and ends at or before the duration. *)
Theorem windows_partition
  (w : world) (video_path filename : string) (n : Z) (st : state) (t : Q) :
  (0 < t)%Q -> (1 <= n)%Z ->
  nothing_fails w video_path filename (inject_Z n) st t ->
  exists paths st' evs,
    trim_video w video_path filename (inject_Z n) st = (Ok paths, st') /\
    events st' = events st ++ evs /\
    List.length (written_windows evs) = List.length paths /\
    (total_length (written_windows evs) == t)%Q /\
    Forall (fun win => (0 <= fst win)%Q /\ (fst win < snd win)%Q
                       /\ (snd win <= t)%Q)
           (written_windows evs).
Proof.
  intros Ht Hn Hfine.
  assert (Hs : (0 < inject_Z n)%Q).
  { change 0%Q with (inject_Z 0). rewrite <- Zlt_Qlt. lia. }
  destruct (plan_windows_partition t (inject_Z n) Ht Hs)
    as (ws & Hws & Hsum & Hall).
  destruct (nothing_fails_writes_plan _ _ _ _ _ _ _ Hfine Hws)
    as (paths & st' & evs & Hrun & Hev & _ & Hlen & Hwritten).
  exists paths, st', evs. rewrite Hwritten.
  split; [exact Hrun|]. split; [exact Hev|]. split; [now symmetry|].
  split; [exact Hsum | exact Hall].
Qed.

(** X10: the 150-second source of [world_fine] cut every 60 seconds. *)
Lemma windows_partition_witness :
  exists paths st' evs,
    trim_video world_fine "youtube_videos/v.mp4" "v" (inject_Z 60)
               initial_state = (Ok paths, st') /\
    events st' = events initial_state ++ evs /\
    List.length (written_windows evs) = List.length paths /\
    (total_length (written_windows evs) == 150)%Q /\
    Forall (fun win => (0 <= fst win)%Q /\ (fst win < snd win)%Q
                       /\ (snd win <= 150)%Q)
           (written_windows evs).
Proof.
  apply (windows_partition world_fine "youtube_videos/v.mp4" "v" 60
           initial_state 150).
  - reflexivity.
  - lia.
  - split; [reflexivity|]. split; [reflexivity|].
    split; [exists []; left; split; reflexivity|].
    intros m i _ _. reflexivity.
Defined.

(** ** More on the runs of [trim_video] *)

Lemma written_paths_app (tr1 tr2 : list event) :
  written_paths (tr1 ++ tr2) = written_paths tr1 ++ written_paths tr2.
Proof.
  induction tr1 as [|e tr1 IH]; [reflexivity|].
  destruct e; cbn; now rewrite ?IH.
Qed.

Lemma segment_events_paths (od : string) (sd td : Q) (n : Z) (l : list nat) :
  written_paths (flat_map (segment_events od sd td n) l)
  = map (segment_path od) l.
Proof. induction l as [|i l IH]; cbn; now rewrite ?IH. Qed.

(** The trace of the loop part of a run, read three ways. *)
Lemma loop_trace_readings (video_path od : string) (sd td : Q) (n : Z)
  (dir_evs : list event) (j : nat) (tl : list event) :
  dir_evs = [] \/ dir_evs = [made_dirs od] ->
  written_paths tl = [] -> filter is_success tl = [] ->
  let evs := clip_opened video_path :: dir_evs ++ st_progress 0%Q
               :: flat_map (segment_events od sd td n) (seq 0 j) ++ tl in
  written_paths evs = map (segment_path od) (seq 0 j) /\
  filter is_error evs = filter is_error tl /\
  filter is_success evs = [].
Proof.
  intros Hd Hw Hs evs. subst evs. split; [|split].
  - cbn [written_paths]. rewrite written_paths_app. cbn [written_paths].
    rewrite written_paths_app, segment_events_paths, Hw.
    destruct Hd as [-> | ->]; cbn; now rewrite app_nil_r.
  - cbn [filter is_error]. rewrite filter_app. cbn [filter is_error].
    rewrite filter_app, segment_events_no_error.
    destruct Hd as [-> | ->]; reflexivity.
  - cbn [filter is_success]. rewrite filter_app. cbn [filter is_success].
    rewrite filter_app, segment_events_no_success, Hs.
    destruct Hd as [-> | ->]; reflexivity.
Qed.

(** What every run of [trim_video] comes to. *)
Lemma trim_video_summary (w : world) (video_path filename : string)
  (segment_duration : Q) (s : state) :
  exists paths s' evs j,
    trim_video w video_path filename segment_duration s = (Ok paths, s') /\
    events s' = events s ++ evs /\
    written_paths evs = map (segment_path (output_dir_of filename)) (seq 0 j) /\
    filter is_success evs = [] /\
    ((paths = written_paths evs /\ filter is_error evs = []) \/
     (paths = [] /\ List.length (filter is_error evs) = 1)).
Proof.
  pose proof (trim_video_outcome w video_path filename segment_duration s) as H.
  inversion H as
    [s' Hf Hev Hop Hwr
    |e s' Hf Hopen Hev Hop Hwr
    |td e s' Hf Hopen Hn Hev Hop Hwr
    |td n e s' Hf Hopen Hn Hdir Hmk Hev Hop Hwr
    |td n dir_evs k e s' Hf Hopen Hn Hprep Hk Hb Hfail Hev Hop Hwr
    |td n dir_evs s' Hf Hopen Hn Hprep Hall Hev Hop Hwr].
  - exists [], s'; eexists; exists 0. split; [reflexivity|].
    split; [exact Hev|]. repeat split. now right.
  - exists [], s'; eexists; exists 0. split; [reflexivity|].
    split; [exact Hev|]. repeat split. now right.
  - exists [], s'; eexists; exists 0. split; [reflexivity|].
    split; [exact Hev|]. repeat split. now right.
  - exists [], s'; eexists; exists 0. split; [reflexivity|].
    split; [exact Hev|]. repeat split. now right.
  - exists [], s'; eexists; exists k. split; [reflexivity|].
    split; [exact Hev|].
    destruct (loop_trace_readings video_path (output_dir_of filename)
                segment_duration td n dir_evs k
                [trim_error e; clip_closed video_path]
                (dir_prepared_events _ _ _ _ Hprep) eq_refl eq_refl)
      as [Hw [He Hs]].
    split; [exact Hw|]. split; [exact Hs|].
    right. split; [reflexivity|]. now rewrite He.
  - eexists; exists s'; eexists; exists (Z.to_nat n).
    split; [reflexivity|]. split; [exact Hev|].
    destruct (loop_trace_readings video_path (output_dir_of filename)
                segment_duration td n dir_evs (Z.to_nat n)
                [clip_closed video_path]
                (dir_prepared_events _ _ _ _ Hprep) eq_refl eq_refl)
      as [Hw [He Hs]].
    split; [exact Hw|]. split; [exact Hs|].
    left. split; [now rewrite Hw | now rewrite He].
Qed.

(** X11.  In every run of [trim_video] the files written are
    [part_1.mp4], [part_2.mp4], ... of the output directory, in that order
    and without a gap; the list returned holds all of them when no error
    is reported, and is empty when one is, never a part of them; an error
    is reported at most once and no success message is ever emitted by
    [trim_video] itself. *)
Theorem trim_video_all_or_nothing (w : world) (video_path filename : string)
  (segment_duration : Q) (s : state) :
  exists paths s' evs,
    trim_video w video_path filename segment_duration s = (Ok paths, s') /\
    events s' = events s ++ evs /\
    written_paths evs
    = map (segment_path (output_dir_of filename))
          (seq 0 (List.length (written_paths evs))) /\
    (filter is_error evs = [] -> paths = written_paths evs) /\
    (filter is_error evs <> [] ->
     paths = [] /\ List.length (filter is_error evs) = 1) /\
    filter is_success evs = [].
Proof.
  destruct (trim_video_summary w video_path filename segment_duration s)
    as [paths [s' [evs [j [Hrun [Hev [Hw [Hs Hcases]]]]]]]].
  exists paths, s', evs. split; [exact Hrun|]. split; [exact Hev|].
  split; [|split; [|split; [|exact Hs]]].
  - rewrite Hw at 1. now rewrite Hw, length_map, length_seq.
  - intros Hclean. destruct Hcases as [[Hp _]|[_ Hone]]; [exact Hp|].
    rewrite Hclean in Hone. discriminate.
  - intros Herr. destruct Hcases as [[_ Hclean]|[Hp Hone]];
      [contradiction | now split].
Qed.

Lemma num_segments_zero_duration (t s : Q) :
  (t == 0)%Q -> (0 < s)%Q -> Plan.num_segments t s = Ok 0%Z.
Proof.
  intros Ht Hs. rewrite (num_segments_pos_length t s Hs). f_equal.
  assert (Hq : (t / s == 0)%Q) by (rewrite Ht; unfold Qdiv; ring).
  now rewrite Hq.
Qed.

(** X12.  A source of duration zero, cut with a positive segment length,
    gives no window: [trim_video] opens the clip, prepares the directory,
    creates the progress bar, closes the clip and returns the empty list,
    reporting neither an error nor any progress. *)
Theorem trim_video_zero_duration
  (w : world) (video_path filename : string) (segment_duration : Q)
  (s : state) (td : Q) (dir_evs : list event) :
  path_exists w (exists_calls s) video_path = true ->
  video_file_clip w video_path = Ok td ->
  (td == 0)%Q -> (0 < segment_duration)%Q ->
  dir_prepared w s (output_dir_of filename) dir_evs ->
  Plan.windows td segment_duration = Some [] /\
  exists s',
    trim_video w video_path filename segment_duration s = (Ok [], s') /\
    events s' = events s ++ clip_opened video_path :: dir_evs
                  ++ [st_progress 0%Q; clip_closed video_path].
Proof.
  intros Hfound Hclip Htd Hsd Hprep.
  pose proof (num_segments_zero_duration td segment_duration Htd Hsd) as Hn0.
  split.
  { unfold Plan.windows. now rewrite Hn0. }
  pose proof (trim_video_outcome w video_path filename segment_duration s) as H.
  inversion H as
    [s' Hf Hev Hop Hwr
    |e s' Hf Hopen Hev Hop Hwr
    |td' e s' Hf Hopen Hn Hev Hop Hwr
    |td' n e s' Hf Hopen Hn Hdir Hmk Hev Hop Hwr
    |td' n dir_evs' k e s' Hf Hopen Hn Hprep' Hk Hb Hfail Hev Hop Hwr
    |td' n dir_evs' s' Hf Hopen Hn Hprep' Hall Hev Hop Hwr];
    try congruence.
  - exfalso. eapply dir_prepared_not_raising; eassumption.
  - exfalso. assert (td' = td) by congruence. subst td'.
    assert (n = 0%Z) by congruence. subst n. cbn in Hk. lia.
  - assert (td' = td) by congruence. subst td'.
    assert (n = 0%Z) by congruence. subst n.
    exists s'. split; [reflexivity|]. rewrite Hev.
    cbn [Z.to_nat seq flat_map app].
    destruct Hprep as [[Hd ->]|[Hd [Hm ->]]];
      destruct Hprep' as [[Hd' ->]|[Hd' [Hm' ->]]];
      try congruence; reflexivity.
Qed.

(** X12: the source of [world_empty_clip]. *)
Lemma trim_video_zero_duration_witness :
  Plan.windows 0 60 = Some [] /\
  exists s',
    trim_video world_empty_clip "youtube_videos/v.mp4" "v" 60%Q initial_state
    = (Ok [], s') /\
    events s' = events initial_state ++ clip_opened "youtube_videos/v.mp4"
                  :: [] ++ [st_progress 0%Q; clip_closed "youtube_videos/v.mp4"].
Proof.
  apply (trim_video_zero_duration world_empty_clip "youtube_videos/v.mp4" "v"
           60%Q initial_state 0%Q []); try reflexivity.
  left. split; reflexivity.
Defined.

(** ** More on the runs of [download_youtube_video] *)

Section PollTraces.

Variable k : nat.
Variable tl : list event.

Lemma sleeps_only_error : filter is_error (repeat (time_sleep 1) k ++ tl)
                          = filter is_error tl.
Proof. induction k as [|j IH]; cbn; [reflexivity | exact IH]. Qed.

Lemma sleeps_only_success : filter is_success (repeat (time_sleep 1) k ++ tl)
                            = filter is_success tl.
Proof. induction k as [|j IH]; cbn; [reflexivity | exact IH]. Qed.

Lemma sleeps_only_downloaded :
  filter is_downloaded (repeat (time_sleep 1) k ++ tl)
  = filter is_downloaded tl.
Proof. induction k as [|j IH]; cbn; [reflexivity | exact IH]. Qed.

Lemma sleeps_only_written :
  written_paths (repeat (time_sleep 1) k ++ tl) = written_paths tl.
Proof. induction k as [|j IH]; cbn; [reflexivity | exact IH]. Qed.

End PollTraces.

(** What every run of [download_youtube_video] comes to. *)
Lemma download_summary (w : world) (url : string) (s : state) :
  exists r s' evs,
    download_youtube_video w url s = (Ok r, s') /\
    events s' = events s ++ evs /\
    filter is_success evs = [] /\
    written_paths evs = [] /\
    write_calls s' = write_calls s /\
    ((r = (None, None) /\ List.length (filter is_error evs) = 1) \/
     (exists ttl,
        transfer_returns w url ttl /\
        r = (Some (download_path ttl), Some (sanitize_filename ttl)) /\
        filter is_error evs = [])).
Proof.
  pose proof (download_youtube_video_outcome w url s) as H.
  inversion H as
    [e Hr Heq
    |yt l Hy Hs Hv Heq
    |ttl k Htr Hp Hlast Heq
    |ttl k Htr Hp Hlast Heq];
    eexists; eexists; eexists; (split; [reflexivity|]);
    (split; [reflexivity|]).
  - repeat split. now left.
  - repeat split. now left.
  - cbn [filter is_success is_error written_paths].
    rewrite sleeps_only_success, sleeps_only_written, sleeps_only_error.
    repeat split. now left.
  - cbn [filter is_success is_error written_paths].
    rewrite <- (app_nil_r (repeat (time_sleep 1) k)).
    rewrite sleeps_only_success, sleeps_only_written, sleeps_only_error.
    repeat split. right. exists ttl. now repeat split.
Qed.

(** X13.  With the transfer returned and the file first seen at the
    existence check of index [j], after which it stays: for [j] up to 11
    the download succeeds after [min j 10] sleeps of one second; from
    [j = 12] on it fails after ten sleeps. *)
Theorem download_waits_for_late_file
  (w : world) (url : string) (s : state) (ttl : string) (j : nat) :
  transfer_returns w url ttl ->
  (forall n, n < j ->
     path_exists w (exists_calls s + n) (download_path ttl) = false) ->
  (forall n, j <= n ->
     path_exists w (exists_calls s + n) (download_path ttl) = true) ->
  (j <= 11 ->
   download_youtube_video w url s
   = (Ok (Some (download_path ttl), Some (sanitize_filename ttl)),
      touched s (Nat.min j 10 + 2)
        (downloaded "youtube_videos" (download_name ttl)
           :: repeat (time_sleep 1) (Nat.min j 10)))) /\
  (12 <= j ->
   download_youtube_video w url s
   = (Ok (None, None),
      touched s 12
        (downloaded "youtube_videos" (download_name ttl)
           :: repeat (time_sleep 1) 10
           ++ [st_error "Download failed - file not created"]))).
Proof.
  intros Htr Habsent Hpresent.
  pose proof (download_youtube_video_outcome w url s) as H.
  assert (Hk : forall k, polled w s (download_path ttl) k ->
                         k = Nat.min j 10).
  { intros k [Hk10 [Hneg Hpos]]. unfold max_attempts in *.
    destruct (Nat.lt_trichotomy k (Nat.min j 10)) as [Hlt|[Heq|Hgt]];
      [|exact Heq|].
    - rewrite Habsent in Hpos by lia.
      assert (k < 10) by lia. now apply Hpos in H0.
    - assert (Hj : j < k) by lia.
      specialize (Hneg j Hj). rewrite Hpresent in Hneg by lia.
      discriminate. }
  inversion H as
    [e Hr Heq
    |yt l Hy Hs Hv Heq
    |ttl' k Htr' Hp Hlast Heq
    |ttl' k Htr' Hp Hlast Heq].
  - exfalso. eapply transfer_returns_not_raising; eassumption.
  - exfalso. now apply (transfer_returns_selects w url ttl yt l Htr Hy Hs).
  - rewrite (transfer_returns_title w url ttl' ttl Htr' Htr) in *.
    rewrite (Hk k Hp) in *.
    replace (exists_calls s + Nat.min j 10 + 1)
      with (exists_calls s + (Nat.min j 10 + 1)) in Hlast by lia.
    split; intros Hj.
    + exfalso. rewrite Hpresent in Hlast by lia. discriminate.
    + replace (Nat.min j 10) with 10 by lia. reflexivity.
  - rewrite (transfer_returns_title w url ttl' ttl Htr' Htr) in *.
    rewrite (Hk k Hp) in *.
    replace (exists_calls s + Nat.min j 10 + 1)
      with (exists_calls s + (Nat.min j 10 + 1)) in Hlast by lia.
    split; intros Hj.
    + reflexivity.
    + exfalso. rewrite Habsent in Hlast by lia. discriminate.
Qed.

(** X13: the file of [world_late_flush 3], seen at the fourth check. *)
Lemma download_waits_for_late_file_witness :
  (3 <= 11 ->
   download_youtube_video (world_late_flush 3) "https://youtu.be/x"
                          initial_state
   = (Ok (Some (download_path "My: Video?"),
          Some (sanitize_filename "My: Video?")),
      touched initial_state (Nat.min 3 10 + 2)
        (downloaded "youtube_videos" (download_name "My: Video?")
           :: repeat (time_sleep 1) (Nat.min 3 10)))) /\
  (12 <= 3 ->
   download_youtube_video (world_late_flush 3) "https://youtu.be/x"
                          initial_state
   = (Ok (None, None),
      touched initial_state 12
        (downloaded "youtube_videos" (download_name "My: Video?")
           :: repeat (time_sleep 1) 10
           ++ [st_error "Download failed - file not created"]))).
Proof.
  apply (download_waits_for_late_file (world_late_flush 3)
           "https://youtu.be/x" initial_state "My: Video?" 3).
  - eapply transfer_ok; reflexivity.
  - intros n Hn. change (Nat.leb 3 (0 + n) = false).
    apply Nat.leb_gt. lia.
  - intros n Hn. change (Nat.leb 3 (0 + n) = true).
    apply Nat.leb_le. lia.
Defined.

(** X14.  Every run of [download_youtube_video] returns; a run that
    returns [(None, None)] reports exactly one error; a run that returns a
    path reports none, called the transfer once, for the file named after
    the returned name, saw the path exist at its last check, and returns a
    name without any character of the class; and a run that never called
    the transfer returns [(None, None)] without any existence check or
    sleep. *)
Theorem download_reports_each_failure_once
  (w : world) (url : string) (s : state) :
  exists r s' evs,
    download_youtube_video w url s = (Ok r, s') /\
    events s' = events s ++ evs /\
    (r = (None, None) -> List.length (filter is_error evs) = 1) /\
    (forall p f,
       r = (Some p, Some f) ->
       filter is_error evs = [] /\
       filter is_downloaded evs
       = [downloaded "youtube_videos" (f ++ ".mp4")] /\
       path_exists w (exists_calls s' - 1) p = true /\
       forallb (fun c => negb (is_forbidden c)) (chars f) = true) /\
    (filter is_downloaded evs = [] ->
     r = (None, None) /\ exists_calls s' = exists_calls s /\ sleeps evs = []).
Proof.
  pose proof (download_youtube_video_outcome w url s) as H.
  inversion H as
    [e Hr Heq
    |yt l Hy Hs Hv Heq
    |ttl k Htr Hp Hlast Heq
    |ttl k Htr Hp Hlast Heq];
    eexists; eexists; eexists; (split; [reflexivity|]);
    (split; [reflexivity|]).
  - split; [reflexivity|]. split; [discriminate|].
    intros _. cbn. repeat split. lia.
  - split; [reflexivity|]. split; [discriminate|].
    intros _. cbn. repeat split. lia.
  - split.
    + intros _. cbn [filter is_error]. now rewrite sleeps_only_error.
    + split; [discriminate|]. cbn [filter is_downloaded]. discriminate.
  - split; [discriminate|]. split.
    + intros p f Hpf. injection Hpf as <- <-.
      cbn [filter is_error is_downloaded].
      rewrite <- (app_nil_r (repeat (time_sleep 1) k)).
      rewrite sleeps_only_error, sleeps_only_downloaded.
      split; [reflexivity|]. split; [reflexivity|].
      split; [|apply sanitize_is_clean].
      cbn [touched exists_calls].
      now replace (exists_calls s + (k + 2) - 1)
        with (exists_calls s + k + 1) by lia.
    + cbn [filter is_downloaded]. discriminate.
Qed.

(** ** The flow behind the button *)

Lemma download_path_truthy (ttl : string) :
  PyNum.truthy (download_path ttl) = true.
Proof. unfold download_path, download_name. now rewrite download_path_join. Qed.

Lemma filter_error_app (a b : list event) :
  filter is_error a = [] -> filter is_error b = [] ->
  filter is_error (a ++ b) = [].
Proof. intros Ha Hb. now rewrite filter_app, Ha, Hb. Qed.

(** X15.  When a run of the flow returns paths, its last event is the
    success message that counts them, the only other success message is
    the one of the download, no error was reported and the paths returned
    are exactly the files written; when it returns none, no trimming
    success is announced.  The flow always returns. *)
Theorem process_video_announces_success
  (w : world) (url : string) (segment_duration : Q) (s : state) :
  exists paths s' evs,
    process_video w url segment_duration s = (Ok paths, s') /\
    events s' = events s ++ evs /\
    (paths <> [] ->
     (exists before,
        evs = before
              ++ [st_success ("Video trimmed successfully into "
                                ++ str_of_nat (List.length paths)
                                ++ " segments!")]) /\
     filter is_success evs
     = [st_success "Video downloaded successfully!";
        st_success ("Video trimmed successfully into "
                      ++ str_of_nat (List.length paths) ++ " segments!")] /\
     filter is_error evs = [] /\
     written_paths evs = paths) /\
    (paths = [] ->
     filter is_success evs = [] \/
     filter is_success evs = [st_success "Video downloaded successfully!"]).
Proof.
  unfold process_video.
  destruct (PyNum.truthy url) eqn:Hurl.
  2:{ exists [], (touched s 0 [st_warning "Please enter a YouTube video URL"]).
      eexists. split.
      { unfold bind, emit, ret, touched. cbn. now rewrite Nat.add_0_r. }
      split; [reflexivity|]. split; [intros Hc; now contradiction Hc|].
      intros _. now left. }
  destruct (download_summary w url s)
    as [r [s1 [evs1 [Hrun1 [Hev1 [Hsucc1 [Hw1 [Hwc1 Hcases1]]]]]]]].
  unfold bind at 1. rewrite Hrun1.
  assert (Hnothing : exists paths s' evs,
             ret [] s1 = (Ok paths, s') /\
             events s' = events s ++ evs /\
             (paths <> [] ->
              (exists before,
                 evs = before
                       ++ [st_success ("Video trimmed successfully into "
                                         ++ str_of_nat (List.length paths)
                                         ++ " segments!")]) /\
              filter is_success evs
              = [st_success "Video downloaded successfully!";
                 st_success ("Video trimmed successfully into "
                               ++ str_of_nat (List.length paths)
                               ++ " segments!")] /\
              filter is_error evs = [] /\
              written_paths evs = paths) /\
             (paths = [] ->
              filter is_success evs = [] \/
              filter is_success evs
              = [st_success "Video downloaded successfully!"])).
  { exists (@nil string), s1, evs1. split; [reflexivity|].
    split; [exact Hev1|]. split; [intros Hc; now contradiction Hc|].
    intros _. now left. }
  destruct Hcases1 as [[-> Herr1] | [ttl [Htr [-> Hclean1]]]];
    [exact Hnothing|].
  rewrite download_path_truthy. cbn [andb].
  destruct (PyNum.truthy (sanitize_filename ttl)) eqn:Hname;
    [|exact Hnothing].
  clear Hnothing.
  unfold bind at 1. unfold emit at 1.
  set (s1' := mkState (events s1 ++ [st_success "Video downloaded successfully!"])
                      (exists_calls s1) (write_calls s1) (open_clips s1)
                      (video s1)).
  destruct (trim_video_summary w (download_path ttl) (sanitize_filename ttl)
              segment_duration s1')
    as [paths [s2 [evs2 [j [Hrun2 [Hev2 [Hw2 [Hsucc2 Hcases2]]]]]]]].
  unfold bind at 1. rewrite Hrun2.
  assert (Hev : events s2
                = events s
                    ++ (evs1 ++ [st_success "Video downloaded successfully!"]
                          ++ evs2)).
  { rewrite Hev2. subst s1'. cbn [events]. rewrite Hev1.
    now rewrite <- !app_assoc. }
  destruct paths as [|p ps].
  - exists [], s2. eexists. split; [reflexivity|]. split; [exact Hev|].
    split; [intros Hc; now contradiction Hc|].
    intros _. right.
    rewrite !filter_app, Hsucc1, Hsucc2. reflexivity.
  - destruct Hcases2 as [[Hpaths Hclean2]|[Hc _]]; [|discriminate Hc].
    eexists; eexists; eexists. split.
    { unfold bind, emit, ret. reflexivity. }
    split.
    { cbn [events]. rewrite Hev, <- !app_assoc. reflexivity. }
    split; [|intros Hc; discriminate Hc].
    intros _. split; [|split; [|split]].
    + eexists (evs1 ++ [st_success "Video downloaded successfully!"] ++ evs2).
      now rewrite <- !app_assoc.
    + rewrite !filter_app, Hsucc1, Hsucc2. reflexivity.
    + rewrite !filter_app, Hclean1, Hclean2. reflexivity.
    + rewrite !written_paths_app, Hw1, <- Hpaths. cbn.
      now rewrite app_nil_r.
Qed.

(** X16.  A title made only of characters of the class is downloaded, as
    [.mp4], and then dropped without a word: the flow tests the empty
    name, does not trim, and emits neither a success message nor an
    error. *)
Theorem process_video_drops_empty_name
  (w : world) (url : string) (segment_duration : Q) (s : state)
  (ttl : string) :
  PyNum.truthy url = true ->
  (forall c, In c (chars ttl) -> In c forbidden_chars) ->
  transfer_returns w url ttl ->
  (forall n, path_exists w n "youtube_videos/.mp4" = true) ->
  process_video w url segment_duration s
  = (Ok [], touched s 2 [downloaded "youtube_videos" ".mp4"]).
Proof.
  intros Hurl Hall Htr Hex.
  pose proof (sanitize_all_forbidden ttl Hall) as Hname.
  assert (Hpath : download_path ttl = "youtube_videos/.mp4").
  { unfold download_path, download_name. now rewrite Hname. }
  assert (Hdn : download_name ttl = ".mp4").
  { unfold download_name. now rewrite Hname. }
  assert (Hdl : download_youtube_video w url s
                = (Ok (Some "youtube_videos/.mp4", Some EmptyString),
                   touched s 2 [downloaded "youtube_videos" ".mp4"])).
  { pose proof (download_youtube_video_outcome w url s) as H.
    inversion H as
      [e Hr Heq
      |yt l Hy Hs Hv Heq
      |ttl' k Htr' Hp Hlast Heq
      |ttl' k Htr' Hp Hlast Heq].
    - exfalso. eapply transfer_returns_not_raising; eassumption.
    - exfalso. now apply (transfer_returns_selects w url ttl yt l Htr Hy Hs).
    - exfalso.
      rewrite (transfer_returns_title w url ttl' ttl Htr' Htr), Hpath, Hex
        in Hlast.
      discriminate.
    - rewrite (transfer_returns_title w url ttl' ttl Htr' Htr) in *.
      rewrite Hpath in Hp.
      rewrite (polled_present w s _ k Hp (Hex _)).
      now rewrite Hpath, Hdn, Hname. }
  unfold process_video. rewrite Hurl. unfold bind at 1. rewrite Hdl.
  reflexivity.
Qed.

(** X16: the title of [world_forbidden_title]. *)
Lemma process_video_drops_empty_name_witness :
  process_video world_forbidden_title "https://youtu.be/x" 60%Q initial_state
  = (Ok [], touched initial_state 2 [downloaded "youtube_videos" ".mp4"]).
Proof.
  apply (process_video_drops_empty_name world_forbidden_title
           "https://youtu.be/x" 60%Q initial_state "?*|<>").
  - reflexivity.
  - intros c Hc. cbn in Hc. unfold forbidden_chars. cbn.
    repeat (destruct Hc as [<-|Hc]; [tauto|]). contradiction.
  - eapply transfer_ok; reflexivity.
  - reflexivity.
Defined.

Lemma map_nth_firstn {A} (l : list A) (d : A) (m : nat) :
  m <= List.length l ->
  map (fun i => nth i l d) (seq 0 m) = firstn m l.
Proof.
  revert m. induction l as [|a l IH]; intros m Hm.
  - cbn in Hm. now replace m with 0 by lia.
  - destruct m as [|m]; [reflexivity|].
    cbn [seq map nth firstn]. f_equal.
    rewrite <- seq_shift, map_map. apply IH. cbn in Hm. lia.
Qed.

(** X17.  When the file of the segment of index [k] is the first that
    cannot be read, [st.video] raises on it and the exception leaves the
    gallery, which nothing catches: the videos, the links and the
    captions of the segments before it were shown, in order, and neither
    that segment nor a later one appears; the read of
    [get_binary_file_downloader_html] is not the one that fails. *)
Theorem gallery_stops_at_unreadable_file
  (open_rb : string -> result (list Byte.byte)) (paths : list string)
  (segment_duration : Z) (k : nat) (p : string) (e : exn) :
  nth_error paths k = Some p ->
  open_rb p = Raise e ->
  (forall i q, i < k -> nth_error paths i = Some q ->
               exists data, open_rb q = Ok data) ->
  exists ws,
    Gallery.video_gallery open_rb paths segment_duration
    = (ws, Raise ("Error opening '" ++ p ++ "'")%string) /\
    map snd (Gallery.videos_of ws) = firstn k paths /\
    List.length (Gallery.links_of ws) = k /\
    Gallery.captions_of ws
    = repeat ("Duration: " ++ Gallery.str_of_Z segment_duration
                ++ " seconds")%string k.
Proof.
  intros Hp He Hread.
  assert (Hk : k < List.length paths) by (apply nth_error_Some; congruence).
  destruct (video_gallery_stopped_page open_rb paths segment_duration k p e
              Hp He)
    as [ws [Hrun [Hv [Hl Hc]]]].
  { intros i Hi. apply (Hread i _ Hi). apply nth_error_nth'. lia. }
  exists ws. split; [exact Hrun|]. split; [|split].
  - rewrite Hv, map_map. cbn [snd]. apply map_nth_firstn. lia.
  - now rewrite Hl, length_map, length_seq.
  - rewrite Hc, map_const_repeat. now rewrite length_seq.
Qed.

(** X17: the second of three files is missing. *)
Lemma gallery_stops_at_unreadable_file_witness :
  exists ws,
    Gallery.video_gallery
      (fun p => if String.eqb p "d/part_2.mp4"
                then Raise "No such file or directory"
                else Ok [Byte.x4d])
      ["d/part_1.mp4"; "d/part_2.mp4"; "d/part_3.mp4"] 60
    = (ws, Raise "Error opening 'd/part_2.mp4'") /\
    map snd (Gallery.videos_of ws) = ["d/part_1.mp4"] /\
    List.length (Gallery.links_of ws) = 1 /\
    Gallery.captions_of ws = ["Duration: 60 seconds"].
Proof.
  apply (gallery_stops_at_unreadable_file
           (fun p => if String.eqb p "d/part_2.mp4"
                     then Raise "No such file or directory"
                     else Ok [Byte.x4d])
           ["d/part_1.mp4"; "d/part_2.mp4"; "d/part_3.mp4"] 60 1
           "d/part_2.mp4" "No such file or directory").
  - reflexivity.
  - reflexivity.
  - intros i q Hi Hq. destruct i as [|i]; [|lia].
    cbn in Hq. injection Hq as <-. now eexists.
Defined.
